(** * Conway's Game of Life: the simulation engine and the canvas mapper

    A shallow embedding of [src/js/game-of-life.js] (class [GameOfLife]) and
    of the canvas renderer (class [CanvasRenderer]), with the properties of
    the specification proved over it.

    Numbers.  Grid dimensions, coordinates, indices, pixel sizes and the
    generation counter are JavaScript numbers that only ever hold integers
    here; they are modelled as [Z].  ([Z] is exact where a double is exact,
    that is below 2^53.)

    Arrays.  The two grid buffers are JavaScript arrays, which are heap
    objects manipulated through references: [step] exchanges the two
    references, [getGridState] allocates a third array.  The model keeps the
    arrays in a store indexed by locations, so that aliasing is visible.

    Pixels.  Pointer positions, the bounding rectangle and the viewport size
    are taken in whole CSS pixels; [Math.floor(a / b)] is then the division
    of [Z], which rounds down for every non-zero [b].

    Controls.  Of [src/js/controls.js] (class [GameControls]) the state the
    methods read and write is modelled; animation frames and timers are
    events delivered to it.  Times are rationals, in milliseconds. *)

From stdpp Require Import gmap strings list fin_maps.
From Stdlib Require Import ZArith Lia QArith Qminmax Lqa.

Local Open Scope Z_scope.

(** ** JavaScript arrays of cells *)

Module JsArray.

(** [a[i]] read where a boolean is expected.  Past the end JavaScript
    yields [undefined], which every reader in this program treats like
    [false] ([if (cell)], [cell ? 1 : 0]). *)
Definition get (a : list bool) (i : nat) : bool := default false (a !! i).

(** [a[i] = v].  Inside the array this is an update in place; past the end
    JavaScript grows the array up to index [i], the skipped slots being
    holes (read as [undefined], hence as [false]). *)
Definition set (a : list bool) (i : nat) (v : bool) : list bool :=
  if decide (i < length a)%nat then <[i:=v]> a
  else a ++ replicate (i - length a)%nat false ++ [v].

(** [a.fill(v)]: every slot of the array is overwritten, the length stays. *)
Definition fill (v : bool) (a : list bool) : list bool :=
  replicate (length a) v.

(** [new Array(n).fill(v)]. *)
Definition make (n : nat) (v : bool) : list bool := replicate n v.

(** The largest length [new Array(n)] accepts; beyond it (and below 0) the
    constructor throws a RangeError. *)
Definition max_length : Z := 2 ^ 32 - 1.

End JsArray.

(** ** The engine object and the store of arrays *)

(** A location names one array object. *)
Definition loc := nat.

(** An engine: the fields of a [GameOfLife] object, the two buffers being
    references, together with the store the references point into. *)
Record GameOfLife := mkGame {
  width : Z;
  height : Z;
  generation : Z;
  currentGrid : loc;
  nextGrid : loc;
  heap : gmap loc (list bool)
}.

(** The array a reference points to. *)
Definition deref (s : GameOfLife) (l : loc) : list bool := heap s !!! l.

Definition with_heap (h : gmap loc (list bool)) (s : GameOfLife) : GameOfLife :=
  mkGame (width s) (height s) (generation s) (currentGrid s) (nextGrid s) h.

Definition with_generation (n : Z) (s : GameOfLife) : GameOfLife :=
  mkGame (width s) (height s) n (currentGrid s) (nextGrid s) (heap s).

(** [ref[i] = v] on the array at [l]. *)
Definition write (l : loc) (i : nat) (v : bool) (s : GameOfLife) : GameOfLife :=
  with_heap (<[l := JsArray.set (deref s l) i v]> (heap s)) s.

(** A new array object holding [a]; its location is returned. *)
Definition alloc (a : list bool) (h : gmap loc (list bool))
  : loc * gmap loc (list bool) :=
  let l := fresh (dom h) in (l, <[l := a]> h).

(** [for (let i = start; ...; i++) body], run for [n] iterations. *)
Fixpoint for_loop {S : Type} (n : nat) (i : Z) (body : Z → S → S) (s : S) : S :=
  match n with
  | O => s
  | Datatypes.S n' => for_loop n' (i + 1) body (body i s)
  end.

(** [new GameOfLife(width, height)], in the store [σ].  [None] stands for the
    RangeError of [new Array] on an invalid length. *)
Definition new_GameOfLife (w h : Z) (σ : gmap loc (list bool))
  : option GameOfLife :=
  if decide (0 <= w * h <= JsArray.max_length) then
    let '(c, σ1) := alloc (JsArray.make (Z.to_nat (w * h)) false) σ in
    let '(n, σ2) := alloc (JsArray.make (Z.to_nat (w * h)) false) σ1 in
    Some (mkGame w h 0 c n σ2)
  else None.

Definition getIndex (s : GameOfLife) (x y : Z) : Z := y * width s + x.

Definition getCell (x y : Z) (s : GameOfLife) : bool :=
  if (x <? 0) || (x >=? width s) || (y <? 0) || (y >=? height s) then false
  else JsArray.get (deref s (currentGrid s)) (Z.to_nat (getIndex s x y)).

Definition setCell (x y : Z) (alive : bool) (s : GameOfLife) : GameOfLife :=
  if (x >=? 0) && (x <? width s) && (y >=? 0) && (y <? height s) then
    write (currentGrid s) (Z.to_nat (getIndex s x y)) alive s
  else s.

Definition toggleCell (x y : Z) (s : GameOfLife) : GameOfLife :=
  if (x >=? 0) && (x <? width s) && (y >=? 0) && (y <? height s) then
    let index := Z.to_nat (getIndex s x y) in
    write (currentGrid s) index
          (negb (JsArray.get (deref s (currentGrid s)) index)) s
  else s.

(** The two nested loops over [dy] and [dx], with the [continue] on the
    cell itself. *)
Definition countNeighbors (x y : Z) (s : GameOfLife) : Z :=
  for_loop 3 (-1) (fun dy count =>
    for_loop 3 (-1) (fun dx count =>
      if (dx =? 0) && (dy =? 0) then count
      else if getCell (x + dx) (y + dy) s then count + 1
      else count) count) 0.

(** [step]: the successor of every cell is written into the array behind
    [nextGrid], all reads going through [getCell], that is through
    [currentGrid]; then the two references are exchanged. *)
Definition step_cell (x y : Z) (s : GameOfLife) : GameOfLife :=
  let neighbors := countNeighbors x y s in
  let currentlyAlive := getCell x y s in
  let index := Z.to_nat (getIndex s x y) in
  if currentlyAlive then
    write (nextGrid s) index ((neighbors =? 2) || (neighbors =? 3)) s
  else
    write (nextGrid s) index (neighbors =? 3) s.

Definition step_fill (s : GameOfLife) : GameOfLife :=
  for_loop (Z.to_nat (height s)) 0 (fun y s1 =>
    for_loop (Z.to_nat (width s)) 0 (fun x s2 => step_cell x y s2) s1) s.

Definition step (s : GameOfLife) : GameOfLife :=
  let s' := step_fill s in
  mkGame (width s') (height s') (generation s' + 1)
         (nextGrid s') (currentGrid s') (heap s').

Definition clear (s : GameOfLife) : GameOfLife :=
  with_generation 0
    (with_heap (<[currentGrid s := JsArray.fill false (deref s (currentGrid s))]>
                  (heap s)) s).

(** [randomize]: [coin i] is the outcome of the test [Math.random() < 0.3]
    at the [i]-th draw of the call. *)
Definition randomize (coin : Z → bool) (s : GameOfLife) : GameOfLife :=
  with_generation 0
    (for_loop (length (deref s (currentGrid s))) 0
       (fun i s1 => write (currentGrid s1) (Z.to_nat i) (coin i) s1) s).

Definition getPopulation (s : GameOfLife) : Z :=
  fold_left (fun count (cell : bool) => count + (if cell then 1 else 0))
            (deref s (currentGrid s)) 0.

Definition getGeneration (s : GameOfLife) : Z := generation s.

(** [[...this.currentGrid]]: a new array object with the cells of the
    current one.  The reference to it is returned, and the store grows. *)
Definition getGridState (s : GameOfLife) : loc * GameOfLife :=
  let '(l, h) := alloc (deref s (currentGrid s)) (heap s) in
  (l, with_heap h s).

(** The object literal of [loadPattern], as a map from own property names to
    templates.  (Names that [Object.prototype] supplies, such as
    "constructor", are not own properties and are outside this model.) *)
Definition patterns : gmap string (list (list Z)) :=
  <["glider" := [[0; 1; 0];
                 [0; 0; 1];
                 [1; 1; 1]]]>
  (<["blinker" := [[1; 1; 1]]]>
  (<["toad" := [[0; 1; 1; 1];
                [1; 1; 1; 0]]]>
  (<["beacon" := [[1; 1; 0; 0];
                  [1; 1; 0; 0];
                  [0; 0; 1; 1];
                  [0; 0; 1; 1]]]> ∅))).

Definition loadPattern (pattern : string) (startX startY : Z) (s : GameOfLife)
  : GameOfLife :=
  let s0 := clear s in
  match patterns !! pattern with
  | None => s0
  | Some patternData =>
      for_loop (length patternData) 0 (fun y s1 =>
        let row := patternData !!! Z.to_nat y in
        for_loop (length row) 0 (fun x s2 =>
          if (row !!! Z.to_nat x) =? 1
          then setCell (startX + x) (startY + y) true s2
          else s2) s1) s0
  end.

(** ** The canvas renderer: layout and pointer mapping *)

Module CanvasRenderer.

(** What the layout code reads from [window]. *)
Record Window := mkWindow {
  innerWidth : Z;
  innerHeight : Z
}.

(** What [canvasToGrid] reads from [canvas.getBoundingClientRect()]. *)
Record DOMRect := mkRect {
  rect_left : Z;
  rect_top : Z
}.

(** The layout fields of a renderer.  [logicalWidth] and [logicalHeight]
    are [undefined] ([None]) until [setupHighDPI] has run.  The drawing
    context, the colours and the device pixel ratio play no part in the
    layout and are left out. *)
Record t := mkRenderer {
  cellSize : Z;
  showGrid : bool;
  offsetX : Z;
  offsetY : Z;
  logicalWidth : option Z;
  logicalHeight : option Z
}.

(** [a || b] on a number that may be [undefined]: 0 and [undefined] are
    falsy. *)
Definition js_or (a : option Z) (b : Z) : Z :=
  match a with
  | Some v => if v =? 0 then b else v
  | None => b
  end.

Definition availableWidth (win : Window) (r : t) : Z :=
  js_or (logicalWidth r) (innerWidth win).

Definition availableHeight (win : Window) (r : t) : Z :=
  js_or (logicalHeight r) (innerHeight win).

(** [Math.min(maxCellWidth, maxCellHeight, 20)], before the floor of 4 is
    applied.  [Math.floor(a / b)] is [a / b] on [Z] for a non-zero [b]. *)
Definition fittingCellSize (win : Window) (game : GameOfLife) (r : t) : Z :=
  let maxCellWidth := availableWidth win r / width game in
  let maxCellHeight := availableHeight win r / height game in
  Z.min (Z.min maxCellWidth maxCellHeight) 20.

Definition calculateCellSize (win : Window) (game : GameOfLife) (r : t) : t :=
  let availableWidth := availableWidth win r in
  let availableHeight := availableHeight win r in
  let cellSize0 := fittingCellSize win game r in
  let '(cellSize1, showGrid1) :=
    if cellSize0 <? 4 then (4, false)
    else (cellSize0, cellSize0 >=? 6) in
  let gridWidth := width game * cellSize1 in
  let gridHeight := height game * cellSize1 in
  mkRenderer cellSize1 showGrid1
             ((availableWidth - gridWidth) / 2)
             ((availableHeight - gridHeight) / 2)
             (logicalWidth r) (logicalHeight r).

(** The layout part of [setupHighDPI]: the logical size is taken from the
    viewport, the offsets are reset, the cell size is recomputed. *)
Definition setupHighDPI (win : Window) (game : GameOfLife) (r : t) : t :=
  calculateCellSize win game
    (mkRenderer (cellSize r) (showGrid r) 0 0
                (Some (innerWidth win)) (Some (innerHeight win))).

(** The layout part of the constructor. *)
Definition new_CanvasRenderer (win : Window) (game : GameOfLife) : t :=
  setupHighDPI win game
    (calculateCellSize win game (mkRenderer 10 true 0 0 None None)).

(** The [cellSize] and [showGrid] entries of [updateSettings]; [None] is an
    entry that is [undefined]. *)
Definition updateSettings (newCellSize : option Z) (newShowGrid : option bool)
           (r : t) : t :=
  let r1 :=
    match newCellSize with
    | Some c => mkRenderer (Z.max 1 (Z.min c 50)) (showGrid r)
                           (offsetX r) (offsetY r)
                           (logicalWidth r) (logicalHeight r)
    | None => r
    end in
  match newShowGrid with
  | Some b => mkRenderer (cellSize r1) b (offsetX r1) (offsetY r1)
                         (logicalWidth r1) (logicalHeight r1)
  | None => r1
  end.

Definition canvasToGrid (rect : DOMRect) (canvasX canvasY : Z)
           (game : GameOfLife) (r : t) : Z * Z :=
  let x := (canvasX - rect_left rect - offsetX r) / cellSize r in
  let y := (canvasY - rect_top rect - offsetY r) / cellSize r in
  (Z.max 0 (Z.min x (width game - 1)),
   Z.max 0 (Z.min y (height game - 1))).

End CanvasRenderer.

(** ** Vocabulary of the specification *)

(** (x, y) is a cell of the grid. *)
Definition inside (s : GameOfLife) (x y : Z) : Prop :=
  0 <= x < width s ∧ 0 <= y < height s.

(** Number of cells of the grid. *)
Definition cells (s : GameOfLife) : nat := Z.to_nat (width s * height s).

(** The states of an engine built by the constructor with non-negative
    dimensions: the two references name two different arrays of the store,
    each with one slot per cell.  Every operation keeps this (lemmas
    [wf_new], [wf_step], ...). *)
Definition wf (s : GameOfLife) : Prop :=
  0 <= width s ∧ 0 <= height s ∧
  currentGrid s ≠ nextGrid s ∧
  currentGrid s ∈ dom (heap s) ∧ nextGrid s ∈ dom (heap s) ∧
  length (deref s (currentGrid s)) = cells s ∧
  length (deref s (nextGrid s)) = cells s.

#[global] Instance wf_dec (s : GameOfLife) : Decision (wf s).
Proof. unfold wf. apply _. Defined.

(** The flat row-major array whose cell (x, y) holds [f x y]. *)
Definition field (w h : Z) (f : Z → Z → bool) : list bool :=
  (λ i, f (i `mod` w) (i / w)) <$> seqZ 0 (w * h).

(** The cell of the current field at (x, y); outside the grid it is dead. *)
Definition cellAt (s : GameOfLife) (x y : Z) : bool :=
  if decide (inside s x y)
  then JsArray.get (deref s (currentGrid s)) (Z.to_nat (y * width s + x))
  else false.

(** The eight offsets of the Moore neighbourhood. *)
Definition moore : list (Z * Z) :=
  [(-1, -1); (0, -1); (1, -1);
   (-1,  0);          (1,  0);
   (-1,  1); (0,  1); (1,  1)].

(** Number of live Moore neighbours of (x, y) in the current field. *)
Definition liveNeighbors (s : GameOfLife) (x y : Z) : Z :=
  Z.of_nat (length (List.filter (λ d, cellAt s (x + d.1) (y + d.2)) moore)).

(** The value [step] computes for the cell (x, y), read off its body. *)
Definition successor (s : GameOfLife) (x y : Z) : bool :=
  if getCell x y s
  then (countNeighbors x y s =? 2) || (countNeighbors x y s =? 3)
  else countNeighbors x y s =? 3.

(** A horizontal blinker whose leftmost cell is (ax, ay), and the vertical
    one it turns into. *)
Definition blinkerH (ax ay x y : Z) : bool :=
  (y =? ay) && (ax <=? x) && (x <=? ax + 2).

Definition blinkerV (ax ay x y : Z) : bool :=
  (x =? ax + 1) && (ay - 1 <=? y) && (y <=? ay + 1).

(** The operations that change an engine. *)
Inductive Mutation :=
  | MStep
  | MSetCell (x y : Z) (alive : bool)
  | MToggleCell (x y : Z)
  | MClear
  | MRandomize (coin : Z → bool)
  | MLoadPattern (pattern : string) (startX startY : Z).

Definition mutate (m : Mutation) (s : GameOfLife) : GameOfLife :=
  match m with
  | MStep => step s
  | MSetCell x y alive => setCell x y alive s
  | MToggleCell x y => toggleCell x y s
  | MClear => clear s
  | MRandomize coin => randomize coin s
  | MLoadPattern pattern startX startY => loadPattern pattern startX startY s
  end.

Definition mutate_all (ms : list Mutation) (s : GameOfLife) : GameOfLife :=
  fold_left (λ s m, mutate m s) ms s.

(** The engine with [b] as the array behind [nextGrid]. *)
Definition with_next (b : list bool) (s : GameOfLife) : GameOfLife :=
  with_heap (<[nextGrid s := b]> (heap s)) s.

(** The engine with [a] as the array behind [currentGrid]. *)
Definition with_current (a : list bool) (s : GameOfLife) : GameOfLife :=
  with_heap (<[currentGrid s := a]> (heap s)) s.

(** What the neighbour at offset (dx, dy) adds to the count of (x, y). *)
Definition neighborWeight (s : GameOfLife) (x y dx dy : Z) : Z :=
  if (dx =? 0) && (dy =? 0) then 0
  else if cellAt s (x + dx) (y + dy) then 1 else 0.

(** What the loops of [step] have achieved once the rows below [y] (and, in
    row [y], the cells left of [x]) are done: only the array behind
    [nextGrid] has changed, it has kept its length, and the cells done hold
    their successors. *)
Definition filled (s : GameOfLife) (done : Z → Z → Prop) (t : GameOfLife) : Prop :=
  ∃ b, t = with_next b s
       ∧ length b = cells s
       ∧ ∀ x y, inside s x y → done x y →
           JsArray.get b (Z.to_nat (getIndex s x y)) = successor s x y.

(** The rule on a field given as a function of the coordinates: the live
    cells among the eight neighbours, and the successor of a cell. *)
Definition neighborSum (f : Z → Z → bool) (x y : Z) : Z :=
  Z.b2z (f (x - 1) (y - 1)) + Z.b2z (f x (y - 1)) + Z.b2z (f (x + 1) (y - 1))
  + Z.b2z (f (x - 1) y) + Z.b2z (f (x + 1) y)
  + Z.b2z (f (x - 1) (y + 1)) + Z.b2z (f x (y + 1)) + Z.b2z (f (x + 1) (y + 1)).

Definition conway (f : Z → Z → bool) (x y : Z) : bool :=
  if f x y
  then (neighborSum f x y =? 2) || (neighborSum f x y =? 3)
  else neighborSum f x y =? 3.

(** Number of live cells of an array, as [getPopulation] counts them. *)
Definition population (a : list bool) : Z :=
  fold_left (fun count (cell : bool) => count + (if cell then 1 else 0)) a 0.

(** [t] is [s] up to the two buffers: its references are those of [s],
    possibly exchanged, and every other array of the store is as in [s]. *)
Definition frame (s t : GameOfLife) : Prop :=
  ((currentGrid t = currentGrid s ∧ nextGrid t = nextGrid s)
   ∨ (currentGrid t = nextGrid s ∧ nextGrid t = currentGrid s))
  ∧ ∀ l, l ≠ currentGrid s → l ≠ nextGrid s → heap t !! l = heap s !! l.

(** ** Sample engines *)

(** A 7 x 5 engine at generation 1 holding a vertical blinker: built by the
    constructor, three [setCell]s and one [step]. *)
Definition sample_blinker : GameOfLife :=
  match new_GameOfLife 7 5 ∅ with
  | Some s => step (setCell 3 2 true (setCell 2 2 true (setCell 1 2 true s)))
  | None => mkGame 0 0 0 0%nat 1%nat ∅
  end.

(** A 14 x 13 engine with three live cells: (0, 0), (11, 10) and (13, 12). *)
Definition sample_large : GameOfLife :=
  match new_GameOfLife 14 13 ∅ with
  | Some s => setCell 13 12 true (setCell 11 10 true (setCell 0 0 true s))
  | None => mkGame 0 0 0 0%nat 1%nat ∅
  end.

(** A 7 x 5 engine as the constructor leaves it, and one that was cleared
    after a step: both have an all-dead current field at generation 0, but
    the next buffer of the second still holds the cells of the generation
    before the step. *)
Definition sample_empty : GameOfLife :=
  default (mkGame 0 0 0 0%nat 1%nat ∅) (new_GameOfLife 7 5 ∅).

Definition sample_stale : GameOfLife := clear sample_blinker.

(** A 7 x 5 engine holding the blinker template stamped at (2, 2). *)
Definition sample_horizontal : GameOfLife :=
  loadPattern "blinker" 2 2 sample_blinker.

(** The renderer of [sample_empty] in a viewport of 800 x 600 pixels. *)
Definition sample_renderer : CanvasRenderer.t :=
  CanvasRenderer.new_CanvasRenderer (CanvasRenderer.mkWindow 800 600) sample_empty.

(** ** Further vocabulary: patterns and templates *)

(** The field whose live cells are [cells], placed at the offset (ax, ay). *)
Definition pattern_at (cells : list (Z * Z)) (ax ay x y : Z) : bool :=
  existsb (λ c, (x - ax =? c.1) && (y - ay =? c.2)) cells.

(** Whether the template [data] holds a 1 in column [dx] of row [dy]. *)
Definition templateAt (data : list (list Z)) (dx dy : Z) : bool :=
  (0 <=? dx) && (0 <=? dy)
  && match data !! Z.to_nat dy with
     | Some row =>
         match row !! Z.to_nat dx with
         | Some v => v =? 1
         | None => false
         end
     | None => false
     end.

(** [n] generations. *)
Definition steps (n : nat) (s : GameOfLife) : GameOfLife := Nat.iter n step s.

(** All cells of [cells], placed at (ax, ay), lie in the grid of [s]. *)
Definition fits (s : GameOfLife) (cells : list (Z * Z)) (ax ay : Z) : Prop :=
  Forall (λ c, inside s (ax + c.1) (ay + c.2)) cells.

(** The 2 x 2 block, a single cell, and the phases of the templates. *)
Definition blockCells : list (Z * Z) := [(0, 0); (1, 0); (0, 1); (1, 1)].

Definition loneCells : list (Z * Z) := [(0, 0)].

Definition gliderCells : list (Z * Z) :=
  [(1, 0); (2, 1); (0, 2); (1, 2); (2, 2)].
Definition gliderCells1 : list (Z * Z) :=
  [(0, 1); (2, 1); (1, 2); (2, 2); (1, 3)].
Definition gliderCells2 : list (Z * Z) :=
  [(2, 1); (0, 2); (2, 2); (1, 3); (2, 3)].
Definition gliderCells3 : list (Z * Z) :=
  [(1, 1); (2, 2); (3, 2); (1, 3); (2, 3)].
Definition gliderCells4 : list (Z * Z) :=
  [(2, 1); (3, 2); (1, 3); (2, 3); (3, 3)].

Definition blinkerCells : list (Z * Z) := [(0, 0); (1, 0); (2, 0)].
Definition blinkerCells1 : list (Z * Z) := [(1, -1); (1, 0); (1, 1)].

Definition toadCells : list (Z * Z) :=
  [(1, 0); (2, 0); (3, 0); (0, 1); (1, 1); (2, 1)].
Definition toadCells1 : list (Z * Z) :=
  [(2, -1); (0, 0); (3, 0); (0, 1); (3, 1); (1, 2)].

Definition beaconCells : list (Z * Z) :=
  [(0, 0); (1, 0); (0, 1); (1, 1); (2, 2); (3, 2); (2, 3); (3, 3)].
Definition beaconCells1 : list (Z * Z) :=
  [(0, 0); (1, 0); (0, 1); (3, 2); (2, 3); (3, 3)].

(** What the loops of [loadPattern] have stamped once the rows and columns
    described by [done] are through. *)
Definition stamped (s : GameOfLife) (data : list (list Z)) (startX startY : Z)
    (done : Z → Z → Prop) (t : GameOfLife) : Prop :=
  wf t ∧ width t = width s ∧ height t = height s ∧ generation t = 0
  ∧ ∀ x y, getCell x y t = true
           ↔ inside s x y
             ∧ templateAt data (x - startX) (y - startY) = true
             ∧ done (x - startX) (y - startY).


(** One generation on the unbounded plane turns the cells [P] into the
    cells [Q]. *)
Definition evolves (P Q : list (Z * Z)) : Prop :=
  ∀ i j, conway (pattern_at P 0 0) i j = pattern_at Q 0 0 i j.

(** All cells of [cells] have both coordinates in [lo, hi]. *)
Definition boxed (lo hi : Z) (cells : list (Z * Z)) : Prop :=
  Forall (λ c, (lo <= c.1 <= hi) ∧ (lo <= c.2 <= hi)) cells.

(** [evolves P Q], checked on the square [lo - 1, hi + 1] x [lo - 1, hi + 1]. *)
Definition evolves_in_box (lo hi : Z) (P Q : list (Z * Z)) : bool :=
  forallb (λ i,
    forallb (λ j,
      Bool.eqb (conway (pattern_at P 0 0) i j) (pattern_at Q 0 0 i j))
      (seqZ (lo - 1) (hi - lo + 3)))
    (seqZ (lo - 1) (hi - lo + 3)).

(** The template [data] has its 1s exactly at [cells], checked on the square
    [0, n - 1] x [0, n - 1]. *)
Definition template_in_box (n : Z) (data : list (list Z)) (cells : list (Z * Z))
  : bool :=
  forallb (λ i,
    forallb (λ j, Bool.eqb (templateAt data i j) (pattern_at cells 0 0 i j))
      (seqZ 0 n))
    (seqZ 0 n).

(** A 7 x 5 engine with a 2 x 2 block in its top left corner, and one with a
    single live cell in its bottom right corner. *)
Definition sample_block : GameOfLife :=
  setCell 1 1 true (setCell 0 1 true (setCell 1 0 true (setCell 0 0 true sample_empty))).

Definition sample_lone : GameOfLife := setCell 6 4 true sample_empty.

(** ** Drawing the cells *)

(** The arguments of one call of [ctx.fillRect]. *)
Record FillRect := mkFill {
  fillX : Z;
  fillY : Z;
  fillW : Z;
  fillH : Z
}.

(** [drawCells]: the calls of [fillRect], in the order they are made.  (The
    gradient they are filled with is the same for all of them and is left
    out.) *)
Definition drawCells (game : GameOfLife) (r : CanvasRenderer.t) : list FillRect :=
  for_loop (Z.to_nat (height game)) 0 (fun y out1 =>
    for_loop (Z.to_nat (width game)) 0 (fun x out2 =>
      if getCell x y game then
        let xPos := CanvasRenderer.offsetX r + x * CanvasRenderer.cellSize r in
        let yPos := CanvasRenderer.offsetY r + y * CanvasRenderer.cellSize r in
        if CanvasRenderer.showGrid r && (CanvasRenderer.cellSize r >? 6) then
          out2 ++ [mkFill (xPos + 1) (yPos + 1)
                          (CanvasRenderer.cellSize r - 2)
                          (CanvasRenderer.cellSize r - 2)]
        else
          out2 ++ [mkFill xPos yPos
                          (CanvasRenderer.cellSize r) (CanvasRenderer.cellSize r)]
      else out2) out1) [].

(** The rectangle [drawCells] fills for the cell (x, y). *)
Definition cellFill (r : CanvasRenderer.t) (x y : Z) : FillRect :=
  let xPos := CanvasRenderer.offsetX r + x * CanvasRenderer.cellSize r in
  let yPos := CanvasRenderer.offsetY r + y * CanvasRenderer.cellSize r in
  if CanvasRenderer.showGrid r && (CanvasRenderer.cellSize r >? 6)
  then mkFill (xPos + 1) (yPos + 1)
              (CanvasRenderer.cellSize r - 2) (CanvasRenderer.cellSize r - 2)
  else mkFill xPos yPos (CanvasRenderer.cellSize r) (CanvasRenderer.cellSize r).

(** What the loops of [drawCells] have drawn once the cells described by
    [done] are through: one rectangle per live cell among them, in
    row-major order. *)
Definition drawn (game : GameOfLife) (r : CanvasRenderer.t)
    (done : Z → Z → Prop) (n : nat) (out : list FillRect) : Prop :=
  (∀ f, f ∈ out ↔ ∃ x y, inside game x y ∧ done x y
                         ∧ getCell x y game = true ∧ f = cellFill r x y)
  ∧ Z.of_nat (length out) = population (take n (deref game (currentGrid game))).

(** ** The controls: play, pause, speed and pointer input *)

Module GameControls.

(** The fields of a [GameControls] object that its methods read and write,
    with the [disabled] flags of the three buttons [updateButtonStates]
    sets.  [animationId] is [null] ([None]) or the handle of the animation
    frame requested last; times are in milliseconds, as
    [requestAnimationFrame] passes them.  The texts written into the page
    (generation, population, density, the loading overlay, the CSS classes)
    are outputs that nothing reads back and are left out. *)
Record t := mkControls {
  isRunning : bool;
  animationId : option positive;
  animationSpeed : Z;
  lastStepTime : Q;
  playDisabled : bool;
  pauseDisabled : bool;
  stepDisabled : bool
}.

(** The controls with the engine and the renderer they drive. *)
Record App := mkApp {
  controls : t;
  game : GameOfLife;
  renderer : CanvasRenderer.t
}.

Definition with_controls (c : t) (a : App) : App :=
  mkApp c (game a) (renderer a).

Definition with_game (g : GameOfLife) (a : App) : App :=
  mkApp (controls a) g (renderer a).

Definition updateButtonStates (c : t) : t :=
  mkControls (isRunning c) (animationId c) (animationSpeed c) (lastStepTime c)
             (isRunning c) (negb (isRunning c)) (isRunning c).

(** [updateUI] and [updateUIWithAnimation]: of what they do, only the call
    of [updateButtonStates] changes the state. *)
Definition updateUI (a : App) : App :=
  with_controls (updateButtonStates (controls a)) a.

Definition updateUIWithAnimation (a : App) : App := updateUI a.

(** The constructor; [p], [q], [s] are the [disabled] flags the page starts
    with. *)
Definition new_GameControls (p q s : bool)
    (g : GameOfLife) (r : CanvasRenderer.t) : App :=
  updateUI (mkApp (mkControls false None 50 0 p q s) g r).

Definition setSpeed (speed : Z) (c : t) : t :=
  mkControls (isRunning c) (animationId c) (Z.max 50 (Z.min speed 2000))
             (lastStepTime c) (playDisabled c) (pauseDisabled c) (stepDisabled c).

(** [value] is what [parseInt] makes of the slider's value. *)
Definition handleSpeedChange (value : Z) (c : t) : t := setSpeed value c.

(** [currentSpeed] is what [parseInt] makes of the slider's value. *)
Definition adjustSpeed (increment currentSpeed : Z) (c : t) : t :=
  let newSpeed := Z.max 50 (Z.min (currentSpeed + increment) 1000) in
  handleSpeedChange newSpeed c.

(** One call of [animate]; [handle] is what [requestAnimationFrame]
    returns. *)
Definition animate (currentTime : Q) (handle : positive) (a : App) : App :=
  if negb (isRunning (controls a)) then a
  else
    let a1 :=
      if Qle_bool (inject_Z (animationSpeed (controls a)))
                  (currentTime - lastStepTime (controls a))
      then
        let a2 := updateUIWithAnimation (with_game (step (game a)) a) in
        let c := controls a2 in
        with_controls
          (mkControls (isRunning c) (animationId c) (animationSpeed c)
                      currentTime
                      (playDisabled c) (pauseDisabled c) (stepDisabled c)) a2
      else a in
    let c := controls a1 in
    with_controls
      (mkControls (isRunning c) (Some handle) (animationSpeed c)
                  (lastStepTime c)
                  (playDisabled c) (pauseDisabled c) (stepDisabled c)) a1.

Definition play (handle : positive) (a : App) : App :=
  if isRunning (controls a) then a
  else
    let c := controls a in
    let c1 := mkControls true (animationId c) (animationSpeed c) (lastStepTime c)
                         (playDisabled c) (pauseDisabled c) (stepDisabled c) in
    animate 0 handle (with_controls (updateButtonStates c1) a).

Definition pause (a : App) : App :=
  if negb (isRunning (controls a)) then a
  else
    let c := controls a in
    let c1 := mkControls false
                (match animationId c with Some _ => None | None => None end)
                (animationSpeed c) (lastStepTime c)
                (playDisabled c) (pauseDisabled c) (stepDisabled c) in
    with_controls (updateButtonStates c1) a.

Definition toggleCellWithFeedback (x y : Z) (a : App) : App :=
  updateUIWithAnimation (with_game (toggleCell x y (game a)) a).

Definition handleCanvasClick (rect : CanvasRenderer.DOMRect)
    (clientX clientY : Z) (a : App) : App :=
  let coords :=
    CanvasRenderer.canvasToGrid rect clientX clientY (game a) (renderer a) in
  toggleCellWithFeedback coords.1 coords.2 a.

(** [touches] holds the client coordinates of the touches of the event. *)
Definition handleCanvasTouch (rect : CanvasRenderer.DOMRect)
    (touches : list (Z * Z)) (a : App) : App :=
  match touches with
  | [touch] =>
      let coords :=
        CanvasRenderer.canvasToGrid rect touch.1 touch.2 (game a) (renderer a) in
      toggleCellWithFeedback coords.1 coords.2 a
  | _ => a
  end.

(** What the timer set by [clear] runs. *)
Definition clearFired (a : App) : App :=
  updateUIWithAnimation (with_game (clear (game a)) a).

(** What the timer set by [randomize] runs; [coin] as for the engine. *)
Definition randomizeFired (coin : Z → bool) (a : App) : App :=
  updateUIWithAnimation (with_game (randomize coin (game a)) a).

(** What the timer set by [loadPattern] runs. *)
Definition loadPatternFired (pattern : string) (a : App) : App :=
  let centerX := width (game a) / 2 in
  let centerY := height (game a) / 2 in
  updateUIWithAnimation
    (with_game (loadPattern pattern (centerX - 2) (centerY - 2) (game a)) a).

(** What the timer set by [handleResize] runs: [renderer.resize()]. *)
Definition resizeFired (win : CanvasRenderer.Window) (a : App) : App :=
  mkApp (controls a) (game a)
        (CanvasRenderer.setupHighDPI win (game a) (renderer a)).

Definition step (a : App) : App :=
  updateUIWithAnimation (with_game (step (game a)) a).

(** [clear], [randomize] and [loadPattern] pause at once and leave the rest
    to a timer. *)
Definition clear (a : App) : App := pause a.

Definition randomize (a : App) : App := pause a.

Definition loadPattern (pattern : string) (a : App) : App := pause a.

Definition handleKeyboard (tagName code : string) (currentSpeed : Z)
    (handle : positive) (a : App) : App :=
  if String.eqb tagName "INPUT" then a
  else if String.eqb code "Space" then
    if isRunning (controls a) then pause a else play handle a
  else if String.eqb code "KeyS" then
    if negb (isRunning (controls a)) then step a else a
  else if String.eqb code "KeyC" then clear a
  else if String.eqb code "KeyR" then randomize a
  else if String.eqb code "ArrowUp" then
    with_controls (adjustSpeed (-50) currentSpeed (controls a)) a
  else if String.eqb code "ArrowDown" then
    with_controls (adjustSpeed 50 currentSpeed (controls a)) a
  else a.

(** What can happen to the application: the listeners of
    [setupEventListeners], the animation frames and the timers. *)
Inductive Event :=
  | EPlay (handle : positive)
  | EPause
  | EStep
  | EClear
  | ERandomize
  | ELoadPattern (pattern : string)
  | ESpeed (value : Z)
  | EClick (rect : CanvasRenderer.DOMRect) (clientX clientY : Z)
  | ETouch (rect : CanvasRenderer.DOMRect) (touches : list (Z * Z))
  | EKey (tagName code : string) (currentSpeed : Z) (handle : positive)
  | EFrame (currentTime : Q) (handle : positive)
  | EClearFired
  | ERandomizeFired (coin : Z → bool)
  | ELoadPatternFired (pattern : string)
  | EResizeFired (win : CanvasRenderer.Window).

Definition dispatch (e : Event) (a : App) : App :=
  match e with
  | EPlay handle => play handle a
  | EPause => pause a
  | EStep => step a
  | EClear => clear a
  | ERandomize => randomize a
  | ELoadPattern pattern => loadPattern pattern a
  | ESpeed value => with_controls (handleSpeedChange value (controls a)) a
  | EClick rect clientX clientY => handleCanvasClick rect clientX clientY a
  | ETouch rect touches => handleCanvasTouch rect touches a
  | EKey tagName code currentSpeed handle =>
      handleKeyboard tagName code currentSpeed handle a
  | EFrame currentTime handle => animate currentTime handle a
  | EClearFired => clearFired a
  | ERandomizeFired coin => randomizeFired coin a
  | ELoadPatternFired pattern => loadPatternFired pattern a
  | EResizeFired win => resizeFired win a
  end.

Definition run (es : list Event) (a : App) : App :=
  fold_left (λ a e, dispatch e a) es a.

(** The animation frames [frames] (time and handle), delivered in this
    order. *)
Definition deliver (frames : list (Q * positive)) (a : App) : App :=
  run (map (λ f, EFrame f.1 f.2) frames) a.

(** What holds of the controls after the constructor and every event: the
    delay between generations is within 50 and 2000 ms, and the buttons are
    enabled according to [isRunning]. *)
Definition consistent (c : t) : Prop :=
  50 <= animationSpeed c <= 2000
  ∧ playDisabled c = isRunning c
  ∧ pauseDisabled c = negb (isRunning c)
  ∧ stepDisabled c = isRunning c.

End GameControls.

(** The controls of [sample_blinker], as the constructor leaves them. *)
Definition sample_app : GameControls.App :=
  GameControls.new_GameControls false false false sample_blinker sample_renderer.

(** ** Highlighting the cell under the pointer *)

(** What [highlightCell] paints: a rounded rectangle with its corner
    radius, or a plain one. *)
Inductive Highlight :=
  | RoundRect (x y w h : Z) (radius : Q)
  | PlainRect (x y w h : Z).

(** [highlightCell]; [None] when nothing is painted.  (The colour is left
    out.) *)
Definition highlightCell (x y : Z) (game : GameOfLife) (r : CanvasRenderer.t)
  : option Highlight :=
  if (x <? 0) || (x >=? width game) || (y <? 0) || (y >=? height game) then None
  else
    let xPos := CanvasRenderer.offsetX r + x * CanvasRenderer.cellSize r in
    let yPos := CanvasRenderer.offsetY r + y * CanvasRenderer.cellSize r in
    if CanvasRenderer.cellSize r >=? 4 then
      Some (RoundRect xPos yPos
                      (CanvasRenderer.cellSize r) (CanvasRenderer.cellSize r)
                      (Qmin 2 (inject_Z (CanvasRenderer.cellSize r) / 4)))
    else
      Some (PlainRect xPos yPos
                      (CanvasRenderer.cellSize r) (CanvasRenderer.cellSize r)).

(** [handleCanvasHover]: the highlight it paints over the frame it has
    redrawn, if any. *)
Definition handleCanvasHover (rect : CanvasRenderer.DOMRect)
    (clientX clientY : Z) (a : GameControls.App) : option Highlight :=
  if GameControls.isRunning (GameControls.controls a) then None
  else
    let coords :=
      CanvasRenderer.canvasToGrid rect clientX clientY
        (GameControls.game a) (GameControls.renderer a) in
    highlightCell coords.1 coords.2 (GameControls.game a) (GameControls.renderer a).

(** The rectangle a highlight covers. *)
Definition highlightBox (h : Highlight) : Z * Z * Z * Z :=
  match h with
  | RoundRect x y w h _ => (x, y, w, h)
  | PlainRect x y w h => (x, y, w, h)
  end.

(** ** Proof automation *)

(** Case analysis on the integer comparisons of the goal. *)
Ltac zbool :=
  rewrite ?Z.geb_leb;
  repeat match goal with
    | |- context [?a <=? ?b] => destruct (Z.leb_spec a b)
    | |- context [?a <? ?b] => destruct (Z.ltb_spec a b)
    | |- context [?a =? ?b] => destruct (Z.eqb_spec a b)
    end;
  simpl.

(** Settles, with [lia], the comparisons of a blinker's cells against its
    anchor (ax, ay), once the position of the cell is known. *)
Ltac decide_cmp ax ay :=
  repeat match goal with
    | |- context [?a <=? ?b] =>
        first [ rewrite (proj2 (Z.leb_le a b)) by lia
              | rewrite (proj2 (Z.leb_gt a b)) by lia ]
    | |- context [?a =? ay] =>
        first [ rewrite (proj2 (Z.eqb_eq a ay)) by lia
              | rewrite (proj2 (Z.eqb_neq a ay)) by lia ]
    | |- context [?a =? ax + 1] =>
        first [ rewrite (proj2 (Z.eqb_eq a (ax + 1))) by lia
              | rewrite (proj2 (Z.eqb_neq a (ax + 1))) by lia ]
    end.

(** ** Arrays *)

Section ArrayFacts.
Implicit Types (a b : list bool) (i j : nat) (v : bool).

Lemma length_set_lt a i v :
  (i < length a)%nat → length (JsArray.set a i v) = length a.
Proof.
  intros Hi. unfold JsArray.set. rewrite decide_True by done.
  apply length_insert.
Qed.

Lemma get_set_eq a i v :
  (i < length a)%nat → JsArray.get (JsArray.set a i v) i = v.
Proof.
  intros Hi. unfold JsArray.set, JsArray.get. rewrite decide_True by done.
  by rewrite list_lookup_insert_eq.
Qed.

Lemma get_set_ne a i j v :
  (i < length a)%nat → i ≠ j →
  JsArray.get (JsArray.set a i v) j = JsArray.get a j.
Proof.
  intros Hi Hne. unfold JsArray.set, JsArray.get.
  rewrite decide_True by done. by rewrite list_lookup_insert_ne.
Qed.

Lemma length_fill v a : length (JsArray.fill v a) = length a.
Proof. apply length_replicate. Qed.

Lemma get_fill_false a i : JsArray.get (JsArray.fill false a) i = false.
Proof.
  unfold JsArray.get, JsArray.fill.
  destruct (replicate (length a) false !! i) as [c|] eqn:E; [|done].
  apply lookup_replicate in E as [-> _]. done.
Qed.

(** Two arrays of one length that read alike everywhere are the same. *)
Lemma array_ext a b :
  length a = length b →
  (∀ i, (i < length a)%nat → JsArray.get a i = JsArray.get b i) →
  a = b.
Proof.
  intros Hlen Hget. apply list_eq. intros i.
  destruct (decide (i < length a)%nat) as [Hi|Hi].
  - specialize (Hget i Hi). unfold JsArray.get in Hget.
    destruct (lookup_lt_is_Some_2 a i Hi) as [x Hx].
    destruct (lookup_lt_is_Some_2 b i ltac:(lia)) as [y Hy].
    rewrite Hx, Hy in *. simpl in Hget. by subst.
  - rewrite !lookup_ge_None_2; [done | lia | lia].
Qed.

Lemma length_field w h f : length (field w h f) = Z.to_nat (w * h).
Proof. unfold field. by rewrite length_fmap, length_seqZ. Qed.

Lemma get_field w h f i :
  (i < Z.to_nat (w * h))%nat →
  JsArray.get (field w h f) i = f (Z.of_nat i `mod` w) (Z.of_nat i / w).
Proof.
  intros Hi. unfold JsArray.get, field.
  rewrite list_lookup_fmap, lookup_seqZ_lt by lia. done.
Qed.

End ArrayFacts.

(** ** Loops *)

(** A loop establishes what its body maintains. *)
Lemma for_loop_ind {S : Type} (P : Z → S → Prop) (body : Z → S → S) :
  ∀ (n : nat) (i : Z) (s : S),
    P i s →
    (∀ j t, i <= j < i + Z.of_nat n → P j t → P (j + 1) (body j t)) →
    P (i + Z.of_nat n) (for_loop n i body s).
Proof.
  induction n as [|n IH]; intros i s Hs Hbody; simpl for_loop.
  - by replace (i + Z.of_nat 0) with i by lia.
  - replace (i + Z.of_nat (Datatypes.S n)) with ((i + 1) + Z.of_nat n) by lia.
    apply IH.
    + apply Hbody; [lia | done].
    + intros j t Hj. apply Hbody. lia.
Qed.

(** ** Bounds checks and indices *)

Section Bounds.
Implicit Types (s : GameOfLife) (x y : Z).

(** The guard of [setCell] and [toggleCell]. *)
Lemma guard_inside s x y :
  (x >=? 0) && (x <? width s) && (y >=? 0) && (y <? height s)
  = bool_decide (inside s x y).
Proof.
  unfold inside. zbool; symmetry;
    (apply bool_decide_eq_true_2 || apply bool_decide_eq_false_2); lia.
Qed.

(** The guard of [getCell]. *)
Lemma guard_outside s x y :
  (x <? 0) || (x >=? width s) || (y <? 0) || (y >=? height s)
  = negb (bool_decide (inside s x y)).
Proof.
  rewrite <- guard_inside. zbool; try reflexivity; lia.
Qed.

Lemma getCell_inside s x y :
  inside s x y →
  getCell x y s
  = JsArray.get (deref s (currentGrid s)) (Z.to_nat (getIndex s x y)).
Proof.
  intros Hin. unfold getCell.
  by rewrite guard_outside, bool_decide_eq_true_2.
Qed.

Lemma getCell_outside s x y : ¬ inside s x y → getCell x y s = false.
Proof.
  intros Hout. unfold getCell.
  by rewrite guard_outside, bool_decide_eq_false_2.
Qed.

Lemma setCell_inside s x y alive :
  inside s x y →
  setCell x y alive s
  = write (currentGrid s) (Z.to_nat (getIndex s x y)) alive s.
Proof.
  intros Hin. unfold setCell. by rewrite guard_inside, bool_decide_eq_true_2.
Qed.

Lemma setCell_outside s x y alive : ¬ inside s x y → setCell x y alive s = s.
Proof.
  intros Hout. unfold setCell.
  by rewrite guard_inside, bool_decide_eq_false_2.
Qed.

Lemma toggleCell_outside s x y : ¬ inside s x y → toggleCell x y s = s.
Proof.
  intros Hout. unfold toggleCell.
  by rewrite guard_inside, bool_decide_eq_false_2.
Qed.

(** [getCell] is the cell of the current field, dead outside the grid. *)
Lemma getCell_cellAt s x y : getCell x y s = cellAt s x y.
Proof.
  unfold cellAt. case_decide.
  - by apply getCell_inside.
  - by apply getCell_outside.
Qed.

(** Inside the grid the index is a slot of the array, and no two cells
    share one. *)
Lemma index_lt s x y :
  inside s x y → (Z.to_nat (getIndex s x y) < cells s)%nat.
Proof.
  unfold inside, getIndex, cells. intros [Hx Hy].
  apply Z2Nat.inj_lt; nia.
Qed.

Lemma index_inj s x y x' y' :
  inside s x y → inside s x' y' →
  Z.to_nat (getIndex s x y) = Z.to_nat (getIndex s x' y') →
  x = x' ∧ y = y'.
Proof.
  unfold inside, getIndex. intros [Hx Hy] [Hx' Hy'] Heq.
  apply Z2Nat.inj in Heq; [|nia|nia].
  destruct (Z.lt_trichotomy y y') as [Hlt|[->|Hlt]]; [|lia|].
  - assert ((y + 1) * width s <= y' * width s)
      by (apply Z.mul_le_mono_nonneg_r; lia). lia.
  - assert ((y' + 1) * width s <= y * width s)
      by (apply Z.mul_le_mono_nonneg_r; lia). lia.
Qed.

(** Every slot is the index of the cell (i mod width, i / width). *)
Lemma slot_inside s (i : nat) :
  0 <= width s → (i < cells s)%nat →
  inside s (Z.of_nat i `mod` width s) (Z.of_nat i / width s)
  ∧ Z.to_nat (getIndex s (Z.of_nat i `mod` width s) (Z.of_nat i / width s)) = i.
Proof.
  unfold inside, getIndex, cells. intros Hw Hi.
  assert (0 < width s) as Hpos.
  { destruct (decide (width s = 0)) as [E|]; [|lia].
    rewrite E in Hi. simpl in Hi. lia. }
  assert (Z.of_nat i < width s * height s) as Hlt by lia.
  pose proof (Z.mod_pos_bound (Z.of_nat i) (width s) Hpos).
  pose proof (Z.div_mod (Z.of_nat i) (width s) ltac:(lia)) as Hdm.
  assert (0 <= Z.of_nat i / width s) by (apply Z.div_pos; lia).
  assert (Z.of_nat i / width s < height s)
    by (apply Z.div_lt_upper_bound; lia).
  split; [lia|].
  rewrite (Z.mul_comm (Z.of_nat i / width s)), <- Hdm. apply Nat2Z.id.
Qed.

End Bounds.

(** C3.  Coordinates outside the grid are absorbed: [getCell] reads them as
    dead, and [setCell] (with either value) and [toggleCell] return the
    engine as it was, every cell of every array and the generation counter
    included. *)
Theorem out_of_bounds_absorbed (s : GameOfLife) (x y : Z) :
  ¬ (0 <= x < width s ∧ 0 <= y < height s) →
  getCell x y s = false
  ∧ (∀ alive, setCell x y alive s = s)
  ∧ toggleCell x y s = s.
Proof.
  intros Hout. split; [|split].
  - by apply getCell_outside.
  - intros alive. by apply setCell_outside.
  - by apply toggleCell_outside.
Qed.

Lemma out_of_bounds_absorbed_witness :
  ¬ (0 <= -1 < width sample_blinker ∧ 0 <= 5 < height sample_blinker)
  ∧ getCell (-1) 5 sample_blinker = false
  ∧ (∀ alive, setCell (-1) 5 alive sample_blinker = sample_blinker)
  ∧ toggleCell (-1) 5 sample_blinker = sample_blinker.
Proof.
  assert (¬ (0 <= -1 < width sample_blinker ∧ 0 <= 5 < height sample_blinker))
    as Hout by lia.
  split; [exact Hout | exact (out_of_bounds_absorbed sample_blinker (-1) 5 Hout)].
Defined.

(** ** Neighbour counting *)

Lemma for_loop_ext {S : Type} (f g : Z → S → S) :
  (∀ j t, f j t = g j t) →
  ∀ (n : nat) (i : Z) (s : S), for_loop n i f s = for_loop n i g s.
Proof.
  intros Hfg. induction n as [|n IH]; intros i s; simpl; [done|].
  by rewrite Hfg, IH.
Qed.

Section Neighbors.
Implicit Types (s : GameOfLife) (x y : Z).

(** The loops of [countNeighbors] count the live cells among the eight
    Moore neighbours. *)
Lemma countNeighbors_moore s x y : countNeighbors x y s = liveNeighbors s x y.
Proof.
  unfold countNeighbors.
  rewrite (for_loop_ext _
    (λ dy count, for_loop 3 (-1) (λ dx c, c + neighborWeight s x y dx dy) count)).
  2:{ intros dy c. apply for_loop_ext. intros dx c'.
      unfold neighborWeight. rewrite getCell_cellAt.
      destruct ((dx =? 0) && (dy =? 0)), (cellAt s (x + dx) (y + dy)); lia. }
  simpl for_loop.
  change (-1 + 1 + 1) with 1. change (-1 + 1) with 0.
  unfold neighborWeight, liveNeighbors, moore. simpl.
  destruct (cellAt s (x + -1) (y + -1)), (cellAt s (x + 0) (y + -1)),
    (cellAt s (x + 1) (y + -1)), (cellAt s (x + -1) (y + 0)),
    (cellAt s (x + 1) (y + 0)), (cellAt s (x + -1) (y + 1)),
    (cellAt s (x + 0) (y + 1)), (cellAt s (x + 1) (y + 1)); reflexivity.
Qed.

Lemma countNeighbors_ext s s' x y :
  (∀ x y, getCell x y s = getCell x y s') →
  countNeighbors x y s = countNeighbors x y s'.
Proof.
  intros Hget. unfold countNeighbors.
  apply for_loop_ext. intros dy c. apply for_loop_ext. intros dx c'.
  by rewrite Hget.
Qed.

End Neighbors.

(** ** The store under the operations *)

Section StoreFacts.
Implicit Types (s : GameOfLife) (x y : Z) (l : loc) (a b : list bool).

Lemma deref_write_eq l (i : nat) (v : bool) s :
  deref (write l i v s) l = JsArray.set (deref s l) i v.
Proof. unfold deref, write. simpl. apply lookup_total_insert_eq. Qed.

Lemma deref_write_ne l l' (i : nat) (v : bool) s :
  l ≠ l' → deref (write l i v s) l' = deref s l'.
Proof. intros Hne. unfold deref, write. simpl. by apply lookup_total_insert_ne. Qed.

Lemma deref_with_next_next b s : deref (with_next b s) (nextGrid s) = b.
Proof. unfold deref, with_next. simpl. apply lookup_total_insert_eq. Qed.

Lemma deref_with_next_ne b s l :
  l ≠ nextGrid s → deref (with_next b s) l = deref s l.
Proof.
  intros Hne. unfold deref, with_next. simpl.
  by apply lookup_total_insert_ne.
Qed.

Lemma deref_with_current_current a s :
  deref (with_current a s) (currentGrid s) = a.
Proof. unfold deref, with_current. simpl. apply lookup_total_insert_eq. Qed.

Lemma deref_with_current_ne a s l :
  l ≠ currentGrid s → deref (with_current a s) l = deref s l.
Proof.
  intros Hne. unfold deref, with_current. simpl.
  by apply lookup_total_insert_ne.
Qed.

(** Putting back the array a valid reference already points to changes
    nothing. *)
Lemma insert_deref s l : l ∈ dom (heap s) → <[l := deref s l]> (heap s) = heap s.
Proof.
  intros [a Ha]%elem_of_dom. apply insert_id.
  unfold deref. by rewrite (lookup_total_correct _ _ _ Ha).
Qed.

Lemma with_next_deref s : nextGrid s ∈ dom (heap s) → with_next (deref s (nextGrid s)) s = s.
Proof.
  intros Hdom. unfold with_next, with_heap. rewrite insert_deref by done.
  by destruct s.
Qed.

Lemma write_with_next b s (i : nat) (v : bool) :
  write (nextGrid s) i v (with_next b s) = with_next (JsArray.set b i v) s.
Proof.
  unfold write. rewrite deref_with_next_next.
  unfold with_next, with_heap. simpl. by rewrite insert_insert_eq.
Qed.

Lemma write_current s (i : nat) (v : bool) :
  write (currentGrid s) i v s
  = with_current (JsArray.set (deref s (currentGrid s)) i v) s.
Proof. reflexivity. Qed.

(** [getCell] reads the dimensions and the current array, nothing else. *)
Lemma getCell_current s s' x y :
  width s = width s' → height s = height s' →
  deref s (currentGrid s) = deref s' (currentGrid s') →
  getCell x y s = getCell x y s'.
Proof. unfold getCell, getIndex. by intros -> -> ->. Qed.

Lemma getCell_with_next b s x y :
  currentGrid s ≠ nextGrid s → getCell x y (with_next b s) = getCell x y s.
Proof.
  intros Hne. apply getCell_current; [done | done |].
  by apply (deref_with_next_ne b s (currentGrid s)).
Qed.

Lemma successor_with_next b s x y :
  currentGrid s ≠ nextGrid s → successor (with_next b s) x y = successor s x y.
Proof.
  intros Hne. unfold successor.
  rewrite (countNeighbors_ext (with_next b s) s)
    by (intros; by apply getCell_with_next).
  by rewrite getCell_with_next.
Qed.

End StoreFacts.

(** ** One generation *)

Section StepFacts.
Implicit Types (s t : GameOfLife) (x y : Z) (b : list bool).

Lemma step_cell_write x y t :
  step_cell x y t
  = write (nextGrid t) (Z.to_nat (getIndex t x y)) (successor t x y) t.
Proof. unfold step_cell, successor. by destruct (getCell x y t). Qed.

Lemma step_cell_with_next b s x y :
  currentGrid s ≠ nextGrid s →
  step_cell x y (with_next b s)
  = with_next (JsArray.set b (Z.to_nat (getIndex s x y)) (successor s x y)) s.
Proof.
  intros Hne. rewrite step_cell_write, successor_with_next by done.
  exact (write_with_next b s _ _).
Qed.

Lemma step_row s y t :
  wf s → 0 <= y < height s →
  filled s (λ _ y', y' < y) t →
  filled s (λ _ y', y' < y + 1)
         (for_loop (Z.to_nat (width s)) 0 (λ x s2, step_cell x y s2) t).
Proof.
  intros (Hw & Hh & Hne & _) Hy Ht.
  pose (Q := λ x t, filled s (λ x' y', y' < y ∨ (y' = y ∧ x' < x)) t).
  assert (Q (0 + Z.of_nat (Z.to_nat (width s)))
            (for_loop (Z.to_nat (width s)) 0 (λ x s2, step_cell x y s2) t))
    as (b & -> & Hlen & Hb).
  { apply for_loop_ind.
    - destruct Ht as (b & -> & Hlen & Hb). exists b. repeat split; [done|].
      intros x' y' Hin [Hlt|[_ Hlt]]; [by apply Hb | unfold inside in Hin; lia].
    - intros x t' Hx (b & -> & Hlen & Hb).
      assert (inside s x y) as Hin by (unfold inside; lia).
      pose proof (index_lt s x y Hin) as Hidx.
      rewrite step_cell_with_next by done. eexists. split; [done|]. split.
      + rewrite length_set_lt; [done | by rewrite Hlen].
      + intros x' y' Hin' Hdone.
        destruct (decide (x' = x ∧ y' = y)) as [[-> ->]|Hother].
        * apply get_set_eq. by rewrite Hlen.
        * rewrite get_set_ne; [| by rewrite Hlen |].
          -- apply Hb; [done | lia].
          -- intros Heq. apply Hother. by eapply index_inj. }
  exists b. repeat split; [done|].
  intros x' y' Hin Hdone. apply Hb; [done|]. unfold inside in Hin. lia.
Qed.

(** The loops of [step] leave in the next buffer the field of successors,
    whatever that buffer held before. *)
Lemma step_fill_spec s :
  wf s → step_fill s = with_next (field (width s) (height s) (successor s)) s.
Proof.
  intros Hwf. pose proof Hwf as (Hw & Hh & Hne & Hcur & Hnxt & Hlc & Hln).
  assert (filled s (λ _ y', y' < 0 + Z.of_nat (Z.to_nat (height s))) (step_fill s))
    as (b & -> & Hlen & Hb).
  { unfold step_fill.
    apply (for_loop_ind (λ y t, filled s (λ _ y', y' < y) t)).
    - exists (deref s (nextGrid s)). rewrite with_next_deref by done.
      repeat split; [done|]. intros x y Hin Hdone. unfold inside in Hin. lia.
    - intros y t Hy Ht. apply step_row; [done | lia | done]. }
  f_equal. apply array_ext.
  - by rewrite Hlen, length_field.
  - intros i Hi. rewrite Hlen in Hi.
    destruct (slot_inside s i Hw Hi) as [Hin Hidx].
    rewrite get_field by done. rewrite <- Hidx at 1.
    apply Hb; [done|]. unfold inside in Hin. lia.
Qed.

Lemma step_spec s :
  wf s →
  step s = mkGame (width s) (height s) (generation s + 1)
                  (nextGrid s) (currentGrid s)
                  (<[nextGrid s := field (width s) (height s) (successor s)]>
                     (heap s)).
Proof. intros Hwf. unfold step. by rewrite step_fill_spec. Qed.

End StepFacts.

(** ** The invariant *)

Section Invariant.
Implicit Types (s : GameOfLife) (x y : Z) (a b : list bool).

Lemma wf_with_current a s :
  wf s → length a = cells s → wf (with_current a s).
Proof.
  intros (Hw & Hh & Hne & Hcur & Hnxt & Hlc & Hln) Hlen.
  unfold wf. change (cells (with_current a s)) with (cells s).
  change (currentGrid (with_current a s)) with (currentGrid s).
  change (nextGrid (with_current a s)) with (nextGrid s).
  rewrite deref_with_current_current, deref_with_current_ne by done.
  unfold with_current. simpl. rewrite dom_insert_L.
  repeat split; try done; set_solver.
Qed.

Lemma wf_with_next b s :
  wf s → length b = cells s → wf (with_next b s).
Proof.
  intros (Hw & Hh & Hne & Hcur & Hnxt & Hlc & Hln) Hlen.
  unfold wf. change (cells (with_next b s)) with (cells s).
  change (currentGrid (with_next b s)) with (currentGrid s).
  change (nextGrid (with_next b s)) with (nextGrid s).
  rewrite deref_with_next_next, deref_with_next_ne by done.
  unfold with_next. simpl. rewrite dom_insert_L.
  repeat split; try done; set_solver.
Qed.

Lemma wf_with_generation n s : wf s → wf (with_generation n s).
Proof. done. Qed.

Lemma wf_setCell s x y alive : wf s → wf (setCell x y alive s).
Proof.
  intros Hwf. destruct (decide (inside s x y)) as [Hin|Hout].
  - rewrite setCell_inside, write_current by done.
    apply wf_with_current; [done|].
    pose proof Hwf as (_ & _ & _ & _ & _ & Hlc & _).
    rewrite length_set_lt; [done|]. rewrite Hlc. by apply index_lt.
  - by rewrite setCell_outside.
Qed.

Lemma wf_toggleCell s x y : wf s → wf (toggleCell x y s).
Proof.
  intros Hwf. unfold toggleCell. rewrite guard_inside. case_bool_decide; [|done].
  rewrite write_current. apply wf_with_current; [done|].
  pose proof Hwf as (_ & _ & _ & _ & _ & Hlc & _).
  rewrite length_set_lt; [done|]. rewrite Hlc. by apply index_lt.
Qed.

Lemma clear_with_current s :
  clear s
  = with_generation 0
      (with_current (JsArray.fill false (deref s (currentGrid s))) s).
Proof. reflexivity. Qed.

Lemma wf_clear s : wf s → wf (clear s).
Proof.
  intros Hwf. rewrite clear_with_current. apply wf_with_generation.
  apply wf_with_current; [done|]. rewrite length_fill. apply Hwf.
Qed.

Lemma step_with_next s :
  wf s →
  step s = mkGame (width s) (height s) (generation s + 1)
                  (nextGrid s) (currentGrid s)
                  (heap (with_next (field (width s) (height s) (successor s)) s)).
Proof. apply step_spec. Qed.

Lemma wf_step s : wf s → wf (step s).
Proof.
  intros Hwf. rewrite step_with_next by done.
  pose proof (wf_with_next (field (width s) (height s) (successor s)) s Hwf
                (length_field _ _ _)) as (Hw & Hh & Hne & Hcur & Hnxt & Hlc & Hln).
  unfold wf. repeat split; done.
Qed.

(** The constructor, given dimensions that are not negative, yields a
    well-formed engine, all cells dead, at generation 0. *)
Lemma wf_new w h σ s :
  0 <= w → 0 <= h → new_GameOfLife w h σ = Some s →
  wf s ∧ width s = w ∧ height s = h ∧ generation s = 0
  ∧ deref s (currentGrid s) = replicate (Z.to_nat (w * h)) false.
Proof.
  intros Hw Hh. unfold new_GameOfLife, alloc. case_decide; [|done].
  intros [= <-]. unfold wf, deref, cells, JsArray.make. simpl.
  remember (fresh (dom σ)) as c eqn:Hc.
  remember (<[c := replicate (Z.to_nat (w * h)) false]> σ) as σ1 eqn:Hσ1.
  remember (fresh (dom σ1)) as n eqn:Hn.
  assert (σ1 !! c = Some (replicate (Z.to_nat (w * h)) false)) as Hlook
    by (rewrite Hσ1; apply lookup_insert_eq).
  assert (c ≠ n) as Hne.
  { intros E. apply (is_fresh (dom σ1)). rewrite <- Hn, <- E.
    by eapply elem_of_dom_2. }
  rewrite lookup_total_insert_eq, lookup_total_insert_ne by done.
  rewrite (lookup_total_correct _ _ _ Hlook), length_replicate.
  repeat split; try done.
  - apply elem_of_dom. rewrite lookup_insert_ne by done. eauto.
  - apply elem_of_dom. rewrite lookup_insert_eq. eauto.
Qed.

End Invariant.

(** ** Reading the field after an operation *)

Section Reading.
Implicit Types (s : GameOfLife) (x y : Z) (f : Z → Z → bool).

Lemma get_field_index s f x y :
  inside s x y →
  JsArray.get (field (width s) (height s) f) (Z.to_nat (getIndex s x y)) = f x y.
Proof.
  intros Hin. rewrite get_field by (by apply (index_lt s)).
  unfold inside, getIndex in *.
  rewrite Z2Nat.id by nia.
  replace (y * width s + x) with (x + y * width s) by lia.
  rewrite Z_mod_plus_full, Z_div_plus_full by lia.
  rewrite Z.mod_small, Z.div_small by lia. f_equal; lia.
Qed.

Lemma field_ext w h f g :
  (∀ x y, f x y = g x y) → field w h f = field w h g.
Proof.
  intros Hfg. unfold field. apply list_fmap_ext. intros i j _. apply Hfg.
Qed.

Lemma deref_step s :
  wf s →
  deref (step s) (currentGrid (step s))
  = field (width s) (height s) (successor s).
Proof.
  intros Hwf. rewrite step_spec by done. unfold deref. simpl.
  apply lookup_total_insert_eq.
Qed.

Lemma getCell_step s x y :
  wf s → inside s x y → getCell x y (step s) = successor s x y.
Proof.
  intros Hwf Hin.
  assert (width (step s) = width s ∧ height (step s) = height s) as [Hw Hh]
    by (by rewrite step_spec).
  rewrite getCell_inside by (unfold inside; by rewrite Hw, Hh).
  rewrite deref_step by done. unfold getIndex at 1. rewrite Hw.
  by apply get_field_index.
Qed.

Lemma getCell_clear s x y : getCell x y (clear s) = false.
Proof.
  destruct (decide (inside (clear s) x y)) as [Hin|Hout].
  - rewrite getCell_inside by done. rewrite clear_with_current at 1.
    change (currentGrid (clear s)) with (currentGrid s).
    replace (deref _ (currentGrid s))
      with (JsArray.fill false (deref s (currentGrid s)))
      by (symmetry; apply deref_with_current_current).
    apply get_fill_false.
  - by apply getCell_outside.
Qed.

Lemma getCell_setCell s x y alive x' y' :
  wf s →
  getCell x' y' (setCell x y alive s)
  = if decide (inside s x y ∧ x' = x ∧ y' = y) then alive else getCell x' y' s.
Proof.
  intros Hwf. pose proof Hwf as (_ & _ & _ & _ & _ & Hlc & _).
  destruct (decide (inside s x y)) as [Hin|Hout].
  2:{ rewrite setCell_outside by done. rewrite decide_False; [done|]. tauto. }
  rewrite setCell_inside, write_current by done.
  pose proof (index_lt s x y Hin) as Hidx. rewrite <- Hlc in Hidx.
  destruct (decide (inside s x' y')) as [Hin'|Hout'].
  - rewrite (getCell_inside s x' y') by done.
    rewrite getCell_inside by done.
    replace (deref (with_current _ s) (currentGrid (with_current _ s)))
      with (JsArray.set (deref s (currentGrid s)) (Z.to_nat (getIndex s x y)) alive)
      by (symmetry; exact (deref_with_current_current _ s)).
    change (getIndex (with_current _ s) x' y') with (getIndex s x' y').
    case_decide as Hsame.
    + destruct Hsame as (_ & -> & ->). by apply get_set_eq.
    + apply get_set_ne; [done|]. intros Heq. apply Hsame.
      destruct (index_inj s x y x' y' Hin Hin' Heq) as [-> ->]. done.
  - rewrite (getCell_outside s x' y') by done.
    rewrite getCell_outside by done.
    case_decide as Hsame; [|done]. destruct Hsame as (_ & -> & ->). done.
Qed.

End Reading.

(** ** The rule *)

Section Rule.
Implicit Types (s : GameOfLife) (x y : Z).

Lemma successor_rule s x y :
  successor s x y = true
  ↔ (getCell x y s = true ∧ (liveNeighbors s x y = 2 ∨ liveNeighbors s x y = 3))
    ∨ (getCell x y s = false ∧ liveNeighbors s x y = 3).
Proof.
  unfold successor. rewrite countNeighbors_moore.
  destruct (getCell x y s); zbool; intuition (discriminate || lia).
Qed.

Lemma successor_current s s' x y :
  width s = width s' → height s = height s' →
  deref s (currentGrid s) = deref s' (currentGrid s') →
  successor s x y = successor s' x y.
Proof.
  intros Hw Hh Hcur. unfold successor.
  rewrite (countNeighbors_ext s s')
    by (intros; by apply getCell_current).
  by rewrite (getCell_current s s').
Qed.

End Rule.

(** C2.  One [step] applies Conway's rule B3/S23 with a dead border: for
    every cell (x, y) of the grid, with n the number of live Moore neighbours
    of (x, y) in the field before the step (cells outside the grid counting
    as dead), the cell is alive after the step iff it was alive and n is 2 or
    3, or it was dead and n is 3; and the generation counter has grown
    by 1. *)
Theorem step_applies_conway_rule (s : GameOfLife) :
  wf s →
  (∀ x y, 0 <= x < width s → 0 <= y < height s →
     let n := liveNeighbors s x y in
     getCell x y (step s) = true
     ↔ (getCell x y s = true ∧ (n = 2 ∨ n = 3))
       ∨ (getCell x y s = false ∧ n = 3))
  ∧ getGeneration (step s) = getGeneration s + 1.
Proof.
  intros Hwf. split.
  - intros x y Hx Hy n. rewrite getCell_step by done. apply successor_rule.
  - by rewrite step_spec.
Qed.

Lemma step_applies_conway_rule_witness :
  wf sample_blinker
  ∧ (∀ x y, 0 <= x < width sample_blinker → 0 <= y < height sample_blinker →
       let n := liveNeighbors sample_blinker x y in
       getCell x y (step sample_blinker) = true
       ↔ (getCell x y sample_blinker = true ∧ (n = 2 ∨ n = 3))
         ∨ (getCell x y sample_blinker = false ∧ n = 3))
  ∧ getGeneration (step sample_blinker) = getGeneration sample_blinker + 1.
Proof.
  assert (wf sample_blinker) as Hwf
    by (apply (bool_decide_unpack _); vm_compute; exact I).
  split; [exact Hwf | exact (step_applies_conway_rule sample_blinker Hwf)].
Defined.

(** C10.  What [step] yields depends on the current field alone: two engines
    of equal width, height and generation whose current fields agree cell
    for cell have, after one [step] each, equal current fields, equal
    populations and equal generation counters, whatever their next buffers
    held. *)
Theorem step_ignores_next_buffer (s1 s2 : GameOfLife) :
  wf s1 → wf s2 →
  width s1 = width s2 → height s1 = height s2 →
  generation s1 = generation s2 →
  deref s1 (currentGrid s1) = deref s2 (currentGrid s2) →
  deref (step s1) (currentGrid (step s1)) = deref (step s2) (currentGrid (step s2))
  ∧ getPopulation (step s1) = getPopulation (step s2)
  ∧ getGeneration (step s1) = getGeneration (step s2).
Proof.
  intros Hwf1 Hwf2 Hw Hh Hgen Hcur.
  assert (deref (step s1) (currentGrid (step s1))
          = deref (step s2) (currentGrid (step s2))) as Heq.
  { rewrite !deref_step by done. rewrite Hw, Hh. apply field_ext.
    intros x y. by apply successor_current. }
  split; [done|]. split.
  - unfold getPopulation. by rewrite Heq.
  - rewrite !step_spec by done. unfold getGeneration. simpl. by rewrite Hgen.
Qed.

Lemma step_ignores_next_buffer_witness :
  (wf sample_stale ∧ wf sample_empty
   ∧ width sample_stale = width sample_empty
   ∧ height sample_stale = height sample_empty
   ∧ generation sample_stale = generation sample_empty
   ∧ deref sample_stale (currentGrid sample_stale)
     = deref sample_empty (currentGrid sample_empty)
   ∧ deref sample_stale (nextGrid sample_stale)
     ≠ deref sample_empty (nextGrid sample_empty))
  ∧ deref (step sample_stale) (currentGrid (step sample_stale))
    = deref (step sample_empty) (currentGrid (step sample_empty))
  ∧ getPopulation (step sample_stale) = getPopulation (step sample_empty)
  ∧ getGeneration (step sample_stale) = getGeneration (step sample_empty).
Proof.
  assert (wf sample_stale) as Hwf1
    by (apply (bool_decide_unpack _); vm_compute; exact I).
  assert (wf sample_empty) as Hwf2
    by (apply (bool_decide_unpack _); vm_compute; exact I).
  split.
  - split; [exact Hwf1|]. split; [exact Hwf2|].
    repeat (split; [vm_compute; reflexivity|]). vm_compute. discriminate.
  - apply step_ignores_next_buffer;
      [exact Hwf1 | exact Hwf2 | vm_compute; reflexivity ..].
Defined.

(** ** Population *)

Section Population.
Implicit Types (s : GameOfLife) (a : list bool).

Lemma population_acc a (c : Z) :
  fold_left (fun count (cell : bool) => count + (if cell then 1 else 0)) a c
  = c + population a.
Proof.
  unfold population. revert c. induction a as [|v a IH]; intros c; simpl.
  - lia.
  - rewrite (IH (c + _)), (IH (0 + _)). lia.
Qed.

Lemma population_cons (v : bool) a :
  population (v :: a) = (if v then 1 else 0) + population a.
Proof. unfold population at 1. simpl. by rewrite population_acc. Qed.

Lemma population_replicate_false (n : nat) : population (replicate n false) = 0.
Proof.
  induction n as [|n IH]; [done|]. simpl. rewrite population_cons. lia.
Qed.

(** Bringing a dead cell to life adds one to the population. *)
Lemma population_set_alive a (i : nat) :
  a !! i = Some false → population (JsArray.set a i true) = population a + 1.
Proof.
  intros Hi. unfold JsArray.set.
  rewrite decide_True by (by eapply lookup_lt_Some).
  revert i Hi. induction a as [|v a IH]; intros [|i] Hi; simpl in *; try done.
  - injection Hi as ->. rewrite !population_cons. lia.
  - rewrite !population_cons, IH by done. lia.
Qed.

Lemma getPopulation_clear s : getPopulation (clear s) = 0.
Proof.
  unfold getPopulation. fold (population (deref (clear s) (currentGrid (clear s)))).
  rewrite clear_with_current at 1. change (currentGrid (clear s)) with (currentGrid s).
  replace (deref _ (currentGrid s))
    with (JsArray.fill false (deref s (currentGrid s)))
    by (symmetry; apply deref_with_current_current).
  apply population_replicate_false.
Qed.

End Population.

(** C6.  Right after [clear] the population is 0, every cell reads dead and
    the generation is 0, whatever the engine held before. *)
Theorem clear_resets (s : GameOfLife) :
  getPopulation (clear s) = 0
  ∧ (∀ x y, getCell x y (clear s) = false)
  ∧ Forall (λ cell, cell = false) (deref (clear s) (currentGrid (clear s)))
  ∧ getGeneration (clear s) = 0.
Proof.
  split; [apply getPopulation_clear|]. split; [intros; apply getCell_clear|].
  split; [|done].
  replace (deref (clear s) (currentGrid (clear s)))
    with (JsArray.fill false (deref s (currentGrid s)))
    by (symmetry; exact (deref_with_current_current _ s)).
  apply Forall_replicate. done.
Qed.

(** ** Patterns *)

Section Patterns.
Implicit Types (s : GameOfLife) (x y : Z) (name : string).

(** An unknown name leaves [loadPattern] at its first statement, the call
    of [clear]. *)
Lemma loadPattern_unknown s name x y :
  patterns !! name = None → loadPattern name x y s = clear s.
Proof. intros Hnone. unfold loadPattern. by rewrite Hnone. Qed.

Lemma patterns_own_names name :
  name ≠ "glider" → name ≠ "blinker" → name ≠ "toad" → name ≠ "beacon" →
  patterns !! name = None.
Proof.
  intros Hg Hb Ht Hc. unfold patterns.
  rewrite !lookup_insert_ne by done. apply lookup_empty.
Qed.

Lemma loadPattern_glider_unfold s ox oy :
  loadPattern "glider" ox oy s
  = setCell (ox + 2) (oy + 2) true
      (setCell (ox + 1) (oy + 2) true
         (setCell (ox + 0) (oy + 2) true
            (setCell (ox + 2) (oy + 1) true
               (setCell (ox + 1) (oy + 0) true (clear s))))).
Proof.
  unfold loadPattern.
  replace (patterns !! "glider") with (Some [[0; 1; 0]; [0; 0; 1]; [1; 1; 1]])
    by reflexivity.
  simpl for_loop. reflexivity.
Qed.

Lemma loadPattern_blinker_unfold s ox oy :
  loadPattern "blinker" ox oy s
  = setCell (ox + 2) (oy + 0) true
      (setCell (ox + 1) (oy + 0) true
         (setCell (ox + 0) (oy + 0) true (clear s))).
Proof.
  unfold loadPattern.
  replace (patterns !! "blinker") with (Some [[1; 1; 1]]) by reflexivity.
  simpl for_loop. reflexivity.
Qed.

Lemma setCell_dims s x y alive :
  width (setCell x y alive s) = width s
  ∧ height (setCell x y alive s) = height s
  ∧ generation (setCell x y alive s) = generation s.
Proof. unfold setCell. by destruct (_ && _). Qed.

Lemma inside_setCell s x y alive x' y' :
  inside (setCell x y alive s) x' y' ↔ inside s x' y'.
Proof.
  unfold inside. by destruct (setCell_dims s x y alive) as (-> & -> & _).
Qed.

Lemma getPopulation_setCell_alive s x y :
  wf s → inside s x y → getCell x y s = false →
  getPopulation (setCell x y true s) = getPopulation s + 1.
Proof.
  intros Hwf Hin Hdead. pose proof Hwf as (_ & _ & _ & _ & _ & Hlc & _).
  rewrite setCell_inside, write_current by done.
  unfold getPopulation. fold (population (deref s (currentGrid s))).
  replace (deref (with_current _ s) (currentGrid (with_current _ s)))
    with (JsArray.set (deref s (currentGrid s)) (Z.to_nat (getIndex s x y)) true)
    by (symmetry; exact (deref_with_current_current _ s)).
  fold (population
          (JsArray.set (deref s (currentGrid s)) (Z.to_nat (getIndex s x y)) true)).
  apply population_set_alive.
  rewrite getCell_inside in Hdead by done. unfold JsArray.get in Hdead.
  pose proof (index_lt s x y Hin) as Hidx. rewrite <- Hlc in Hidx.
  destruct (lookup_lt_is_Some_2 _ _ Hidx) as [v Hv].
  rewrite Hv in *. simpl in Hdead. by subst.
Qed.

End Patterns.

(** C1.  [loadPattern] with a name that is none of its templates does not
    leave the engine as it was.  On the 7 x 5 engine [sample_blinker] (three
    live cells, generation 1) the call [loadPattern("pulsar", 0, 0)] ends
    with every cell dead and the generation counter back at 0: the function
    clears the grid before it looks the name up. *)
Theorem unknown_pattern_wipes_grid :
  patterns !! "pulsar" = None
  ∧ getPopulation sample_blinker = 3
  ∧ getGeneration sample_blinker = 1
  ∧ getCell 2 1 sample_blinker = true
  ∧ getCell 2 1 (loadPattern "pulsar" 0 0 sample_blinker) = false
  ∧ getPopulation (loadPattern "pulsar" 0 0 sample_blinker) = 0
  ∧ getGeneration (loadPattern "pulsar" 0 0 sample_blinker) = 0.
Proof. vm_compute. repeat split. Qed.

(** C4.  On an engine at least 13 cells wide and 13 cells high,
    [loadPattern("glider", 10, 10)] leaves exactly the five cells of the
    glider alive, (11,10), (12,11), (10,12), (11,12) and (12,12), and every
    other cell dead, whatever was alive before; the population is 5. *)
Theorem glider_stamped_exactly (s : GameOfLife) :
  wf s → 13 <= width s → 13 <= height s →
  (∀ x y, getCell x y (loadPattern "glider" 10 10 s) = true
          ↔ (x = 11 ∧ y = 10) ∨ (x = 12 ∧ y = 11) ∨ (x = 10 ∧ y = 12)
            ∨ (x = 11 ∧ y = 12) ∨ (x = 12 ∧ y = 12))
  ∧ getPopulation (loadPattern "glider" 10 10 s) = 5.
Proof.
  intros Hwf Hw Hh. rewrite loadPattern_glider_unfold.
  pose proof (wf_clear s Hwf) as Hwf0.
  set (s0 := clear s) in *.
  assert (width s0 = width s ∧ height s0 = height s) as [Hw0 Hh0] by done.
  pose proof (wf_setCell s0 (10 + 1) (10 + 0) true Hwf0) as Hwf1.
  pose proof (setCell_dims s0 (10 + 1) (10 + 0) true) as (Hw1 & Hh1 & _).
  set (s1 := setCell (10 + 1) (10 + 0) true s0) in *.
  pose proof (wf_setCell s1 (10 + 2) (10 + 1) true Hwf1) as Hwf2.
  pose proof (setCell_dims s1 (10 + 2) (10 + 1) true) as (Hw2 & Hh2 & _).
  set (s2 := setCell (10 + 2) (10 + 1) true s1) in *.
  pose proof (wf_setCell s2 (10 + 0) (10 + 2) true Hwf2) as Hwf3.
  pose proof (setCell_dims s2 (10 + 0) (10 + 2) true) as (Hw3 & Hh3 & _).
  set (s3 := setCell (10 + 0) (10 + 2) true s2) in *.
  pose proof (wf_setCell s3 (10 + 1) (10 + 2) true Hwf3) as Hwf4.
  pose proof (setCell_dims s3 (10 + 1) (10 + 2) true) as (Hw4 & Hh4 & _).
  set (s4 := setCell (10 + 1) (10 + 2) true s3) in *.
  assert (∀ x y, getCell x y s0 = false) as H0
    by (intros; apply getCell_clear).
  assert (∀ x y, getCell x y s1 = bool_decide (x = 11 ∧ y = 10)) as H1.
  { intros x y. unfold s1. rewrite getCell_setCell, H0 by done.
    unfold inside. case_decide; case_bool_decide; try done; lia. }
  assert (∀ x y, getCell x y s2
                 = bool_decide ((x = 11 ∧ y = 10) ∨ (x = 12 ∧ y = 11))) as H2.
  { intros x y. unfold s2. rewrite getCell_setCell, H1 by done.
    unfold inside. case_decide; repeat case_bool_decide; try done; lia. }
  assert (∀ x y, getCell x y s3
                 = bool_decide ((x = 11 ∧ y = 10) ∨ (x = 12 ∧ y = 11)
                                ∨ (x = 10 ∧ y = 12))) as H3.
  { intros x y. unfold s3. rewrite getCell_setCell, H2 by done.
    unfold inside. case_decide; repeat case_bool_decide; try done; lia. }
  assert (∀ x y, getCell x y s4
                 = bool_decide ((x = 11 ∧ y = 10) ∨ (x = 12 ∧ y = 11)
                                ∨ (x = 10 ∧ y = 12) ∨ (x = 11 ∧ y = 12))) as H4.
  { intros x y. unfold s4. rewrite getCell_setCell, H3 by done.
    unfold inside. case_decide; repeat case_bool_decide; try done; lia. }
  split.
  - intros x y. rewrite getCell_setCell, H4 by done.
    unfold inside. case_decide; [|case_bool_decide]; split; intros; try done; lia.
  - rewrite getPopulation_setCell_alive;
      [| done | unfold inside; lia | rewrite H4; apply bool_decide_eq_false_2; lia].
    unfold s4. rewrite getPopulation_setCell_alive;
      [| done | unfold inside; lia | rewrite H3; apply bool_decide_eq_false_2; lia].
    unfold s3. rewrite getPopulation_setCell_alive;
      [| done | unfold inside; lia | rewrite H2; apply bool_decide_eq_false_2; lia].
    unfold s2. rewrite getPopulation_setCell_alive;
      [| done | unfold inside; lia | rewrite H1; apply bool_decide_eq_false_2; lia].
    unfold s1. rewrite getPopulation_setCell_alive;
      [| done | unfold inside; lia | apply H0].
    unfold s0. rewrite getPopulation_clear. done.
Qed.

Lemma glider_stamped_exactly_witness :
  wf sample_large ∧ 13 <= width sample_large ∧ 13 <= height sample_large
  ∧ (∀ x y, getCell x y (loadPattern "glider" 10 10 sample_large) = true
            ↔ (x = 11 ∧ y = 10) ∨ (x = 12 ∧ y = 11) ∨ (x = 10 ∧ y = 12)
              ∨ (x = 11 ∧ y = 12) ∨ (x = 12 ∧ y = 12))
  ∧ getPopulation (loadPattern "glider" 10 10 sample_large) = 5.
Proof.
  assert (wf sample_large) as Hwf
    by (apply (bool_decide_unpack _); vm_compute; exact I).
  assert (13 <= width sample_large) as Hw by (vm_compute; discriminate).
  assert (13 <= height sample_large) as Hh by (vm_compute; discriminate).
  split; [exact Hwf|]. split; [exact Hw|]. split; [exact Hh|].
  exact (glider_stamped_exactly sample_large Hwf Hw Hh).
Defined.

(** ** The blinker *)

Section Blinker.
Implicit Types (s : GameOfLife) (x y ax ay : Z) (f : Z → Z → bool).

(** Where the current field is [f], the loops of [countNeighbors] compute
    the neighbour sum of [f], and [step] computes Conway's rule on [f]. *)
Lemma countNeighbors_sum s f x y :
  (∀ x y, getCell x y s = f x y) → countNeighbors x y s = neighborSum f x y.
Proof.
  intros Hf. rewrite countNeighbors_moore. unfold liveNeighbors, moore, neighborSum.
  simpl. rewrite <- !getCell_cellAt, !Hf, !Z.add_0_r.
  change (x + -1) with (x - 1). change (y + -1) with (y - 1).
  destruct (f (x - 1) (y - 1)), (f x (y - 1)), (f (x + 1) (y - 1)),
    (f (x - 1) y), (f (x + 1) y),
    (f (x - 1) (y + 1)), (f x (y + 1)), (f (x + 1) (y + 1)); reflexivity.
Qed.

Lemma successor_conway s f x y :
  (∀ x y, getCell x y s = f x y) → successor s x y = conway f x y.
Proof.
  intros Hf. unfold successor, conway.
  by rewrite (countNeighbors_sum s f), Hf.
Qed.

(** A field given by [f], all of whose live cells lie in the grid, reads as
    [f] at every coordinate. *)
Lemma getCell_field s f :
  deref s (currentGrid s) = field (width s) (height s) f →
  (∀ x y, f x y = true → inside s x y) →
  ∀ x y, getCell x y s = f x y.
Proof.
  intros Hfield Hlive x y. destruct (decide (inside s x y)) as [Hin|Hout].
  - rewrite getCell_inside, Hfield by done. by apply get_field_index.
  - rewrite getCell_outside by done. symmetry. apply not_true_is_false.
    intros Hf. by apply Hout, Hlive.
Qed.

Lemma blinkerH_conway ax ay x y :
  conway (blinkerH ax ay) x y = blinkerV ax ay x y.
Proof.
  unfold conway, neighborSum, blinkerH, blinkerV.
  assert (x < ax - 1 ∨ x = ax - 1 ∨ x = ax ∨ x = ax + 1 ∨ x = ax + 2
          ∨ x = ax + 3 ∨ ax + 3 < x) as Hx by lia.
  assert (y < ay - 1 ∨ y = ay - 1 ∨ y = ay ∨ y = ay + 1 ∨ ay + 1 < y)
    as Hy by lia.
  destruct Hx as [Hx|[Hx|[Hx|[Hx|[Hx|[Hx|Hx]]]]]];
    destruct Hy as [Hy|[Hy|[Hy|[Hy|Hy]]]];
    decide_cmp ax ay; reflexivity.
Qed.

Lemma blinkerV_conway ax ay x y :
  conway (blinkerV ax ay) x y = blinkerH ax ay x y.
Proof.
  unfold conway, neighborSum, blinkerH, blinkerV.
  assert (x < ax - 1 ∨ x = ax - 1 ∨ x = ax ∨ x = ax + 1 ∨ x = ax + 2
          ∨ x = ax + 3 ∨ ax + 3 < x) as Hx by lia.
  assert (y < ay - 2 ∨ y = ay - 2 ∨ y = ay - 1 ∨ y = ay ∨ y = ay + 1
          ∨ y = ay + 2 ∨ ay + 2 < y) as Hy by lia.
  destruct Hx as [Hx|[Hx|[Hx|[Hx|[Hx|[Hx|Hx]]]]]];
    destruct Hy as [Hy|[Hy|[Hy|[Hy|[Hy|[Hy|Hy]]]]]];
    decide_cmp ax ay; reflexivity.
Qed.

End Blinker.

(** C5.  A grid whose only live cells are the horizontal blinker (ax, ay),
    (ax+1, ay), (ax+2, ay), placed so that the three cells and their Moore
    neighbourhoods lie in the grid, is back at exactly its original field
    after two [step]s, with the generation counter grown by 2. *)
Theorem blinker_period_two (s : GameOfLife) (ax ay : Z) :
  wf s →
  1 <= ax → ax + 3 < width s → 1 <= ay → ay + 1 < height s →
  deref s (currentGrid s) = field (width s) (height s) (blinkerH ax ay) →
  deref (step (step s)) (currentGrid (step (step s))) = deref s (currentGrid s)
  ∧ (∀ x y, getCell x y (step (step s)) = getCell x y s)
  ∧ getGeneration (step (step s)) = getGeneration s + 2.
Proof.
  intros Hwf Hax Haw Hay Hah Hfield.
  pose proof (wf_step s Hwf) as Hwf1.
  assert (width (step s) = width s ∧ height (step s) = height s
          ∧ generation (step s) = generation s + 1) as (Hw1 & Hh1 & Hg1)
    by (by rewrite step_spec).
  assert (∀ x y, getCell x y s = blinkerH ax ay x y) as Hs.
  { apply getCell_field; [done|]. intros x y. unfold blinkerH, inside.
    rewrite !andb_true_iff, Z.eqb_eq, !Z.leb_le. lia. }
  assert (deref (step s) (currentGrid (step s))
          = field (width s) (height s) (blinkerV ax ay)) as Hfield1.
  { rewrite deref_step by done. apply field_ext. intros x y.
    by rewrite (successor_conway s (blinkerH ax ay)), blinkerH_conway. }
  assert (∀ x y, getCell x y (step s) = blinkerV ax ay x y) as Hs1.
  { apply getCell_field; [by rewrite Hw1, Hh1|]. intros x y.
    unfold blinkerV, inside. rewrite Hw1, Hh1.
    rewrite !andb_true_iff, Z.eqb_eq, !Z.leb_le. lia. }
  assert (deref (step (step s)) (currentGrid (step (step s)))
          = deref s (currentGrid s)) as Hback.
  { rewrite deref_step, Hw1, Hh1, Hfield by done. apply field_ext. intros x y.
    by rewrite (successor_conway (step s) (blinkerV ax ay)), blinkerV_conway. }
  split; [done|]. split.
  - intros x y. apply getCell_current; [|  | done].
    + by rewrite (step_spec (step s)).
    + by rewrite (step_spec (step s)).
  - unfold getGeneration. rewrite (step_spec (step s)) by done.
    cbn [generation]. lia.
Qed.

Lemma blinker_period_two_witness :
  (wf sample_horizontal
   ∧ 1 <= 2 ∧ 2 + 3 < width sample_horizontal
   ∧ 1 <= 2 ∧ 2 + 1 < height sample_horizontal
   ∧ deref sample_horizontal (currentGrid sample_horizontal)
     = field (width sample_horizontal) (height sample_horizontal) (blinkerH 2 2))
  ∧ deref (step (step sample_horizontal))
          (currentGrid (step (step sample_horizontal)))
    = deref sample_horizontal (currentGrid sample_horizontal)
  ∧ (∀ x y, getCell x y (step (step sample_horizontal))
            = getCell x y sample_horizontal)
  ∧ getGeneration (step (step sample_horizontal))
    = getGeneration sample_horizontal + 2.
Proof.
  assert (wf sample_horizontal) as Hwf
    by (apply (bool_decide_unpack _); vm_compute; exact I).
  assert (2 + 3 < width sample_horizontal) as Hw by (vm_compute; reflexivity).
  assert (2 + 1 < height sample_horizontal) as Hh by (vm_compute; reflexivity).
  assert (deref sample_horizontal (currentGrid sample_horizontal)
          = field (width sample_horizontal) (height sample_horizontal)
                  (blinkerH 2 2)) as Hfield by (vm_compute; reflexivity).
  split.
  - split; [exact Hwf|]. split; [lia|]. split; [exact Hw|]. split; [lia|].
    split; [exact Hh | exact Hfield].
  - apply (blinker_period_two sample_horizontal 2 2);
      [exact Hwf | lia | exact Hw | lia | exact Hh | exact Hfield].
Defined.

(** ** What the operations leave alone *)

Section Frame.
Implicit Types (s t u : GameOfLife) (x y : Z) (a b : list bool).

Lemma frame_refl s : frame s s.
Proof. split; [by left | done]. Qed.

Lemma frame_trans s t u : frame s t → frame t u → frame s u.
Proof.
  intros [Hrefs Hst] [Hrefu Htu]. split.
  - destruct Hrefs as [[Hc Hn]|[Hc Hn]], Hrefu as [[Hc' Hn']|[Hc' Hn']];
      rewrite Hc', Hn', ?Hc, ?Hn; (by left) || (by right).
  - intros l Hlc Hln. rewrite Htu, Hst; try done.
    + destruct Hrefs as [[-> _]|[-> _]]; done.
    + destruct Hrefs as [[_ ->]|[_ ->]]; done.
Qed.

Lemma frame_with_current a s : frame s (with_current a s).
Proof.
  split; [by left|]. intros l Hlc _. unfold with_current. simpl.
  by rewrite lookup_insert_ne.
Qed.

Lemma frame_with_next b s : frame s (with_next b s).
Proof.
  split; [by left|]. intros l _ Hln. unfold with_next. simpl.
  by rewrite lookup_insert_ne.
Qed.

Lemma frame_setCell s x y alive : frame s (setCell x y alive s).
Proof.
  unfold setCell. destruct (_ && _); [|apply frame_refl].
  rewrite write_current. apply frame_with_current.
Qed.

Lemma frame_toggleCell s x y : frame s (toggleCell x y s).
Proof.
  unfold toggleCell. destruct (_ && _); [|apply frame_refl].
  rewrite write_current. apply frame_with_current.
Qed.

Lemma frame_clear s : frame s (clear s).
Proof. rewrite clear_with_current. exact (frame_with_current _ s). Qed.

Lemma frame_step s : wf s → frame s (step s).
Proof.
  intros Hwf. rewrite step_with_next by done.
  destruct (frame_with_next (field (width s) (height s) (successor s)) s)
    as [_ Hother].
  split; [by right | done].
Qed.

(** The loop of [randomize] writes into the current array only, one slot
    after the other. *)
Lemma randomize_loop coin s :
  wf s →
  let t := for_loop (length (deref s (currentGrid s))) 0
             (λ i s1, write (currentGrid s1) (Z.to_nat i) (coin i) s1) s in
  wf t ∧ frame s t.
Proof.
  intros Hwf.
  pose (P := λ (i : Z) t,
    wf t ∧ frame s t
    ∧ length (deref t (currentGrid t)) = length (deref s (currentGrid s))).
  assert (P (0 + Z.of_nat (length (deref s (currentGrid s))))
            (for_loop (length (deref s (currentGrid s))) 0
               (λ i s1, write (currentGrid s1) (Z.to_nat i) (coin i) s1) s))
    as (Hwft & Hft & _).
  { apply for_loop_ind.
    - repeat split; [apply Hwf.. | apply frame_refl].
    - intros i t Hi (Hwft & Hft & Hlen).
      pose proof Hwft as (_ & _ & _ & _ & _ & Hlc & _).
      assert (Z.to_nat i < length (deref t (currentGrid t)))%nat as Hidx by lia.
      rewrite write_current. split; [|split].
      + apply wf_with_current; [done|]. by rewrite length_set_lt.
      + eapply frame_trans; [done | apply frame_with_current].
      + replace (deref (with_current _ t) (currentGrid (with_current _ t)))
          with (JsArray.set (deref t (currentGrid t)) (Z.to_nat i) (coin i))
          by (symmetry; exact (deref_with_current_current _ t)).
        by rewrite length_set_lt. }
  done.
Qed.

Lemma wf_randomize coin s : wf s → wf (randomize coin s).
Proof. intros Hwf. by destruct (randomize_loop coin s Hwf). Qed.

Lemma frame_randomize coin s : wf s → frame s (randomize coin s).
Proof. intros Hwf. by destruct (randomize_loop coin s Hwf). Qed.

(** The loops of [loadPattern] are a sequence of [setCell]s. *)
Lemma loadPattern_stamp pattern startX startY s :
  wf s →
  wf (loadPattern pattern startX startY s)
  ∧ frame s (loadPattern pattern startX startY s).
Proof.
  intros Hwf. unfold loadPattern.
  assert (wf (clear s) ∧ frame s (clear s)) as Hclear
    by (split; [by apply wf_clear | apply frame_clear]).
  destruct (patterns !! pattern) as [patternData|]; [|done].
  apply (for_loop_ind (λ _ t, wf t ∧ frame s t)); [done|].
  intros y t _ Ht.
  apply (for_loop_ind (λ _ t, wf t ∧ frame s t)); [done|].
  intros x t' _ [Hwft Hft]. destruct (_ =? 1); [|done]. split.
  - by apply wf_setCell.
  - eapply frame_trans; [done | apply frame_setCell].
Qed.

(** Every mutation keeps the invariant and stays within the two buffers. *)
Lemma mutate_frame m s : wf s → wf (mutate m s) ∧ frame s (mutate m s).
Proof.
  intros Hwf. destruct m as [|x y alive|x y| |coin|pattern startX startY]; simpl.
  - split; [by apply wf_step | by apply frame_step].
  - split; [by apply wf_setCell | apply frame_setCell].
  - split; [by apply wf_toggleCell | apply frame_toggleCell].
  - split; [by apply wf_clear | apply frame_clear].
  - split; [by apply wf_randomize | by apply frame_randomize].
  - by apply loadPattern_stamp.
Qed.

Lemma mutate_all_frame ms s :
  wf s → wf (mutate_all ms s) ∧ frame s (mutate_all ms s).
Proof.
  revert s. induction ms as [|m ms IH]; intros s Hwf; simpl.
  - split; [done | apply frame_refl].
  - destruct (mutate_frame m s Hwf) as [Hwfm Hfm].
    destruct (IH (mutate m s) Hwfm) as [Hwfms Hfms].
    split; [done | by eapply frame_trans].
Qed.

(** [getGridState] leaves the engine as it is and puts the copy into a
    location that neither reference of the engine names. *)
Lemma getGridState_fresh s :
  wf s →
  (getGridState s).1 ≠ currentGrid s ∧ (getGridState s).1 ≠ nextGrid s
  ∧ wf (getGridState s).2
  ∧ currentGrid (getGridState s).2 = currentGrid s
  ∧ nextGrid (getGridState s).2 = nextGrid s
  ∧ heap (getGridState s).2 !! (getGridState s).1
    = Some (deref s (currentGrid s)).
Proof.
  intros (Hw & Hh & Hne & Hcur & Hnxt & Hlc & Hln).
  unfold getGridState, alloc. simpl.
  pose proof (is_fresh (dom (heap s))) as Hfresh.
  remember (fresh (dom (heap s))) as l eqn:Hl.
  assert (l ≠ currentGrid s) as Hlc' by (intros ->; done).
  assert (l ≠ nextGrid s) as Hln' by (intros ->; done).
  split; [done|]. split; [done|]. split; [|by rewrite lookup_insert_eq].
  unfold wf, deref, cells in *. simpl.
  rewrite !lookup_total_insert_ne by done.
  repeat split; try done; apply elem_of_dom;
    rewrite lookup_insert_ne by done; by apply elem_of_dom.
Qed.

(** Every state an engine built with non-negative dimensions can reach is
    well formed. *)
Lemma wf_reachable w h σ s ms :
  0 <= w → 0 <= h → new_GameOfLife w h σ = Some s → wf (mutate_all ms s).
Proof.
  intros Hw Hh Hnew. destruct (wf_new w h σ s Hw Hh Hnew) as [Hwf _].
  by destruct (mutate_all_frame ms s Hwf).
Qed.

End Frame.

(** C7.  [getGridState] returns an independent copy of the current field:
    the array returned holds the current field cell for cell, it is an array
    of its own (neither buffer of the engine), and no sequence of later
    mutations of the engine ([step], [setCell], [toggleCell], [clear],
    [randomize], [loadPattern]) changes it. *)
Theorem snapshot_is_independent_copy (s : GameOfLife) :
  wf s →
  let snap := (getGridState s).1 in
  let s1 := (getGridState s).2 in
  heap s1 !! snap = Some (deref s (currentGrid s))
  ∧ deref s1 (currentGrid s1) = deref s (currentGrid s)
  ∧ snap ≠ currentGrid s1 ∧ snap ≠ nextGrid s1
  ∧ ∀ ms, heap (mutate_all ms s1) !! snap = Some (deref s (currentGrid s)).
Proof.
  intros Hwf snap s1.
  destruct (getGridState_fresh s Hwf) as (Hsc & Hsn & Hwf1 & Hc1 & Hn1 & Hsnap).
  fold snap s1 in Hsc, Hsn, Hwf1, Hc1, Hn1, Hsnap.
  split; [done|]. split; [|split; [|split]].
  - unfold deref. rewrite Hc1. unfold s1, getGridState, alloc. simpl.
    by rewrite lookup_total_insert_ne.
  - by rewrite Hc1.
  - by rewrite Hn1.
  - intros ms. destruct (mutate_all_frame ms s1 Hwf1) as [_ [_ Hother]].
    rewrite Hother; [done | by rewrite Hc1 | by rewrite Hn1].
Qed.

Lemma snapshot_is_independent_copy_witness :
  wf sample_blinker
  ∧ let snap := (getGridState sample_blinker).1 in
    let s1 := (getGridState sample_blinker).2 in
    heap s1 !! snap = Some (deref sample_blinker (currentGrid sample_blinker))
    ∧ deref s1 (currentGrid s1) = deref sample_blinker (currentGrid sample_blinker)
    ∧ snap ≠ currentGrid s1 ∧ snap ≠ nextGrid s1
    ∧ ∀ ms, heap (mutate_all ms s1) !! snap
            = Some (deref sample_blinker (currentGrid sample_blinker)).
Proof.
  assert (wf sample_blinker) as Hwf
    by (apply (bool_decide_unpack _); vm_compute; exact I).
  split; [exact Hwf | exact (snapshot_is_independent_copy sample_blinker Hwf)].
Defined.

(** ** The canvas mapper *)

Section Mapper.
Import CanvasRenderer.
Implicit Types (win : Window) (game : GameOfLife) (r : t) (rect : DOMRect).

Lemma calculateCellSize_cases win game r :
  let c := fittingCellSize win game r in
  (c < 4 ∧ cellSize (calculateCellSize win game r) = 4
   ∧ showGrid (calculateCellSize win game r) = false)
  ∨ (4 <= c ∧ cellSize (calculateCellSize win game r) = c
     ∧ showGrid (calculateCellSize win game r) = (c >=? 6)).
Proof.
  intros c. unfold calculateCellSize. fold c.
  destruct (Z.ltb_spec c 4); [left | right]; simpl; done.
Qed.

(** The cell size is never 0, so the divisions of [canvasToGrid] are
    divisions by a positive number. *)
Lemma calculateCellSize_positive win game r :
  1 <= cellSize (calculateCellSize win game r).
Proof.
  destruct (calculateCellSize_cases win game r) as [(_ & -> & _)|(? & -> & _)]; lia.
Qed.

Lemma updateSettings_positive c b r :
  1 <= cellSize r → 1 <= cellSize (updateSettings c b r).
Proof. intros Hr. unfold updateSettings. destruct c, b; simpl; lia. Qed.

(** After [setupHighDPI] the layout is computed from the viewport size. *)
Lemma setupHighDPI_available win game r :
  fittingCellSize win game
    (mkRenderer (cellSize r) (showGrid r) 0 0
                (Some (innerWidth win)) (Some (innerHeight win)))
  = Z.min (Z.min (innerWidth win / width game) (innerHeight win / height game)) 20.
Proof.
  unfold fittingCellSize, availableWidth, availableHeight, js_or. simpl.
  destruct (Z.eqb_spec (innerWidth win) 0), (Z.eqb_spec (innerHeight win) 0);
    done.
Qed.

End Mapper.

(** C8.  Whatever pixel is given, negative and beyond the surface included,
    [canvasToGrid] answers with a cell of the grid: the column lies in
    [0, width - 1] and the row in [0, height - 1], for a grid of width and
    height at least 1. *)
Theorem canvasToGrid_in_grid
  (rect : CanvasRenderer.DOMRect) (canvasX canvasY : Z)
  (game : GameOfLife) (r : CanvasRenderer.t) :
  1 <= width game → 1 <= height game →
  0 <= (CanvasRenderer.canvasToGrid rect canvasX canvasY game r).1 <= width game - 1
  ∧ 0 <= (CanvasRenderer.canvasToGrid rect canvasX canvasY game r).2 <= height game - 1.
Proof. intros Hw Hh. unfold CanvasRenderer.canvasToGrid. simpl. lia. Qed.

Lemma canvasToGrid_in_grid_witness :
  (1 <= width sample_empty ∧ 1 <= height sample_empty)
  ∧ 0 <= (CanvasRenderer.canvasToGrid (CanvasRenderer.mkRect 0 0) (-5) 10000
            sample_empty sample_renderer).1 <= width sample_empty - 1
  ∧ 0 <= (CanvasRenderer.canvasToGrid (CanvasRenderer.mkRect 0 0) (-5) 10000
            sample_empty sample_renderer).2 <= height sample_empty - 1.
Proof.
  assert (1 <= width sample_empty) as Hw by (vm_compute; discriminate).
  assert (1 <= height sample_empty) as Hh by (vm_compute; discriminate).
  split; [split; [exact Hw | exact Hh]|].
  exact (canvasToGrid_in_grid (CanvasRenderer.mkRect 0 0) (-5) 10000
           sample_empty sample_renderer Hw Hh).
Defined.

(** C9.  For a grid of width and height at least 1 and any available
    surface size, [calculateCellSize] leaves a cell size between 4 and 20;
    when that size is below 6 the grid lines are off; and when the size that
    fits, min(floor(surfaceWidth / gridWidth), floor(surfaceHeight /
    gridHeight), 20), is at least 4, the grid lines are on iff the cell size
    is at least 6. *)
Theorem calculateCellSize_layout
  (win : CanvasRenderer.Window) (game : GameOfLife) (r : CanvasRenderer.t) :
  1 <= width game → 1 <= height game →
  let surfaceWidth := CanvasRenderer.availableWidth win r in
  let surfaceHeight := CanvasRenderer.availableHeight win r in
  let r' := CanvasRenderer.calculateCellSize win game r in
  4 <= CanvasRenderer.cellSize r' <= 20
  ∧ (CanvasRenderer.cellSize r' < 6 → CanvasRenderer.showGrid r' = false)
  ∧ (4 <= Z.min (Z.min (surfaceWidth / width game) (surfaceHeight / height game)) 20 →
     (CanvasRenderer.showGrid r' = true ↔ 6 <= CanvasRenderer.cellSize r')).
Proof.
  intros Hw Hh surfaceWidth surfaceHeight r'.
  destruct (calculateCellSize_cases win game r) as [(Hc & Hs & Hg)|(Hc & Hs & Hg)];
    fold r' in Hs, Hg; unfold CanvasRenderer.fittingCellSize in *;
    fold surfaceWidth surfaceHeight in Hc, Hs, Hg; rewrite Hs, Hg.
  - split; [lia|]. split; [done|]. lia.
  - rewrite Z.geb_leb. split; [lia|]. split.
    + intros Hlt. apply Z.leb_gt. lia.
    + intros _. apply Z.leb_le.
Qed.

Lemma calculateCellSize_layout_witness :
  (1 <= width sample_empty ∧ 1 <= height sample_empty)
  ∧ let win := CanvasRenderer.mkWindow 800 600 in
    let r := CanvasRenderer.mkRenderer 10 true 0 0 None None in
    let surfaceWidth := CanvasRenderer.availableWidth win r in
    let surfaceHeight := CanvasRenderer.availableHeight win r in
    let r' := CanvasRenderer.calculateCellSize win sample_empty r in
    4 <= CanvasRenderer.cellSize r' <= 20
    ∧ (CanvasRenderer.cellSize r' < 6 → CanvasRenderer.showGrid r' = false)
    ∧ (4 <= Z.min (Z.min (surfaceWidth / width sample_empty)
                         (surfaceHeight / height sample_empty)) 20 →
       (CanvasRenderer.showGrid r' = true ↔ 6 <= CanvasRenderer.cellSize r')).
Proof.
  assert (1 <= width sample_empty) as Hw by (vm_compute; discriminate).
  assert (1 <= height sample_empty) as Hh by (vm_compute; discriminate).
  split; [split; [exact Hw | exact Hh]|].
  exact (calculateCellSize_layout (CanvasRenderer.mkWindow 800 600) sample_empty
           (CanvasRenderer.mkRenderer 10 true 0 0 None None) Hw Hh).
Defined.

(** * Further properties of the engine *)

(** ** Writing and toggling a cell *)

Section Cells.
Implicit Types (s : GameOfLife) (x y : Z) (a : list bool).

Lemma set_lt a (i : nat) (v : bool) :
  (i < length a)%nat → JsArray.set a i v = <[i:=v]> a.
Proof. intros Hi. unfold JsArray.set. by rewrite decide_True. Qed.

(** [toggleCell] is [setCell] with the negation of what [getCell] reads. *)
Lemma toggleCell_setCell s x y :
  toggleCell x y s = setCell x y (negb (getCell x y s)) s.
Proof.
  unfold toggleCell, setCell, getCell. rewrite guard_outside, guard_inside.
  by case_bool_decide.
Qed.

Lemma toggleCell_dims s x y :
  width (toggleCell x y s) = width s
  ∧ height (toggleCell x y s) = height s
  ∧ generation (toggleCell x y s) = generation s.
Proof. rewrite toggleCell_setCell. apply setCell_dims. Qed.

Lemma setCell_refs s x y alive :
  currentGrid (setCell x y alive s) = currentGrid s
  ∧ nextGrid (setCell x y alive s) = nextGrid s.
Proof. unfold setCell. by destruct (_ && _). Qed.

Lemma deref_setCell_next s x y alive :
  wf s →
  deref (setCell x y alive s) (nextGrid (setCell x y alive s))
  = deref s (nextGrid s).
Proof.
  intros (_ & _ & Hne & _). unfold setCell. destruct (_ && _); [|done].
  rewrite write_current. by apply (deref_with_current_ne _ s), not_eq_sym.
Qed.

(** Writing back what a cell holds changes nothing. *)
Lemma setCell_same s x y :
  wf s → setCell x y (getCell x y s) s = s.
Proof.
  intros Hwf. pose proof Hwf as (_ & _ & _ & Hcur & _ & Hlc & _).
  destruct (decide (inside s x y)) as [Hin|Hout]; [|by apply setCell_outside].
  rewrite setCell_inside, getCell_inside, write_current by done.
  pose proof (index_lt s x y Hin) as Hidx. rewrite <- Hlc in Hidx.
  destruct (lookup_lt_is_Some_2 _ _ Hidx) as [v Hv].
  unfold JsArray.set, JsArray.get. rewrite decide_True, Hv by done. simpl.
  rewrite list_insert_id by done.
  unfold with_current, with_heap. rewrite insert_deref by done. by destruct s.
Qed.

(** A second write to a cell overrides the first. *)
Lemma setCell_setCell s x y v v' :
  wf s → setCell x y v' (setCell x y v s) = setCell x y v' s.
Proof.
  intros Hwf. pose proof Hwf as (_ & _ & _ & _ & _ & Hlc & _).
  destruct (decide (inside s x y)) as [Hin|Hout].
  2:{ rewrite (setCell_outside s x y v) by done. done. }
  pose proof (index_lt s x y Hin) as Hidx. rewrite <- Hlc in Hidx.
  rewrite (setCell_inside s x y v), (setCell_inside s x y v') by done.
  rewrite (setCell_inside (write _ _ v s) x y v') by exact Hin.
  unfold write, with_heap, deref, getIndex in *. simpl.
  rewrite lookup_total_insert_eq, insert_insert_eq. do 2 f_equal.
  rewrite (set_lt (JsArray.set _ _ _)) by (by rewrite length_set_lt).
  rewrite !set_lt by done. apply list_insert_insert_eq.
Qed.

Lemma toggleCell_twice s x y :
  wf s → toggleCell x y (toggleCell x y s) = s.
Proof.
  intros Hwf. destruct (decide (inside s x y)) as [Hin|Hout].
  2:{ rewrite (toggleCell_outside s x y) by done. by apply toggleCell_outside. }
  rewrite (toggleCell_setCell (toggleCell x y s)).
  rewrite (toggleCell_setCell s) at 2.
  rewrite setCell_setCell by done.
  replace (negb (getCell x y (toggleCell x y s))) with (getCell x y s).
  - by apply setCell_same.
  - rewrite toggleCell_setCell, getCell_setCell by done.
    rewrite decide_True by done. by rewrite negb_involutive.
Qed.

End Cells.

(** X1.  Inside the grid, [setCell] followed by [getCell] at the same
    coordinates reads the value written, every other coordinate reads as
    before, and neither the generation counter nor the next buffer
    changes. *)
Theorem setCell_then_getCell (s : GameOfLife) (x y : Z) (alive : bool) :
  wf s → 0 <= x < width s → 0 <= y < height s →
  getCell x y (setCell x y alive s) = alive
  ∧ (∀ x' y', (x', y') ≠ (x, y) →
       getCell x' y' (setCell x y alive s) = getCell x' y' s)
  ∧ getGeneration (setCell x y alive s) = getGeneration s
  ∧ deref (setCell x y alive s) (nextGrid (setCell x y alive s))
    = deref s (nextGrid s).
Proof.
  intros Hwf Hx Hy. assert (inside s x y) as Hin by done.
  split; [|split; [|split]].
  - rewrite getCell_setCell by done. by rewrite decide_True.
  - intros x' y' Hne. rewrite getCell_setCell by done.
    rewrite decide_False; [done|]. intros (_ & -> & ->). done.
  - unfold getGeneration. by destruct (setCell_dims s x y alive) as (_ & _ & ->).
  - by apply deref_setCell_next.
Qed.

Lemma setCell_then_getCell_witness :
  (wf sample_blinker ∧ 0 <= 6 < width sample_blinker
   ∧ 0 <= 4 < height sample_blinker)
  ∧ getCell 6 4 (setCell 6 4 true sample_blinker) = true
  ∧ (∀ x' y', (x', y') ≠ (6, 4) →
       getCell x' y' (setCell 6 4 true sample_blinker)
       = getCell x' y' sample_blinker)
  ∧ getGeneration (setCell 6 4 true sample_blinker)
    = getGeneration sample_blinker
  ∧ deref (setCell 6 4 true sample_blinker)
          (nextGrid (setCell 6 4 true sample_blinker))
    = deref sample_blinker (nextGrid sample_blinker).
Proof.
  assert (wf sample_blinker) as Hwf
    by (apply (bool_decide_unpack _); vm_compute; exact I).
  assert (0 <= 6 < width sample_blinker) as Hx by (vm_compute; split; discriminate || reflexivity).
  assert (0 <= 4 < height sample_blinker) as Hy by (vm_compute; split; discriminate || reflexivity).
  split; [split; [exact Hwf | split; [exact Hx | exact Hy]]|].
  exact (setCell_then_getCell sample_blinker 6 4 true Hwf Hx Hy).
Defined.

(** X2.  [toggleCell] flips the cell it is given and no other, and toggling
    the same coordinates twice gives back the very same engine state. *)
Theorem toggleCell_involution (s : GameOfLife) (x y : Z) :
  wf s →
  (∀ x' y', getCell x' y' (toggleCell x y s)
            = if decide (inside s x y ∧ x' = x ∧ y' = y)
              then negb (getCell x y s) else getCell x' y' s)
  ∧ toggleCell x y (toggleCell x y s) = s.
Proof.
  intros Hwf. split.
  - intros x' y'. rewrite toggleCell_setCell. by apply getCell_setCell.
  - by apply toggleCell_twice.
Qed.

Lemma toggleCell_involution_witness :
  wf sample_blinker
  ∧ (∀ x' y', getCell x' y' (toggleCell 2 1 sample_blinker)
              = if decide (inside sample_blinker 2 1 ∧ x' = 2 ∧ y' = 1)
                then negb (getCell 2 1 sample_blinker)
                else getCell x' y' sample_blinker)
  ∧ toggleCell 2 1 (toggleCell 2 1 sample_blinker) = sample_blinker.
Proof.
  assert (wf sample_blinker) as Hwf
    by (apply (bool_decide_unpack _); vm_compute; exact I).
  split; [exact Hwf | exact (toggleCell_involution sample_blinker 2 1 Hwf)].
Defined.

(** ** Counting *)

Section Counting.
Implicit Types (s : GameOfLife) (x y : Z) (a : list bool).

Lemma population_bounds a : 0 <= population a <= Z.of_nat (length a).
Proof.
  induction a as [|v a IH]; [done|].
  rewrite population_cons. simpl length. destruct v; lia.
Qed.

Lemma population_set a (i : nat) (v b : bool) :
  a !! i = Some b →
  population (JsArray.set a i v) = population a - Z.b2z b + Z.b2z v.
Proof.
  intros Hi. rewrite set_lt by (by eapply lookup_lt_Some).
  revert i Hi. induction a as [|c a IH]; intros [|i] Hi; simpl in *; try done.
  - injection Hi as ->. rewrite !population_cons. destruct b, v; simpl; lia.
  - rewrite !population_cons, IH by done. lia.
Qed.

Lemma population_zero a (i : nat) : population a = 0 → JsArray.get a i = false.
Proof.
  revert i. induction a as [|v a IH]; intros i Hpop; [done|].
  rewrite population_cons in Hpop. pose proof (population_bounds a).
  destruct v; [lia|]. destruct i as [|i]; [done|]. apply IH. lia.
Qed.

Lemma population_all_dead a :
  (∀ i : nat, (i < length a)%nat → JsArray.get a i = false) → population a = 0.
Proof.
  induction a as [|v a IH]; intros Hdead; [done|].
  rewrite population_cons, IH.
  - specialize (Hdead 0%nat ltac:(simpl; lia)). unfold JsArray.get in Hdead.
    simpl in Hdead. by subst.
  - intros i Hi. apply (Hdead (S i)). simpl. lia.
Qed.

Lemma population_snoc a (v : bool) :
  population (a ++ [v]) = population a + Z.b2z v.
Proof.
  induction a as [|c a IH]; simpl.
  - rewrite population_cons. destruct v; done.
  - rewrite !population_cons, IH. lia.
Qed.

Lemma getCell_lookup s x y :
  wf s → inside s x y →
  deref s (currentGrid s) !! Z.to_nat (getIndex s x y) = Some (getCell x y s).
Proof.
  intros (_ & _ & _ & _ & _ & Hlc & _) Hin.
  pose proof (index_lt s x y Hin) as Hidx. rewrite <- Hlc in Hidx.
  destruct (lookup_lt_is_Some_2 _ _ Hidx) as [v Hv].
  rewrite getCell_inside by done. unfold JsArray.get. by rewrite Hv.
Qed.

Lemma getPopulation_setCell s x y alive :
  wf s → inside s x y →
  getPopulation (setCell x y alive s)
  = getPopulation s - Z.b2z (getCell x y s) + Z.b2z alive.
Proof.
  intros Hwf Hin. rewrite setCell_inside, write_current by done.
  unfold getPopulation.
  fold (population (deref s (currentGrid s))).
  replace (deref (with_current _ s) (currentGrid (with_current _ s)))
    with (JsArray.set (deref s (currentGrid s)) (Z.to_nat (getIndex s x y)) alive)
    by (symmetry; exact (deref_with_current_current _ s)).
  fold (population
          (JsArray.set (deref s (currentGrid s)) (Z.to_nat (getIndex s x y)) alive)).
  apply population_set. by apply getCell_lookup.
Qed.

(** The cells outside the grid add nothing to a neighbour count. *)
Lemma countNeighbors_getCell s x y :
  countNeighbors x y s = neighborSum (λ x y, getCell x y s) x y.
Proof. by apply countNeighbors_sum. Qed.

End Counting.

(** X3.  The population lies between 0 and the number of cells of the
    grid. *)
Theorem population_within_grid (s : GameOfLife) :
  wf s → 0 <= getPopulation s <= width s * height s.
Proof.
  intros (Hw & Hh & _ & _ & _ & Hlc & _).
  pose proof (population_bounds (deref s (currentGrid s))) as Hb.
  rewrite Hlc in Hb. unfold cells in Hb. unfold getPopulation.
  fold (population (deref s (currentGrid s))). nia.
Qed.

Lemma population_within_grid_witness :
  wf sample_blinker
  ∧ 0 <= getPopulation sample_blinker
    <= width sample_blinker * height sample_blinker.
Proof.
  assert (wf sample_blinker) as Hwf
    by (apply (bool_decide_unpack _); vm_compute; exact I).
  split; [exact Hwf | exact (population_within_grid sample_blinker Hwf)].
Defined.

(** X4.  Toggling a cell of the grid changes the population by exactly one:
    one less if the cell was alive, one more if it was dead. *)
Theorem toggleCell_population (s : GameOfLife) (x y : Z) :
  wf s → 0 <= x < width s → 0 <= y < height s →
  getPopulation (toggleCell x y s)
  = getPopulation s + (if getCell x y s then -1 else 1).
Proof.
  intros Hwf Hx Hy. rewrite toggleCell_setCell.
  rewrite getPopulation_setCell by done. destruct (getCell x y s); simpl; lia.
Qed.

Lemma toggleCell_population_witness :
  (wf sample_blinker ∧ 0 <= 2 < width sample_blinker
   ∧ 0 <= 1 < height sample_blinker)
  ∧ getPopulation (toggleCell 2 1 sample_blinker)
    = getPopulation sample_blinker
      + (if getCell 2 1 sample_blinker then -1 else 1).
Proof.
  assert (wf sample_blinker) as Hwf
    by (apply (bool_decide_unpack _); vm_compute; exact I).
  assert (0 <= 2 < width sample_blinker) as Hx by (vm_compute; split; discriminate || reflexivity).
  assert (0 <= 1 < height sample_blinker) as Hy by (vm_compute; split; discriminate || reflexivity).
  split; [split; [exact Hwf | split; [exact Hx | exact Hy]]|].
  exact (toggleCell_population sample_blinker 2 1 Hwf Hx Hy).
Defined.

(** X5.  [countNeighbors] answers with a number from 0 to 8 at every
    coordinate of every engine; in the first and in the last column, and in
    the first and in the last row, it is at most 5, and in a corner of the
    grid at most 3, the neighbours beyond the border counting as dead. *)
Theorem countNeighbors_range (s : GameOfLife) (x y : Z) :
  0 <= countNeighbors x y s <= 8
  ∧ (x = 0 ∨ x = width s - 1 → countNeighbors x y s <= 5)
  ∧ (y = 0 ∨ y = height s - 1 → countNeighbors x y s <= 5)
  ∧ ((x = 0 ∨ x = width s - 1) ∧ (y = 0 ∨ y = height s - 1) →
     countNeighbors x y s <= 3).
Proof.
  rewrite countNeighbors_getCell. unfold neighborSum.
  assert (∀ b : bool, 0 <= Z.b2z b <= 1) as Hb by (intros []; simpl; lia).
  pose proof (Hb (getCell (x - 1) (y - 1) s)).
  pose proof (Hb (getCell x (y - 1) s)).
  pose proof (Hb (getCell (x + 1) (y - 1) s)).
  pose proof (Hb (getCell (x - 1) y s)).
  pose proof (Hb (getCell (x + 1) y s)).
  pose proof (Hb (getCell (x - 1) (y + 1) s)).
  pose proof (Hb (getCell x (y + 1) s)).
  pose proof (Hb (getCell (x + 1) (y + 1) s)).
  assert (∀ y', x = 0 → getCell (x - 1) y' s = false) as Hleft
    by (intros; apply getCell_outside; unfold inside; lia).
  assert (∀ y', x = width s - 1 → getCell (x + 1) y' s = false) as Hright
    by (intros; apply getCell_outside; unfold inside; lia).
  assert (∀ x', y = 0 → getCell x' (y - 1) s = false) as Htop
    by (intros; apply getCell_outside; unfold inside; lia).
  assert (∀ x', y = height s - 1 → getCell x' (y + 1) s = false) as Hbottom
    by (intros; apply getCell_outside; unfold inside; lia).
  split; [lia|]. split; [|split].
  - intros [Hx|Hx]; [rewrite !Hleft by done | rewrite !Hright by done];
      simpl; lia.
  - intros [Hy|Hy]; [rewrite !Htop by done | rewrite !Hbottom by done];
      simpl; lia.
  - intros [[Hx|Hx] [Hy|Hy]];
      [rewrite !Hleft, !Htop by done | rewrite !Hleft, !Hbottom by done
      | rewrite !Hright, !Htop by done | rewrite !Hright, !Hbottom by done];
      simpl; lia.
Qed.

(** ** Generations *)

Section Generations.
Implicit Types (s : GameOfLife) (x y : Z) (f g : Z → Z → bool).

Lemma step_dims s :
  wf s →
  width (step s) = width s ∧ height (step s) = height s
  ∧ generation (step s) = generation s + 1.
Proof. intros Hwf. by rewrite step_spec. Qed.

(** A well-formed engine whose cells read as [f] holds the field of [f]. *)
Lemma deref_field s f :
  wf s → (∀ x y, inside s x y → getCell x y s = f x y) →
  deref s (currentGrid s) = field (width s) (height s) f.
Proof.
  intros (Hw & _ & _ & _ & _ & Hlc & _) Hf. apply array_ext.
  - by rewrite length_field.
  - intros i Hi. rewrite Hlc in Hi.
    destruct (slot_inside s i Hw Hi) as [Hin Hidx].
    rewrite get_field by done. rewrite <- Hf, getCell_inside by done.
    by rewrite Hidx.
Qed.

(** One generation of a field that is known everywhere. *)
Lemma step_known s f g :
  wf s → (∀ x y, getCell x y s = f x y) →
  (∀ x y, conway f x y = g x y) →
  (∀ x y, g x y = true → inside s x y) →
  ∀ x y, getCell x y (step s) = g x y.
Proof.
  intros Hwf Hf Hfg Hg. destruct (step_dims s Hwf) as (Hw & Hh & _).
  apply getCell_field.
  - rewrite deref_step, Hw, Hh by done. apply field_ext. intros x y.
    by rewrite (successor_conway s f).
  - intros x y Hxy. unfold inside. rewrite Hw, Hh. by apply Hg.
Qed.

Lemma conway_dead x y : conway (λ _ _, false) x y = false.
Proof. reflexivity. Qed.

Lemma getPopulation_dead s :
  wf s → (∀ x y, getCell x y s = false) → getPopulation s = 0.
Proof.
  intros Hwf Hdead. pose proof Hwf as (Hw & _ & _ & _ & _ & Hlc & _).
  apply population_all_dead. intros i Hi. rewrite Hlc in Hi.
  destruct (slot_inside s i Hw Hi) as [Hin Hidx].
  rewrite <- Hidx, <- getCell_inside by done. apply Hdead.
Qed.

Lemma getCell_dead s x y : wf s → getPopulation s = 0 → getCell x y s = false.
Proof.
  intros Hwf Hpop. destruct (decide (inside s x y)) as [Hin|Hout].
  - rewrite getCell_inside by done. by apply population_zero.
  - by apply getCell_outside.
Qed.

End Generations.

(** X6.  A grid without live cells stays without live cells: after [step]
    every cell is dead, the population is 0, and the generation counter has
    grown by 1. *)
Theorem step_dead_grid (s : GameOfLife) :
  wf s → getPopulation s = 0 →
  (∀ x y, getCell x y (step s) = false)
  ∧ getPopulation (step s) = 0
  ∧ getGeneration (step s) = getGeneration s + 1.
Proof.
  intros Hwf Hpop.
  assert (∀ x y, getCell x y (step s) = false) as Hdead.
  { apply (step_known s (λ _ _, false) (λ _ _, false)); try done.
    intros x y. by apply getCell_dead. }
  split; [done|]. split.
  - apply getPopulation_dead; [by apply wf_step | done].
  - unfold getGeneration. by destruct (step_dims s Hwf) as (_ & _ & ->).
Qed.

Lemma step_dead_grid_witness :
  (wf sample_empty ∧ getPopulation sample_empty = 0)
  ∧ (∀ x y, getCell x y (step sample_empty) = false)
  ∧ getPopulation (step sample_empty) = 0
  ∧ getGeneration (step sample_empty) = getGeneration sample_empty + 1.
Proof.
  assert (wf sample_empty) as Hwf
    by (apply (bool_decide_unpack _); vm_compute; exact I).
  assert (getPopulation sample_empty = 0) as Hpop by (vm_compute; reflexivity).
  split; [split; [exact Hwf | exact Hpop]|].
  exact (step_dead_grid sample_empty Hwf Hpop).
Defined.

(** X7.  [step] exchanges the two buffers instead of copying: the array that
    was the next buffer becomes the current one, the array that was current
    becomes the next buffer with its cells untouched, so the generation
    before the step is still in the store, and no other array changes. *)
Theorem step_exchanges_buffers (s : GameOfLife) :
  wf s →
  currentGrid (step s) = nextGrid s
  ∧ nextGrid (step s) = currentGrid s
  ∧ deref (step s) (nextGrid (step s)) = deref s (currentGrid s)
  ∧ (∀ l, l ≠ nextGrid s → heap (step s) !! l = heap s !! l)
  ∧ width (step s) = width s ∧ height (step s) = height s.
Proof.
  intros Hwf. pose proof Hwf as (_ & _ & Hne & _).
  rewrite step_spec by done. unfold deref. simpl.
  split; [done|]. split; [done|]. split; [|split; [|done]].
  - by rewrite lookup_total_insert_ne by (by apply not_eq_sym).
  - intros l Hl. by rewrite lookup_insert_ne by (by apply not_eq_sym).
Qed.

Lemma step_exchanges_buffers_witness :
  wf sample_blinker
  ∧ currentGrid (step sample_blinker) = nextGrid sample_blinker
  ∧ nextGrid (step sample_blinker) = currentGrid sample_blinker
  ∧ deref (step sample_blinker) (nextGrid (step sample_blinker))
    = deref sample_blinker (currentGrid sample_blinker)
  ∧ (∀ l, l ≠ nextGrid sample_blinker →
          heap (step sample_blinker) !! l = heap sample_blinker !! l)
  ∧ width (step sample_blinker) = width sample_blinker
  ∧ height (step sample_blinker) = height sample_blinker.
Proof.
  assert (wf sample_blinker) as Hwf
    by (apply (bool_decide_unpack _); vm_compute; exact I).
  split; [exact Hwf | exact (step_exchanges_buffers sample_blinker Hwf)].
Defined.

(** X8.  The constructor, given dimensions that are not negative and whose
    product is a valid array length, succeeds: the engine it builds has the
    dimensions asked for, generation 0, no live cell, two distinct buffers
    of width * height cells, and the arrays that were in the store before
    are still there unchanged. *)
Theorem constructor_builds_dead_grid
  (w h : Z) (σ : gmap loc (list bool)) :
  0 <= w → 0 <= h → w * h <= JsArray.max_length →
  ∃ s, new_GameOfLife w h σ = Some s
       ∧ wf s ∧ width s = w ∧ height s = h
       ∧ getGeneration s = 0 ∧ getPopulation s = 0
       ∧ (∀ x y, getCell x y s = false)
       ∧ (∀ l a, σ !! l = Some a → heap s !! l = Some a).
Proof.
  intros Hw Hh Hmax.
  destruct (new_GameOfLife w h σ) as [s|] eqn:Hnew.
  2:{ unfold new_GameOfLife in Hnew. rewrite decide_True in Hnew by nia.
      done. }
  exists s. split; [done|].
  destruct (wf_new w h σ s Hw Hh Hnew) as (Hwf & Hws & Hhs & Hg & Hcur).
  assert (∀ x y, getCell x y s = false) as Hdead.
  { intros x y. destruct (decide (inside s x y)) as [Hin|Hout];
      [|by apply getCell_outside].
    rewrite getCell_inside, Hcur by done. unfold JsArray.get.
    destruct (replicate _ false !! _) as [c|] eqn:E; [|done].
    by apply lookup_replicate in E as [-> _]. }
  split; [done|]. split; [done|]. split; [done|]. split; [done|].
  split; [by apply getPopulation_dead|]. split; [done|].
  intros l a Hl.
  unfold new_GameOfLife, alloc in Hnew.
    rewrite decide_True in Hnew by nia. injection Hnew as <-. simpl.
    remember (fresh (dom σ)) as c eqn:Hc.
  assert (c ≠ l) as Hlc.
  { intros ->. apply (is_fresh (dom σ)). rewrite <- Hc. by eapply elem_of_dom_2. }
  remember (<[c := JsArray.make (Z.to_nat (w * h)) false]> σ) as σ1 eqn:Hσ1.
  assert (σ1 !! l = Some a) as Hl1 by (by rewrite Hσ1, lookup_insert_ne).
  remember (fresh (dom σ1)) as n eqn:Hn.
  assert (n ≠ l) as Hln.
  { intros ->. apply (is_fresh (dom σ1)). rewrite <- Hn. by eapply elem_of_dom_2. }
  by rewrite lookup_insert_ne.
Qed.

Lemma constructor_builds_dead_grid_witness :
  (0 <= 7 ∧ 0 <= 5 ∧ 7 * 5 <= JsArray.max_length)
  ∧ ∃ s, new_GameOfLife 7 5 ∅ = Some s
         ∧ wf s ∧ width s = 7 ∧ height s = 5
         ∧ getGeneration s = 0 ∧ getPopulation s = 0
         ∧ (∀ x y, getCell x y s = false)
         ∧ (∀ l a, (∅ : gmap loc (list bool)) !! l = Some a →
                   heap s !! l = Some a).
Proof.
  assert (0 <= 7) as Hw by lia. assert (0 <= 5) as Hh by lia.
  assert (7 * 5 <= JsArray.max_length) as Hmax by (vm_compute; discriminate).
  split; [split; [exact Hw | split; [exact Hh | exact Hmax]]|].
  exact (constructor_builds_dead_grid 7 5 ∅ Hw Hh Hmax).
Defined.

(** X9.  The array [getGridState] returns is a copy in the other direction
    too: a write into any slot of it changes no cell, nor the population,
    nor the generation of the engine. *)
Theorem snapshot_write_leaves_engine (s : GameOfLife) (i : nat) (v : bool) :
  wf s →
  let snap := (getGridState s).1 in
  let s1 := write snap i v (getGridState s).2 in
  (∀ x y, getCell x y s1 = getCell x y s)
  ∧ getPopulation s1 = getPopulation s
  ∧ getGeneration s1 = getGeneration s
  ∧ deref s1 (nextGrid s1) = deref s (nextGrid s).
Proof.
  intros Hwf snap s1.
  destruct (getGridState_fresh s Hwf) as (Hsc & Hsn & _ & Hc1 & Hn1 & _).
  fold snap in Hsc, Hsn.
  assert (∀ l, l ≠ snap → deref s1 l = deref s l) as Hderef.
  { intros l Hl. unfold s1. rewrite deref_write_ne by done.
    unfold deref, getGridState, alloc. simpl.
    by rewrite lookup_total_insert_ne by done. }
  assert (deref s1 (currentGrid s1) = deref s (currentGrid s)) as Hcur
    by (apply (Hderef (currentGrid s)); by apply not_eq_sym).
  split; [|split; [|split]].
  - intros x y. by apply getCell_current.
  - unfold getPopulation. by rewrite Hcur.
  - done.
  - apply (Hderef (nextGrid s)). by apply not_eq_sym.
Qed.

Lemma snapshot_write_leaves_engine_witness :
  wf sample_blinker
  ∧ let snap := (getGridState sample_blinker).1 in
    let s1 := write snap 8 false (getGridState sample_blinker).2 in
    (∀ x y, getCell x y s1 = getCell x y sample_blinker)
    ∧ getPopulation s1 = getPopulation sample_blinker
    ∧ getGeneration s1 = getGeneration sample_blinker
    ∧ deref s1 (nextGrid s1) = deref sample_blinker (nextGrid sample_blinker).
Proof.
  assert (wf sample_blinker) as Hwf
    by (apply (bool_decide_unpack _); vm_compute; exact I).
  split; [exact Hwf|].
  exact (snapshot_write_leaves_engine sample_blinker 8 false Hwf).
Defined.

(** ** Filling the grid *)

Section Filling.
Implicit Types (s t : GameOfLife) (x y : Z) (a b : list bool).

Lemma write_with_current b s (i : nat) (v : bool) :
  write (currentGrid s) i v (with_current b s)
  = with_current (JsArray.set b i v) s.
Proof.
  unfold write. rewrite deref_with_current_current.
  unfold with_current, with_heap. simpl. by rewrite insert_insert_eq.
Qed.

(** The loop of [randomize] leaves, slot for slot, the outcome of the
    draws. *)
Lemma randomize_spec coin s :
  wf s →
  ∃ b, randomize coin s = with_generation 0 (with_current b s)
       ∧ length b = cells s
       ∧ ∀ i : nat, (i < cells s)%nat → JsArray.get b i = coin (Z.of_nat i).
Proof.
  intros Hwf. pose proof Hwf as (_ & _ & _ & Hcur & _ & Hlc & _).
  pose (P := λ (i : Z) t,
    ∃ b, t = with_current b s ∧ length b = cells s
         ∧ ∀ j : nat, Z.of_nat j < i → JsArray.get b j = coin (Z.of_nat j)).
  assert (P (0 + Z.of_nat (length (deref s (currentGrid s))))
            (for_loop (length (deref s (currentGrid s))) 0
               (λ i s1, write (currentGrid s1) (Z.to_nat i) (coin i) s1) s))
    as (b & Hb & Hlen & Hget).
  { apply for_loop_ind.
    - exists (deref s (currentGrid s)). split; [|split; [done|intros; lia]].
      unfold with_current, with_heap. rewrite insert_deref by done.
      by destruct s.
    - intros i t Hi (b & -> & Hlen & Hget).
      change (currentGrid (with_current b s)) with (currentGrid s).
      rewrite write_with_current. eexists. split; [done|].
      assert (Z.to_nat i < length b)%nat as Hidx by lia.
      split; [by rewrite length_set_lt|].
      intros j Hj. destruct (decide (j = Z.to_nat i)) as [->|Hne].
      + rewrite get_set_eq by done. f_equal. lia.
      + rewrite get_set_ne by done. apply Hget. lia. }
  exists b. unfold randomize. rewrite Hb. split; [done|]. split; [done|].
  intros i Hi. apply Hget. lia.
Qed.

Lemma templateAt_true data (dx dy : Z) :
  templateAt data dx dy = true →
  0 <= dx ∧ 0 <= dy
  ∧ (Z.to_nat dy < length data)%nat
  ∧ (Z.to_nat dx < length (data !!! Z.to_nat dy))%nat.
Proof.
  unfold templateAt. rewrite !andb_true_iff, !Z.leb_le.
  intros [[Hx Hy] Hone]. split; [done|]. split; [done|].
  destruct (data !! Z.to_nat dy) as [row|] eqn:Hrow; [|done].
  destruct (row !! Z.to_nat dx) as [v|] eqn:Hcol; [|done].
  split; [by eapply lookup_lt_Some|].
  rewrite (list_lookup_total_correct _ _ _ Hrow). by eapply lookup_lt_Some.
Qed.

(** Inside the template, [templateAt] is the test of the inner loop. *)
Lemma templateAt_inside data (x y : Z) :
  0 <= y < Z.of_nat (length data) →
  0 <= x < Z.of_nat (length (data !!! Z.to_nat y)) →
  templateAt data x y = ((data !!! Z.to_nat y) !!! Z.to_nat x =? 1).
Proof.
  intros Hy Hx. unfold templateAt.
  rewrite (proj2 (Z.leb_le 0 x)), (proj2 (Z.leb_le 0 y)) by lia.
  rewrite (list_lookup_lookup_total_lt data) by lia.
  rewrite (list_lookup_lookup_total_lt (data !!! Z.to_nat y)) by lia. done.
Qed.

Lemma loadPattern_row s data startX startY y t :
  0 <= y < Z.of_nat (length data) →
  stamped s data startX startY (λ _ dy, dy < y) t →
  stamped s data startX startY (λ _ dy, dy < y + 1)
    (for_loop (length (data !!! Z.to_nat y)) 0
       (λ x s2, if (data !!! Z.to_nat y) !!! Z.to_nat x =? 1
                then setCell (startX + x) (startY + y) true s2 else s2) t).
Proof.
  intros Hy Ht.
  pose (Q := λ x t,
    stamped s data startX startY (λ dx dy, dy < y ∨ (dy = y ∧ dx < x)) t).
  assert (Q (0 + Z.of_nat (length (data !!! Z.to_nat y)))
            (for_loop (length (data !!! Z.to_nat y)) 0
               (λ x s2, if (data !!! Z.to_nat y) !!! Z.to_nat x =? 1
                        then setCell (startX + x) (startY + y) true s2
                        else s2) t))
    as (Hwf & Hw & Hh & Hg & Hcells).
  { apply for_loop_ind.
    - destruct Ht as (Hwf & Hw & Hh & Hg & Hcells).
      split; [done|]. split; [done|]. split; [done|]. split; [done|].
      intros x' y'. rewrite Hcells. split.
      + intros (Hin & Htrue & Hdone). split; [done|]. split; [done|]. by left.
      + intros (Hin & Htrue & [Hdone|[_ Hdone]]); [done|].
        apply templateAt_true in Htrue. lia.
    - intros x t' Hx (Hwf & Hw & Hh & Hg & Hcells).
      assert (templateAt data x y
              = ((data !!! Z.to_nat y) !!! Z.to_nat x =? 1)) as Htpl
        by (apply templateAt_inside; lia).
      destruct ((data !!! Z.to_nat y) !!! Z.to_nat x =? 1) eqn:Hone.
      + destruct (setCell_dims t' (startX + x) (startY + y) true)
          as (Hw' & Hh' & Hg').
        split; [by apply wf_setCell|]. split; [by rewrite Hw'|].
        split; [by rewrite Hh'|]. split; [by rewrite Hg'|].
        intros x' y'. rewrite getCell_setCell by done.
        unfold inside. rewrite Hw, Hh. case_decide as Hc.
        * destruct Hc as (Hin & -> & ->).
          replace (startX + x - startX) with x by lia.
          replace (startY + y - startY) with y by lia.
          split; [|done]. intros _. split; [done|]. split; [done|]. lia.
        * rewrite Hcells. unfold inside. split.
          -- intros (Hin & Htrue & Hdone). split; [done|]. split; [done|]. lia.
          -- intros (Hin & Htrue & Hdone). split; [done|]. split; [done|].
             destruct Hdone as [Hlt|[Hey Hlt]]; [by left|].
             destruct (decide (x' - startX = x)) as [Hex|Hnx]; [|right; lia].
             exfalso. apply Hc. split; [|lia].
             replace (startX + x) with x' by lia.
             replace (startY + y) with y' by lia. done.
      + split; [done|]. split; [done|]. split; [done|]. split; [done|].
        intros x' y'. rewrite Hcells. split.
        * intros (Hin & Htrue & Hdone). split; [done|]. split; [done|]. lia.
        * intros (Hin & Htrue & Hdone). split; [done|]. split; [done|].
          destruct Hdone as [Hlt|[Hey Hlt]]; [by left|].
          destruct (decide (x' - startX = x)) as [Hex|Hnx]; [|right; lia].
          rewrite Hex, Hey, Htpl in Htrue. done. }
  split; [done|]. split; [done|]. split; [done|]. split; [done|].
  intros x' y'. rewrite Hcells. split.
  - intros (Hin & Htrue & Hdone). split; [done|]. split; [done|]. lia.
  - intros (Hin & Htrue & Hdone). split; [done|]. split; [done|].
    destruct (decide (y' - startY = y)) as [Hey|Hny]; [|left; lia].
    right. split; [done|].
    destruct (templateAt_true _ _ _ Htrue) as (? & ? & _ & Hcol).
    rewrite Hey in Hcol. lia.
Qed.

(** After [loadPattern] with a known name the live cells are the cells of
    the template that fall into the grid. *)
Lemma loadPattern_spec s name data startX startY :
  wf s → patterns !! name = Some data →
  wf (loadPattern name startX startY s)
  ∧ width (loadPattern name startX startY s) = width s
  ∧ height (loadPattern name startX startY s) = height s
  ∧ generation (loadPattern name startX startY s) = 0
  ∧ ∀ x y, getCell x y (loadPattern name startX startY s) = true
           ↔ inside s x y ∧ templateAt data (x - startX) (y - startY) = true.
Proof.
  intros Hwf Hdata. unfold loadPattern. rewrite Hdata.
  assert (stamped s data startX startY
            (λ _ dy, dy < 0 + Z.of_nat (length data))
            (for_loop (length data) 0
               (λ y s1,
                  for_loop (length (data !!! Z.to_nat y)) 0
                    (λ x s2, if (data !!! Z.to_nat y) !!! Z.to_nat x =? 1
                             then setCell (startX + x) (startY + y) true s2
                             else s2) s1) (clear s)))
    as (Hwf' & Hw & Hh & Hg & Hcells).
  { apply (for_loop_ind (λ y t, stamped s data startX startY (λ _ dy, dy < y) t)).
    - split; [by apply wf_clear|]. split; [done|]. split; [done|].
      split; [done|]. intros x y. rewrite getCell_clear.
      split; [done|]. intros (_ & Htrue & Hlt).
      apply templateAt_true in Htrue. lia.
    - intros y t Hy Ht. apply loadPattern_row; [lia | done]. }
  split; [done|]. split; [done|]. split; [done|]. split; [done|].
  intros x y. rewrite Hcells. split; [tauto|].
  intros (Hin & Htrue). split; [done|]. split; [done|].
  apply templateAt_true in Htrue. lia.
Qed.

End Filling.

(** X10.  [randomize] sets every cell of the grid to the outcome of its own
    draw, the draws being taken in row-major order, resets the generation
    counter to 0, and leaves the next buffer and the dimensions as they
    were. *)
Theorem randomize_follows_draws (coin : Z → bool) (s : GameOfLife) :
  wf s →
  (∀ x y, 0 <= x < width s → 0 <= y < height s →
     getCell x y (randomize coin s) = coin (y * width s + x))
  ∧ getGeneration (randomize coin s) = 0
  ∧ deref (randomize coin s) (nextGrid (randomize coin s)) = deref s (nextGrid s)
  ∧ width (randomize coin s) = width s
  ∧ height (randomize coin s) = height s.
Proof.
  intros Hwf. pose proof Hwf as (_ & _ & Hne & _).
  destruct (randomize_spec coin s Hwf) as (b & -> & Hlen & Hget).
  split; [|split; [done|split; [|done]]].
  - intros x y Hx Hy. assert (inside s x y) as Hin by done.
    pose proof (index_lt s x y Hin) as Hidx.
    rewrite getCell_inside by exact Hin.
    replace (deref _ _) with b
      by (symmetry; exact (deref_with_current_current b s)).
    change (getIndex _ x y) with (getIndex s x y).
    rewrite Hget by done. f_equal. unfold getIndex. rewrite Z2Nat.id; [done|].
    unfold inside in Hin. nia.
  - apply (deref_with_current_ne b s (nextGrid s)). by apply not_eq_sym.
Qed.

Lemma randomize_follows_draws_witness :
  wf sample_blinker
  ∧ (∀ x y, 0 <= x < width sample_blinker → 0 <= y < height sample_blinker →
       getCell x y (randomize Z.even sample_blinker)
       = Z.even (y * width sample_blinker + x))
  ∧ getGeneration (randomize Z.even sample_blinker) = 0
  ∧ deref (randomize Z.even sample_blinker)
          (nextGrid (randomize Z.even sample_blinker))
    = deref sample_blinker (nextGrid sample_blinker)
  ∧ width (randomize Z.even sample_blinker) = width sample_blinker
  ∧ height (randomize Z.even sample_blinker) = height sample_blinker.
Proof.
  assert (wf sample_blinker) as Hwf
    by (apply (bool_decide_unpack _); vm_compute; exact I).
  split; [exact Hwf | exact (randomize_follows_draws Z.even sample_blinker Hwf)].
Defined.

(** X11.  [loadPattern] with the name of a template leaves alive exactly the
    cells of the template, placed at (startX, startY), that fall into the
    grid: cells of the template beyond the border are dropped, every cell
    that was alive before is cleared, and the generation counter is 0. *)
Theorem loadPattern_stamps_template
  (s : GameOfLife) (name : string) (data : list (list Z)) (startX startY : Z) :
  wf s → patterns !! name = Some data →
  (∀ x y, getCell x y (loadPattern name startX startY s) = true
          ↔ (0 <= x < width s ∧ 0 <= y < height s)
            ∧ templateAt data (x - startX) (y - startY) = true)
  ∧ getGeneration (loadPattern name startX startY s) = 0
  ∧ width (loadPattern name startX startY s) = width s
  ∧ height (loadPattern name startX startY s) = height s.
Proof.
  intros Hwf Hdata.
  destruct (loadPattern_spec s name data startX startY Hwf Hdata)
    as (_ & Hw & Hh & Hg & Hcells).
  done.
Qed.

Lemma loadPattern_stamps_template_witness :
  (wf sample_blinker
   ∧ patterns !! "toad" = Some [[0; 1; 1; 1]; [1; 1; 1; 0]])
  ∧ (∀ x y, getCell x y (loadPattern "toad" 5 (-1) sample_blinker) = true
            ↔ (0 <= x < width sample_blinker ∧ 0 <= y < height sample_blinker)
              ∧ templateAt [[0; 1; 1; 1]; [1; 1; 1; 0]] (x - 5) (y - -1) = true)
  ∧ getGeneration (loadPattern "toad" 5 (-1) sample_blinker) = 0
  ∧ width (loadPattern "toad" 5 (-1) sample_blinker) = width sample_blinker
  ∧ height (loadPattern "toad" 5 (-1) sample_blinker) = height sample_blinker.
Proof.
  assert (wf sample_blinker) as Hwf
    by (apply (bool_decide_unpack _); vm_compute; exact I).
  assert (patterns !! "toad" = Some [[0; 1; 1; 1]; [1; 1; 1; 0]]) as Hdata
    by reflexivity.
  split; [split; [exact Hwf | exact Hdata]|].
  exact (loadPattern_stamps_template sample_blinker "toad" _ 5 (-1) Hwf Hdata).
Defined.

(** ** The shape of the grid *)

Section Shape.
Implicit Types (s : GameOfLife).

Lemma randomize_dims coin s :
  wf s →
  width (randomize coin s) = width s ∧ height (randomize coin s) = height s.
Proof.
  intros Hwf. by destruct (randomize_spec coin s Hwf) as (b & -> & _).
Qed.

Lemma loadPattern_dims pattern startX startY s :
  width (loadPattern pattern startX startY s) = width s
  ∧ height (loadPattern pattern startX startY s) = height s.
Proof.
  unfold loadPattern. destruct (patterns !! pattern) as [data|]; [|done].
  apply (for_loop_ind (λ _ t, width t = width s ∧ height t = height s)); [done|].
  intros y t _ Ht.
  apply (for_loop_ind (λ _ t, width t = width s ∧ height t = height s)); [done|].
  intros x t' _ [Hw Hh]. destruct (_ =? 1); [|done].
  by destruct (setCell_dims t' (startX + x) (startY + y) true) as (-> & -> & _).
Qed.

Lemma mutate_dims m s :
  wf s → width (mutate m s) = width s ∧ height (mutate m s) = height s.
Proof.
  intros Hwf. destruct m as [|x y alive|x y| |coin|pattern startX startY];
    cbn [mutate].
  - by destruct (step_dims s Hwf) as (-> & -> & _).
  - by destruct (setCell_dims s x y alive) as (-> & -> & _).
  - by destruct (toggleCell_dims s x y) as (-> & -> & _).
  - done.
  - by apply randomize_dims.
  - apply loadPattern_dims.
Qed.

Lemma mutate_all_dims ms s :
  wf s →
  wf (mutate_all ms s)
  ∧ width (mutate_all ms s) = width s ∧ height (mutate_all ms s) = height s.
Proof.
  revert s. induction ms as [|m ms IH]; intros s Hwf; simpl; [done|].
  destruct (mutate_frame m s Hwf) as [Hwfm _].
  destruct (mutate_dims m s Hwf) as [Hw Hh].
  destruct (IH (mutate m s) Hwfm) as (Hwf' & -> & ->). done.
Qed.

End Shape.

(** X12.  Whatever is done to an engine after its construction ([step],
    [setCell], [toggleCell], [clear], [randomize], [loadPattern], in any
    number and order), its width and height stay those given to the
    constructor, its two buffers stay two different arrays of exactly
    width * height cells, and its population stays between 0 and
    width * height. *)
Theorem grid_shape_is_kept
  (w h : Z) (σ : gmap loc (list bool)) (s : GameOfLife) (ms : list Mutation) :
  0 <= w → 0 <= h → new_GameOfLife w h σ = Some s →
  width (mutate_all ms s) = w ∧ height (mutate_all ms s) = h
  ∧ currentGrid (mutate_all ms s) ≠ nextGrid (mutate_all ms s)
  ∧ Z.of_nat (length (deref (mutate_all ms s) (currentGrid (mutate_all ms s))))
    = w * h
  ∧ Z.of_nat (length (deref (mutate_all ms s) (nextGrid (mutate_all ms s))))
    = w * h
  ∧ 0 <= getPopulation (mutate_all ms s) <= w * h.
Proof.
  intros Hw Hh Hnew.
  destruct (wf_new w h σ s Hw Hh Hnew) as (Hwf & Hws & Hhs & _).
  destruct (mutate_all_dims ms s Hwf) as (Hwf' & Hw' & Hh').
  pose proof Hwf' as (_ & _ & Hne & _ & _ & Hlc & Hln).
  pose proof (population_bounds
                (deref (mutate_all ms s) (currentGrid (mutate_all ms s)))) as Hb.
  rewrite Hlc in Hb. rewrite Hlc, Hln. unfold cells in *.
  rewrite Hw', Hh', Hws, Hhs in *.
  split; [done|]. split; [done|]. split; [done|].
  rewrite Z2Nat.id in * by nia. done.
Qed.

Lemma grid_shape_is_kept_witness :
  (0 <= 7 ∧ 0 <= 5 ∧ new_GameOfLife 7 5 ∅ = Some sample_empty)
  ∧ let t := mutate_all [MRandomize Z.even; MStep; MToggleCell 0 0] sample_empty in
    width t = 7 ∧ height t = 5
    ∧ currentGrid t ≠ nextGrid t
    ∧ Z.of_nat (length (deref t (currentGrid t))) = 7 * 5
    ∧ Z.of_nat (length (deref t (nextGrid t))) = 7 * 5
    ∧ 0 <= getPopulation t <= 7 * 5.
Proof.
  assert (0 <= 7) as Hw by lia. assert (0 <= 5) as Hh by lia.
  assert (new_GameOfLife 7 5 ∅ = Some sample_empty) as Hnew
    by (vm_compute; reflexivity).
  split; [split; [exact Hw | split; [exact Hh | exact Hnew]]|].
  exact (grid_shape_is_kept 7 5 ∅ sample_empty
           [MRandomize Z.even; MStep; MToggleCell 0 0] Hw Hh Hnew).
Defined.

(** ** Patterns *)

Section PatternFacts.
Implicit Types (s : GameOfLife) (x y ax ay lo hi : Z) (P Q cells : list (Z * Z)).

Lemma pattern_at_origin cells ax ay x y :
  pattern_at cells ax ay x y = pattern_at cells 0 0 (x - ax) (y - ay).
Proof.
  unfold pattern_at. induction cells as [|c cells IH]; [done|]. simpl.
  by rewrite IH, !Z.sub_0_r.
Qed.

Lemma pattern_at_true cells ax ay x y :
  pattern_at cells ax ay x y = true ↔ (x - ax, y - ay) ∈ cells.
Proof.
  unfold pattern_at. induction cells as [|[c1 c2] cells IH]; simpl.
  - split; [done|]. by intros ?%elem_of_nil.
  - rewrite orb_true_iff, andb_true_iff, !Z.eqb_eq, IH, elem_of_cons.
    split; (intros [H|H]; [left|by right]).
    + destruct H as [-> ->]. done.
    + by injection H as -> ->.
Qed.

Lemma pattern_at_outside cells lo hi x y :
  boxed lo hi cells → (x < lo ∨ hi < x ∨ y < lo ∨ hi < y) →
  pattern_at cells 0 0 x y = false.
Proof.
  intros Hbox Hout. apply not_true_is_false. intros Htrue.
  apply pattern_at_true in Htrue. unfold boxed in Hbox.
  rewrite Forall_forall in Hbox. specialize (Hbox _ Htrue). simpl in Hbox. lia.
Qed.

Lemma conway_outside cells lo hi x y :
  boxed lo hi cells → (x < lo - 1 ∨ hi + 1 < x ∨ y < lo - 1 ∨ hi + 1 < y) →
  conway (pattern_at cells 0 0) x y = false.
Proof.
  intros Hbox Hout. unfold conway, neighborSum.
  rewrite !(pattern_at_outside cells lo hi) by (done || lia). reflexivity.
Qed.

Lemma forallb_seqZ (p : Z → bool) (m n i : Z) :
  forallb p (seqZ m n) = true → m <= i < m + n → p i = true.
Proof.
  intros Hall Hi. rewrite forallb_forall in Hall. apply Hall.
  apply list_elem_of_In, elem_of_seqZ. lia.
Qed.

(** The check on the box decides the evolution on the whole plane. *)
Lemma evolves_sound lo hi P Q :
  boxed lo hi P → boxed lo hi Q → evolves_in_box lo hi P Q = true →
  evolves P Q.
Proof.
  intros HP HQ Hcheck i j.
  destruct (decide (lo - 1 <= i <= hi + 1 ∧ lo - 1 <= j <= hi + 1)) as [Hin|Hout].
  - unfold evolves_in_box in Hcheck.
    pose proof (forallb_seqZ _ _ _ i Hcheck ltac:(lia)) as Hrow.
    pose proof (forallb_seqZ _ _ _ j Hrow ltac:(lia)) as Hcell.
    by apply Bool.eqb_prop.
  - rewrite (conway_outside P lo hi), (pattern_at_outside Q lo hi)
      by (done || lia). done.
Qed.

(** The same for a template against the list of its cells. *)
Lemma template_sound (n : Z) data cells :
  Z.of_nat (length data) <= n →
  Forall (λ row : list Z, Z.of_nat (length row) <= n) data →
  boxed 0 (n - 1) cells → template_in_box n data cells = true →
  ∀ i j, templateAt data i j = pattern_at cells 0 0 i j.
Proof.
  intros Hrows Hcols Hbox Hcheck i j.
  destruct (decide (0 <= i < n ∧ 0 <= j < n)) as [Hin|Hout].
  - unfold template_in_box in Hcheck.
    pose proof (forallb_seqZ _ _ _ i Hcheck ltac:(lia)) as Hrow.
    pose proof (forallb_seqZ _ _ _ j Hrow ltac:(lia)) as Hcell.
    by apply Bool.eqb_prop.
  - rewrite (pattern_at_outside cells 0 (n - 1)) by (done || lia).
    apply not_true_is_false. intros Htrue.
    destruct (templateAt_true _ _ _ Htrue) as (Hi & Hj & Hrow & Hcol).
    rewrite Forall_forall in Hcols.
    assert (data !!! Z.to_nat j ∈ data) as Hmem
      by (apply list_elem_of_lookup_total_2; lia).
    specialize (Hcols _ Hmem). lia.
Qed.

Lemma conway_shift (f g : Z → Z → bool) ax ay :
  (∀ x y, f x y = g (x - ax) (y - ay)) →
  ∀ x y, conway f x y = conway g (x - ax) (y - ay).
Proof.
  intros Hfg x y. unfold conway, neighborSum. rewrite !Hfg.
  replace (x - 1 - ax) with (x - ax - 1) by lia.
  replace (x + 1 - ax) with (x - ax + 1) by lia.
  replace (y - 1 - ay) with (y - ay - 1) by lia.
  replace (y + 1 - ay) with (y - ay + 1) by lia. done.
Qed.

Lemma fits_inside s cells ax ay x y :
  fits s cells ax ay → pattern_at cells ax ay x y = true → inside s x y.
Proof.
  intros Hfits Htrue. apply pattern_at_true in Htrue. unfold fits in Hfits.
  rewrite Forall_forall in Hfits. specialize (Hfits _ Htrue). simpl in Hfits.
  by replace (ax + (x - ax)) with x in Hfits by lia;
     replace (ay + (y - ay)) with y in Hfits by lia.
Qed.

Lemma boxed_fits s cells lo hi ax ay :
  boxed lo hi cells →
  0 <= ax + lo → ax + hi < width s → 0 <= ay + lo → ay + hi < height s →
  fits s cells ax ay.
Proof.
  unfold boxed, fits, inside. intros Hbox ????.
  eapply Forall_impl; [done|]. simpl. intros c ?. lia.
Qed.

(** One generation of an engine that holds the cells [P] at (ax, ay). *)
Lemma step_pattern s P Q ax ay :
  wf s → (∀ x y, getCell x y s = pattern_at P ax ay x y) →
  evolves P Q → fits s Q ax ay →
  wf (step s) ∧ ∀ x y, getCell x y (step s) = pattern_at Q ax ay x y.
Proof.
  intros Hwf HP Hev Hfits. split; [by apply wf_step|].
  apply (step_known s (pattern_at P ax ay)); [done | done | |].
  - intros x y.
    rewrite (conway_shift _ (pattern_at P 0 0) ax ay)
      by (intros; apply pattern_at_origin).
    by rewrite Hev, <- pattern_at_origin.
  - intros x y. by apply fits_inside.
Qed.

(** Two well-formed engines of one size whose cells read alike hold the
    same field. *)
Lemma same_cells_same_field s t :
  wf s → wf t → width s = width t → height s = height t →
  (∀ x y, getCell x y s = getCell x y t) →
  deref s (currentGrid s) = deref t (currentGrid t).
Proof.
  intros Hs Ht Hw Hh Hcells.
  rewrite (deref_field s (λ x y, getCell x y t)) by done.
  rewrite (deref_field t (λ x y, getCell x y t)) by done.
  by rewrite Hw, Hh.
Qed.

Lemma evolves_block : evolves blockCells blockCells.
Proof.
  apply (evolves_sound 0 1);
    [apply (bool_decide_unpack _); vm_compute; exact I ..
    | vm_compute; reflexivity].
Qed.

Lemma evolves_lone : evolves loneCells [].
Proof.
  apply (evolves_sound 0 0);
    [apply (bool_decide_unpack _); vm_compute; exact I ..
    | vm_compute; reflexivity].
Qed.

Lemma evolves_glider :
  evolves gliderCells gliderCells1 ∧ evolves gliderCells1 gliderCells2
  ∧ evolves gliderCells2 gliderCells3 ∧ evolves gliderCells3 gliderCells4.
Proof.
  repeat split;
    (apply (evolves_sound 0 3);
      [apply (bool_decide_unpack _); vm_compute; exact I ..
      | vm_compute; reflexivity]).
Qed.

Lemma evolves_oscillators :
  (evolves blinkerCells blinkerCells1 ∧ evolves blinkerCells1 blinkerCells)
  ∧ (evolves toadCells toadCells1 ∧ evolves toadCells1 toadCells)
  ∧ (evolves beaconCells beaconCells1 ∧ evolves beaconCells1 beaconCells).
Proof.
  repeat split;
    (apply (evolves_sound (-1) 3);
      [apply (bool_decide_unpack _); vm_compute; exact I ..
      | vm_compute; reflexivity]).
Qed.

(** The templates of [loadPattern], as lists of cells. *)
Lemma template_cells name data :
  patterns !! name = Some data →
  ∃ cells, (name = "glider" ∧ cells = gliderCells
            ∨ name = "blinker" ∧ cells = blinkerCells
            ∨ name = "toad" ∧ cells = toadCells
            ∨ name = "beacon" ∧ cells = beaconCells)
           ∧ ∀ i j, templateAt data i j = pattern_at cells 0 0 i j.
Proof.
  intros Hdata.
  destruct (decide (name = "glider")) as [->|Hg];
    [|destruct (decide (name = "blinker")) as [->|Hb];
      [|destruct (decide (name = "toad")) as [->|Ht];
        [|destruct (decide (name = "beacon")) as [->|Hc]]]].
  5:{ by rewrite patterns_own_names in Hdata. }
  all: vm_compute in Hdata; injection Hdata as <-; eexists;
    (split; [eauto 10|]);
    apply (template_sound 4);
      [ simpl; lia
      | repeat constructor; simpl; lia
      | apply (bool_decide_unpack _); vm_compute; exact I
      | vm_compute; reflexivity ].
Qed.

End PatternFacts.

Section PatternSteps.
Implicit Types (s : GameOfLife) (x y ax ay : Z) (P Q cells : list (Z * Z)).

Lemma pattern_at_shift cells (dx dy : Z) ax ay x y :
  pattern_at (map (λ c, (c.1 + dx, c.2 + dy)) cells) ax ay x y
  = pattern_at cells (ax + dx) (ay + dy) x y.
Proof.
  unfold pattern_at. induction cells as [|c cells IH]; [done|]. simpl.
  rewrite IH. f_equal. f_equal.
  - destruct (Z.eqb_spec (x - ax) (c.1 + dx)), (Z.eqb_spec (x - (ax + dx)) c.1);
      (done || lia).
  - destruct (Z.eqb_spec (y - ay) (c.2 + dy)), (Z.eqb_spec (y - (ay + dy)) c.2);
      (done || lia).
Qed.

Lemma rect_fits s cells (xlo xhi ylo yhi : Z) ax ay :
  Forall (λ c : Z * Z, (xlo <= c.1 <= xhi) ∧ (ylo <= c.2 <= yhi)) cells →
  0 <= ax + xlo → ax + xhi < width s → 0 <= ay + ylo → ay + yhi < height s →
  fits s cells ax ay.
Proof.
  unfold fits, inside. intros Hbox ????.
  eapply Forall_impl; [done|]. simpl. intros c ?. lia.
Qed.

(** An engine that holds the field of the cells [P] reads as [P]. *)
Lemma getCell_pattern s P ax ay :
  deref s (currentGrid s) = field (width s) (height s) (pattern_at P ax ay) →
  fits s P ax ay →
  ∀ x y, getCell x y s = pattern_at P ax ay x y.
Proof.
  intros Hfield Hfits. apply getCell_field; [done|].
  intros x y. by apply fits_inside.
Qed.

(** After [loadPattern] the engine reads as the cells of the template,
    when these all fall into the grid. *)
Lemma loadPattern_cells s name data cells ax ay :
  wf s → patterns !! name = Some data →
  (∀ i j, templateAt data i j = pattern_at cells 0 0 i j) →
  fits s cells ax ay →
  ∀ x y, getCell x y (loadPattern name ax ay s) = pattern_at cells ax ay x y.
Proof.
  intros Hwf Hdata Htpl Hfits x y.
  destruct (loadPattern_spec s name data ax ay Hwf Hdata)
    as (_ & _ & _ & _ & Hcells).
  apply Bool.eq_true_iff_eq. rewrite Hcells, Htpl, <- pattern_at_origin.
  split; [tauto|]. intros Htrue. split; [|done]. by eapply fits_inside.
Qed.

Lemma getPopulation_same s t :
  deref s (currentGrid s) = deref t (currentGrid t) →
  getPopulation s = getPopulation t.
Proof. unfold getPopulation. by intros ->. Qed.

(** Two generations of an engine that holds a pattern of period 2. *)
Lemma step_step_pattern s P Q ax ay :
  wf s → (∀ x y, getCell x y s = pattern_at P ax ay x y) →
  evolves P Q → evolves Q P → fits s P ax ay → fits s Q ax ay →
  (∀ x y, getCell x y (step s) = pattern_at Q ax ay x y)
  ∧ deref (step (step s)) (currentGrid (step (step s)))
    = deref s (currentGrid s).
Proof.
  intros Hwf HP HPQ HQP HfP HfQ.
  destruct (step_pattern s P Q ax ay Hwf HP HPQ HfQ) as [Hwf1 H1].
  destruct (step_pattern (step s) Q P ax ay Hwf1 H1 HQP) as [Hwf2 H2].
  { unfold fits, inside in *. by destruct (step_dims s Hwf) as (-> & -> & _). }
  split; [done|].
  destruct (step_dims s Hwf) as (Hw1 & Hh1 & _).
  destruct (step_dims (step s) Hwf1) as (Hw2 & Hh2 & _).
  apply same_cells_same_field; [done | done | congruence | congruence |].
  intros x y. by rewrite H2, HP.
Qed.

End PatternSteps.

(** X13.  A 2 x 2 block that lies in the grid, at the border or in a corner
    as well, is a still life: [step] leaves the field and the population as
    they are and adds 1 to the generation counter. *)
Theorem block_is_still_life (s : GameOfLife) (ax ay : Z) :
  wf s →
  0 <= ax → ax + 1 < width s → 0 <= ay → ay + 1 < height s →
  deref s (currentGrid s)
  = field (width s) (height s) (pattern_at blockCells ax ay) →
  deref (step s) (currentGrid (step s)) = deref s (currentGrid s)
  ∧ getPopulation (step s) = getPopulation s
  ∧ getGeneration (step s) = getGeneration s + 1.
Proof.
  intros Hwf Hax Haw Hay Hah Hfield.
  assert (fits s blockCells ax ay) as Hfits.
  { apply (boxed_fits s _ 0 1); [|lia..].
    apply (bool_decide_unpack _). vm_compute. exact I. }
  pose proof (getCell_pattern s blockCells ax ay Hfield Hfits) as Hs.
  destruct (step_pattern s _ _ ax ay Hwf Hs evolves_block Hfits) as [Hwf1 H1].
  destruct (step_dims s Hwf) as (Hw1 & Hh1 & Hg1).
  assert (deref (step s) (currentGrid (step s)) = deref s (currentGrid s)) as Heq.
  { apply same_cells_same_field; try done. intros x y. by rewrite H1, Hs. }
  split; [done|]. split; [by apply getPopulation_same | done].
Qed.

Lemma block_is_still_life_witness :
  (wf sample_block
   ∧ 0 <= 0 ∧ 0 + 1 < width sample_block
   ∧ 0 <= 0 ∧ 0 + 1 < height sample_block
   ∧ deref sample_block (currentGrid sample_block)
     = field (width sample_block) (height sample_block)
             (pattern_at blockCells 0 0))
  ∧ deref (step sample_block) (currentGrid (step sample_block))
    = deref sample_block (currentGrid sample_block)
  ∧ getPopulation (step sample_block) = getPopulation sample_block
  ∧ getGeneration (step sample_block) = getGeneration sample_block + 1.
Proof.
  assert (wf sample_block) as Hwf
    by (apply (bool_decide_unpack _); vm_compute; exact I).
  assert (0 + 1 < width sample_block) as Hw by (vm_compute; reflexivity).
  assert (0 + 1 < height sample_block) as Hh by (vm_compute; reflexivity).
  assert (deref sample_block (currentGrid sample_block)
          = field (width sample_block) (height sample_block)
                  (pattern_at blockCells 0 0)) as Hfield
    by (vm_compute; reflexivity).
  split.
  - split; [exact Hwf|]. split; [lia|]. split; [exact Hw|]. split; [lia|].
    split; [exact Hh | exact Hfield].
  - apply (block_is_still_life sample_block 0 0);
      [exact Hwf | lia | exact Hw | lia | exact Hh | exact Hfield].
Defined.

(** X14.  A grid whose only live cell is a single cell, anywhere in the
    grid, has no live cell after one [step]. *)
Theorem lone_cell_dies (s : GameOfLife) (ax ay : Z) :
  wf s → 0 <= ax < width s → 0 <= ay < height s →
  deref s (currentGrid s)
  = field (width s) (height s) (pattern_at loneCells ax ay) →
  (∀ x y, getCell x y (step s) = false) ∧ getPopulation (step s) = 0.
Proof.
  intros Hwf Hax Hay Hfield.
  assert (fits s loneCells ax ay) as Hfits.
  { apply (boxed_fits s _ 0 0); [|lia..].
    apply (bool_decide_unpack _). vm_compute. exact I. }
  pose proof (getCell_pattern s loneCells ax ay Hfield Hfits) as Hs.
  destruct (step_pattern s _ [] ax ay Hwf Hs evolves_lone) as [Hwf1 H1];
    [by apply Forall_nil|].
  split; [done|]. by apply getPopulation_dead.
Qed.

Lemma lone_cell_dies_witness :
  (wf sample_lone ∧ 0 <= 6 < width sample_lone ∧ 0 <= 4 < height sample_lone
   ∧ deref sample_lone (currentGrid sample_lone)
     = field (width sample_lone) (height sample_lone) (pattern_at loneCells 6 4))
  ∧ (∀ x y, getCell x y (step sample_lone) = false)
  ∧ getPopulation (step sample_lone) = 0.
Proof.
  assert (wf sample_lone) as Hwf
    by (apply (bool_decide_unpack _); vm_compute; exact I).
  assert (0 <= 6 < width sample_lone) as Hx
    by (vm_compute; split; discriminate || reflexivity).
  assert (0 <= 4 < height sample_lone) as Hy
    by (vm_compute; split; discriminate || reflexivity).
  assert (deref sample_lone (currentGrid sample_lone)
          = field (width sample_lone) (height sample_lone)
                  (pattern_at loneCells 6 4)) as Hfield
    by (vm_compute; reflexivity).
  split; [split; [exact Hwf | split; [exact Hx | split; [exact Hy | exact Hfield]]]|].
  exact (lone_cell_dies sample_lone 6 4 Hwf Hx Hy Hfield).
Defined.

(** X15.  The glider template travels: four [step]s after
    [loadPattern("glider", ax, ay)] the field is the one that
    [loadPattern("glider", ax + 1, ay + 1)] stamps, one cell to the right
    and one cell down, provided the 4 x 4 square at (ax, ay) lies in the
    grid; the generation counter is then 4. *)
Theorem glider_travels (s : GameOfLife) (ax ay : Z) :
  wf s →
  0 <= ax → ax + 3 < width s → 0 <= ay → ay + 3 < height s →
  deref (steps 4 (loadPattern "glider" ax ay s))
        (currentGrid (steps 4 (loadPattern "glider" ax ay s)))
  = deref (loadPattern "glider" (ax + 1) (ay + 1) s)
          (currentGrid (loadPattern "glider" (ax + 1) (ay + 1) s))
  ∧ getGeneration (steps 4 (loadPattern "glider" ax ay s)) = 4.
Proof.
  intros Hwf Hax Haw Hay Hah.
  assert (patterns !! "glider" = Some [[0; 1; 0]; [0; 0; 1]; [1; 1; 1]])
    as Hdata by reflexivity.
  destruct (template_cells _ _ Hdata) as (cells & Hname & Htpl).
  assert (cells = gliderCells) as -> by (by destruct Hname as [[_ ->]|[[? _]|[[? _]|[? _]]]]).
  assert (∀ P, boxed 0 3 P → ∀ t, width t = width s → height t = height s →
               fits t P ax ay) as Hroom.
  { intros P HP t Hw Hh. apply (boxed_fits t P 0 3); [done|lia..]. }
  assert (∀ P, boxed 0 2 P → fits s P (ax + 1) (ay + 1)) as Hroom1.
  { intros P HP. apply (boxed_fits s P 0 2); [done|lia..]. }
  assert (boxed 0 3 gliderCells ∧ boxed 0 3 gliderCells1
          ∧ boxed 0 3 gliderCells2 ∧ boxed 0 3 gliderCells3
          ∧ boxed 0 3 gliderCells4 ∧ boxed 0 2 gliderCells)
    as (Hb0 & Hb1 & Hb2 & Hb3 & Hb4 & Hb)
    by (repeat split; apply (bool_decide_unpack _); vm_compute; exact I).
  destruct evolves_glider as (He0 & He1 & He2 & He3).
  set (s0 := loadPattern "glider" ax ay s).
  destruct (loadPattern_spec s "glider" _ ax ay Hwf Hdata)
    as (Hwf0 & Hw0 & Hh0 & Hg0 & _). fold s0 in Hwf0, Hw0, Hh0, Hg0.
  assert (∀ x y, getCell x y s0 = pattern_at gliderCells ax ay x y) as H0
    by (eapply (loadPattern_cells s "glider"); eauto).
  destruct (step_dims s0 Hwf0) as (Hw1 & Hh1 & Hg1).
  destruct (step_pattern s0 _ _ ax ay Hwf0 H0 He0) as [Hwf1 H1];
    [apply Hroom; congruence|].
  destruct (step_dims _ Hwf1) as (Hw2 & Hh2 & Hg2).
  destruct (step_pattern _ _ _ ax ay Hwf1 H1 He1) as [Hwf2 H2];
    [apply Hroom; congruence|].
  destruct (step_dims _ Hwf2) as (Hw3 & Hh3 & Hg3).
  destruct (step_pattern _ _ _ ax ay Hwf2 H2 He2) as [Hwf3 H3];
    [apply Hroom; congruence|].
  destruct (step_dims _ Hwf3) as (Hw4 & Hh4 & Hg4).
  destruct (step_pattern _ _ _ ax ay Hwf3 H3 He3) as [Hwf4 H4];
    [apply Hroom; congruence|].
  change (steps 4 s0) with (step (step (step (step s0)))).
  destruct (loadPattern_spec s "glider" _ (ax + 1) (ay + 1) Hwf Hdata)
    as (Hwf' & Hw' & Hh' & _ & _).
  split.
  - apply same_cells_same_field; [done | done | congruence | congruence |].
    intros x y. rewrite H4.
    erewrite (loadPattern_cells s "glider") by eauto.
    change gliderCells4 with (map (λ c : Z * Z, (c.1 + 1, c.2 + 1)) gliderCells).
    apply pattern_at_shift.
  - unfold getGeneration. lia.
Qed.

Lemma glider_travels_witness :
  (wf sample_large ∧ 0 <= 2 ∧ 2 + 3 < width sample_large
   ∧ 0 <= 3 ∧ 3 + 3 < height sample_large)
  ∧ deref (steps 4 (loadPattern "glider" 2 3 sample_large))
          (currentGrid (steps 4 (loadPattern "glider" 2 3 sample_large)))
    = deref (loadPattern "glider" (2 + 1) (3 + 1) sample_large)
            (currentGrid (loadPattern "glider" (2 + 1) (3 + 1) sample_large))
  ∧ getGeneration (steps 4 (loadPattern "glider" 2 3 sample_large)) = 4.
Proof.
  assert (wf sample_large) as Hwf
    by (apply (bool_decide_unpack _); vm_compute; exact I).
  assert (2 + 3 < width sample_large) as Hw by (vm_compute; reflexivity).
  assert (3 + 3 < height sample_large) as Hh by (vm_compute; reflexivity).
  split.
  - split; [exact Hwf|]. split; [lia|]. split; [exact Hw|]. split; [lia | exact Hh].
  - apply (glider_travels sample_large 2 3); [exact Hwf | lia | exact Hw | lia | exact Hh].
Defined.

(** X16.  The blinker, toad and beacon templates are oscillators of period
    2: loaded at (ax, ay) with the 4 x 4 square at (ax, ay) and the row
    above it inside the grid, the field after one [step] differs from the
    loaded one, and after two [step]s it is the loaded field again, at
    generation 2. *)
Theorem templates_oscillate (s : GameOfLife) (name : string) (ax ay : Z) :
  wf s →
  name = "blinker" ∨ name = "toad" ∨ name = "beacon" →
  0 <= ax → ax + 3 < width s → 1 <= ay → ay + 3 < height s →
  deref (steps 2 (loadPattern name ax ay s))
        (currentGrid (steps 2 (loadPattern name ax ay s)))
  = deref (loadPattern name ax ay s) (currentGrid (loadPattern name ax ay s))
  ∧ deref (steps 1 (loadPattern name ax ay s))
          (currentGrid (steps 1 (loadPattern name ax ay s)))
    ≠ deref (loadPattern name ax ay s) (currentGrid (loadPattern name ax ay s))
  ∧ getGeneration (steps 2 (loadPattern name ax ay s)) = 2.
Proof.
  intros Hwf Hname Hax Haw Hay Hah.
  assert (∃ data P Q c,
            patterns !! name = Some data
            ∧ (∀ i j, templateAt data i j = pattern_at P 0 0 i j)
            ∧ evolves P Q ∧ evolves Q P
            ∧ Forall (λ c : Z * Z, (0 <= c.1 <= 3) ∧ (-1 <= c.2 <= 3)) P
            ∧ Forall (λ c : Z * Z, (0 <= c.1 <= 3) ∧ (-1 <= c.2 <= 3)) Q
            ∧ c ∈ P ∧ c ∉ Q)
    as (data & P & Q & c & Hdata & Htpl & HPQ & HQP & HbP & HbQ & HcP & HcQ).
  { destruct evolves_oscillators as ((Hb1 & Hb2) & (Ht1 & Ht2) & (Hc1 & Hc2)).
    destruct Hname as [-> | [-> | ->]].
    - destruct (template_cells "blinker" _ eq_refl) as (cells & Hn & Htpl).
      assert (cells = blinkerCells) as ->
        by (by destruct Hn as [[? _]|[[_ ->]|[[? _]|[? _]]]]).
      eexists _, blinkerCells, blinkerCells1, (0, 0).
      split; [reflexivity|]. split; [done|]. split; [done|]. split; [done|].
      repeat split; apply (bool_decide_unpack _); vm_compute; exact I.
    - destruct (template_cells "toad" _ eq_refl) as (cells & Hn & Htpl).
      assert (cells = toadCells) as ->
        by (by destruct Hn as [[? _]|[[? _]|[[_ ->]|[? _]]]]).
      eexists _, toadCells, toadCells1, (1, 0).
      split; [reflexivity|]. split; [done|]. split; [done|]. split; [done|].
      repeat split; apply (bool_decide_unpack _); vm_compute; exact I.
    - destruct (template_cells "beacon" _ eq_refl) as (cells & Hn & Htpl).
      assert (cells = beaconCells) as ->
        by (by destruct Hn as [[? _]|[[? _]|[[? _]|[_ ->]]]]).
      eexists _, beaconCells, beaconCells1, (1, 1).
      split; [reflexivity|]. split; [done|]. split; [done|]. split; [done|].
      repeat split; apply (bool_decide_unpack _); vm_compute; exact I. }
  set (s0 := loadPattern name ax ay s).
  destruct (loadPattern_spec s name data ax ay Hwf Hdata)
    as (Hwf0 & Hw0 & Hh0 & Hg0 & _). fold s0 in Hwf0, Hw0, Hh0, Hg0.
  assert (fits s P ax ay) as HfP
    by (apply (rect_fits s P 0 3 (-1) 3); [done|lia..]).
  assert (fits s0 P ax ay ∧ fits s0 Q ax ay) as [HfP0 HfQ0]
    by (split; apply (rect_fits s0 _ 0 3 (-1) 3); (done || lia)).
  assert (∀ x y, getCell x y s0 = pattern_at P ax ay x y) as H0
    by (by apply (loadPattern_cells s name data P)).
  destruct (step_step_pattern s0 P Q ax ay Hwf0 H0 HPQ HQP HfP0 HfQ0)
    as [H1 Hback].
  change (steps 2 s0) with (step (step s0)). change (steps 1 s0) with (step s0).
  split; [done|]. split.
  - intros Heq.
    assert (getCell (ax + c.1) (ay + c.2) (step s0)
            = getCell (ax + c.1) (ay + c.2) s0) as Hsame.
    { destruct (step_dims s0 Hwf0) as (Hw1 & Hh1 & _).
      by apply getCell_current. }
    rewrite H1, H0 in Hsame.
    assert (pattern_at P ax ay (ax + c.1) (ay + c.2) = true) as HP.
    { apply pattern_at_true.
      replace (ax + c.1 - ax, ay + c.2 - ay) with c; [done|].
      destruct c; simpl; f_equal; lia. }
    rewrite HP in Hsame. apply pattern_at_true in Hsame. apply HcQ.
    replace c with (ax + c.1 - ax, ay + c.2 - ay); [done|].
    destruct c; simpl; f_equal; lia.
  - unfold getGeneration.
    destruct (step_dims s0 Hwf0) as (_ & _ & Hg1).
    destruct (step_dims (step s0) (wf_step s0 Hwf0)) as (_ & _ & Hg2). lia.
Qed.

Lemma templates_oscillate_witness :
  (wf sample_large
   ∧ ("toad" = "blinker" ∨ "toad" = "toad" ∨ "toad" = "beacon")
   ∧ 0 <= 9 ∧ 9 + 3 < width sample_large
   ∧ 1 <= 1 ∧ 1 + 3 < height sample_large)
  ∧ deref (steps 2 (loadPattern "toad" 9 1 sample_large))
          (currentGrid (steps 2 (loadPattern "toad" 9 1 sample_large)))
    = deref (loadPattern "toad" 9 1 sample_large)
            (currentGrid (loadPattern "toad" 9 1 sample_large))
  ∧ deref (steps 1 (loadPattern "toad" 9 1 sample_large))
          (currentGrid (steps 1 (loadPattern "toad" 9 1 sample_large)))
    ≠ deref (loadPattern "toad" 9 1 sample_large)
            (currentGrid (loadPattern "toad" 9 1 sample_large))
  ∧ getGeneration (steps 2 (loadPattern "toad" 9 1 sample_large)) = 2.
Proof.
  assert (wf sample_large) as Hwf
    by (apply (bool_decide_unpack _); vm_compute; exact I).
  assert ("toad" = "blinker" ∨ "toad" = "toad" ∨ "toad" = "beacon") as Hname
    by (right; left; reflexivity).
  assert (9 + 3 < width sample_large) as Hw by (vm_compute; reflexivity).
  assert (1 + 3 < height sample_large) as Hh by (vm_compute; reflexivity).
  split.
  - split; [exact Hwf|]. split; [exact Hname|]. split; [lia|].
    split; [exact Hw|]. split; [lia | exact Hh].
  - apply (templates_oscillate sample_large "toad" 9 1);
      [exact Hwf | exact Hname | lia | exact Hw | lia | exact Hh].
Defined.

(** * The canvas renderer *)

Section Drawing.
Import CanvasRenderer.
Implicit Types (game : GameOfLife) (r : t) (x y : Z) (out : list FillRect).

Lemma drawCells_body game r x y out :
  (if getCell x y game then
     if showGrid r && (cellSize r >? 6) then
       out ++ [mkFill (offsetX r + x * cellSize r + 1)
                      (offsetY r + y * cellSize r + 1)
                      (cellSize r - 2) (cellSize r - 2)]
     else
       out ++ [mkFill (offsetX r + x * cellSize r) (offsetY r + y * cellSize r)
                      (cellSize r) (cellSize r)]
   else out)
  = if getCell x y game then out ++ [cellFill r x y] else out.
Proof.
  unfold cellFill. destruct (getCell x y game); [|done].
  by destruct (showGrid r && (cellSize r >? 6)).
Qed.

Lemma population_take_S a (n : nat) (v : bool) :
  a !! n = Some v →
  population (take (S n) a) = population (take n a) + Z.b2z v.
Proof. intros Hn. by rewrite (take_S_r _ _ _ Hn), population_snoc. Qed.

Lemma drawCells_row game r y out :
  wf game → 0 <= y < height game →
  drawn game r (λ _ y', y' < y) (Z.to_nat (y * width game)) out →
  drawn game r (λ _ y', y' < y + 1) (Z.to_nat ((y + 1) * width game))
    (for_loop (Z.to_nat (width game)) 0
       (λ x out2, if getCell x y game then out2 ++ [cellFill r x y] else out2)
       out).
Proof.
  intros Hwf Hy Hout. pose proof Hwf as (Hw & _).
  pose (Q := λ x out,
    drawn game r (λ x' y', y' < y ∨ (y' = y ∧ x' < x))
          (Z.to_nat (y * width game + x)) out).
  assert (Q (0 + Z.of_nat (Z.to_nat (width game)))
            (for_loop (Z.to_nat (width game)) 0
               (λ x out2, if getCell x y game then out2 ++ [cellFill r x y]
                          else out2) out)) as [Hmem Hlen].
  { apply for_loop_ind.
    - destruct Hout as [Hmem Hlen]. split.
      + intros f. rewrite Hmem. split.
        * intros (x' & y' & Hin & Hd & Hlive & ->). exists x', y'. eauto 10.
        * intros (x' & y' & Hin & [Hd|[_ Hd]] & Hlive & ->);
            [exists x', y'; eauto | unfold inside in Hin; lia].
      + by rewrite Z.add_0_r.
    - intros x out' Hx [Hmem Hlen].
      assert (inside game x y) as Hin by (unfold inside; lia).
      pose proof (getCell_lookup game x y Hwf Hin) as Hlook.
      unfold getIndex in Hlook. unfold Q. cbv beta.
      assert (Z.to_nat (y * width game + (x + 1))
              = S (Z.to_nat (y * width game + x))) as -> by nia.
      split.
      + intros f. destruct (getCell x y game) eqn:Hlive.
        * rewrite elem_of_app, list_elem_of_singleton, Hmem. split.
          -- intros [(x' & y' & Hin' & Hd & Hl & ->)| ->].
             ++ exists x', y'. split; [done|]. split; [lia | done].
             ++ exists x, y. split; [done|]. split; [lia | done].
          -- intros (x' & y' & Hin' & Hd & Hl & ->).
             destruct (decide (x' = x ∧ y' = y)) as [[-> ->]|Hne]; [by right|].
             left. exists x', y'. split; [done|]. split; [lia | done].
        * rewrite Hmem. split.
          -- intros (x' & y' & Hin' & Hd & Hl & ->).
             exists x', y'. split; [done|]. split; [lia | done].
          -- intros (x' & y' & Hin' & Hd & Hl & ->).
             destruct (decide (x' = x ∧ y' = y)) as [[-> ->]|Hne]; [congruence|].
             exists x', y'. split; [done|]. split; [lia | done].
      + rewrite (population_take_S _ _ _ Hlook).
        destruct (getCell x y game); simpl.
        * rewrite length_app. simpl. lia.
        * lia. }
  split.
  - intros f. rewrite Hmem. split.
    + intros (x' & y' & Hin & Hd & Hl & ->). exists x', y'.
      split; [done|]. split; [unfold inside in Hin; lia | done].
    + intros (x' & y' & Hin & Hd & Hl & ->). exists x', y'.
      split; [done|]. split; [unfold inside in Hin; lia | done].
  - rewrite Hlen. do 2 f_equal. nia.
Qed.

Lemma drawCells_spec game r :
  wf game →
  drawn game r (λ _ _, True) (cells game) (drawCells game r).
Proof.
  intros Hwf. pose proof Hwf as (Hw & Hh & _).
  assert (drawn game r (λ _ y', y' < 0 + Z.of_nat (Z.to_nat (height game)))
            (Z.to_nat ((0 + Z.of_nat (Z.to_nat (height game))) * width game))
            (drawCells game r)) as [Hmem Hlen].
  { unfold drawCells.
    apply (for_loop_ind
             (λ y out, drawn game r (λ _ y', y' < y)
                             (Z.to_nat (y * width game)) out)).
    - split; [|done]. intros f. split; [by intros ?%elem_of_nil|].
      intros (x & y & Hin & Hd & _). unfold inside in Hin. lia.
    - intros y out Hy Hout.
      rewrite (for_loop_ext _
        (λ x out2, if getCell x y game then out2 ++ [cellFill r x y] else out2))
        by (intros; apply drawCells_body).
      apply drawCells_row; [done | lia | done]. }
  split.
  - intros f. rewrite Hmem. split.
    + intros (x & y & Hin & _ & Hl & ->). by exists x, y.
    + intros (x & y & Hin & _ & Hl & ->). exists x, y.
      split; [done|]. split; [unfold inside in Hin; lia | done].
  - rewrite Hlen. do 2 f_equal. unfold cells. f_equal. nia.
Qed.

End Drawing.

(** X17.  [drawCells] fills one rectangle per live cell of the grid and none
    for a dead cell: a rectangle is drawn iff it is the one of a live cell,
    and the number of rectangles drawn is the population. *)
Theorem drawCells_one_per_live_cell (game : GameOfLife) (r : CanvasRenderer.t) :
  wf game →
  (∀ f, f ∈ drawCells game r
        ↔ ∃ x y, (0 <= x < width game ∧ 0 <= y < height game)
                 ∧ getCell x y game = true ∧ f = cellFill r x y)
  ∧ Z.of_nat (length (drawCells game r)) = getPopulation game.
Proof.
  intros Hwf. destruct (drawCells_spec game r Hwf) as [Hmem Hlen]. split.
  - intros f. rewrite Hmem. split.
    + intros (x & y & Hin & _ & Hl & ->). by exists x, y.
    + intros (x & y & Hin & Hl & ->). by exists x, y.
  - rewrite Hlen, take_ge; [done|].
    destruct Hwf as (_ & _ & _ & _ & _ & -> & _). done.
Qed.

Lemma drawCells_one_per_live_cell_witness :
  wf sample_blinker
  ∧ (∀ f, f ∈ drawCells sample_blinker sample_renderer
          ↔ ∃ x y, (0 <= x < width sample_blinker ∧ 0 <= y < height sample_blinker)
                   ∧ getCell x y sample_blinker = true
                   ∧ f = cellFill sample_renderer x y)
  ∧ Z.of_nat (length (drawCells sample_blinker sample_renderer))
    = getPopulation sample_blinker.
Proof.
  assert (wf sample_blinker) as Hwf
    by (apply (bool_decide_unpack _); vm_compute; exact I).
  split; [exact Hwf|].
  exact (drawCells_one_per_live_cell sample_blinker sample_renderer Hwf).
Defined.

(** X18.  Every rectangle [drawCells] fills lies inside the square of a live
    cell and so inside the area of the grid; and when the grid lines are
    shown and the cells are larger than 6 pixels it is not empty and keeps
    1 pixel away from the left and top edge of the square, where the lines
    run. *)
Theorem drawCells_inside_squares (game : GameOfLife) (r : CanvasRenderer.t) :
  wf game → 0 <= CanvasRenderer.cellSize r →
  let cs := CanvasRenderer.cellSize r in
  let ox := CanvasRenderer.offsetX r in
  let oy := CanvasRenderer.offsetY r in
  ∀ f, f ∈ drawCells game r →
    (ox <= fillX f ∧ fillX f + fillW f <= ox + width game * cs
     ∧ oy <= fillY f ∧ fillY f + fillH f <= oy + height game * cs)
    ∧ ∃ x y, getCell x y game = true
             ∧ (ox + x * cs <= fillX f ∧ fillX f + fillW f <= ox + (x + 1) * cs
                ∧ oy + y * cs <= fillY f ∧ fillY f + fillH f <= oy + (y + 1) * cs)
             ∧ (CanvasRenderer.showGrid r = true → 6 < cs →
                ox + x * cs < fillX f ∧ oy + y * cs < fillY f
                ∧ 0 < fillW f ∧ 0 < fillH f).
Proof.
  intros Hwf Hcs cs ox oy f Hf.
  destruct (drawCells_spec game r Hwf) as [Hmem _].
  apply Hmem in Hf as (x & y & [Hx Hy] & _ & Hlive & ->).
  unfold cellFill. fold cs ox oy.
  destruct (CanvasRenderer.showGrid r) eqn:Hshow;
    destruct (Z.gtb_spec cs 6); simpl;
    (split; [nia|]); exists x, y; (split; [done|]); (split; [nia|]);
    intros; (done || nia).
Qed.

Lemma drawCells_inside_squares_witness :
  (wf sample_blinker ∧ 0 <= CanvasRenderer.cellSize sample_renderer)
  ∧ let cs := CanvasRenderer.cellSize sample_renderer in
    let ox := CanvasRenderer.offsetX sample_renderer in
    let oy := CanvasRenderer.offsetY sample_renderer in
    ∀ f, f ∈ drawCells sample_blinker sample_renderer →
      (ox <= fillX f ∧ fillX f + fillW f <= ox + width sample_blinker * cs
       ∧ oy <= fillY f ∧ fillY f + fillH f <= oy + height sample_blinker * cs)
      ∧ ∃ x y, getCell x y sample_blinker = true
               ∧ (ox + x * cs <= fillX f ∧ fillX f + fillW f <= ox + (x + 1) * cs
                  ∧ oy + y * cs <= fillY f
                  ∧ fillY f + fillH f <= oy + (y + 1) * cs)
               ∧ (CanvasRenderer.showGrid sample_renderer = true → 6 < cs →
                  ox + x * cs < fillX f ∧ oy + y * cs < fillY f
                  ∧ 0 < fillW f ∧ 0 < fillH f).
Proof.
  assert (wf sample_blinker) as Hwf
    by (apply (bool_decide_unpack _); vm_compute; exact I).
  assert (0 <= CanvasRenderer.cellSize sample_renderer) as Hcs
    by (vm_compute; discriminate).
  split; [split; [exact Hwf | exact Hcs]|].
  exact (drawCells_inside_squares sample_blinker sample_renderer Hwf Hcs).
Defined.

(** ** Pointer positions *)

Section Pointer.
Import CanvasRenderer.
Implicit Types (game : GameOfLife) (r : t) (rect : DOMRect).

(** The quotient of a number that lies in the [k]-th stretch of length
    [c]. *)
Lemma div_in_stretch (n c k : Z) :
  0 < c → k * c <= n < (k + 1) * c → n / c = k.
Proof. intros Hc Hn. symmetry. apply (Z.div_unique n c k (n - k * c)); lia. Qed.

Lemma div_below (n c : Z) : 0 < c → n < 0 → n / c < 0.
Proof. intros Hc Hn. apply Z.div_lt_upper_bound; lia. Qed.

Lemma div_beyond (n c w : Z) : 0 < c → w * c <= n → w <= n / c.
Proof. intros Hc Hn. apply Z.div_le_lower_bound; lia. Qed.

End Pointer.

(** X19.  Pointer mapping undoes cell placement: every pixel of the square
    in which [drawCells] draws the cell (x, y) of the grid is mapped by
    [canvasToGrid] back to (x, y), for any cell size of at least 1. *)
Theorem canvasToGrid_of_cell_square
  (rect : CanvasRenderer.DOMRect) (game : GameOfLife) (r : CanvasRenderer.t)
  (x y canvasX canvasY : Z) :
  1 <= CanvasRenderer.cellSize r →
  0 <= x < width game → 0 <= y < height game →
  let cs := CanvasRenderer.cellSize r in
  let px := canvasX - CanvasRenderer.rect_left rect in
  let py := canvasY - CanvasRenderer.rect_top rect in
  CanvasRenderer.offsetX r + x * cs <= px < CanvasRenderer.offsetX r + (x + 1) * cs →
  CanvasRenderer.offsetY r + y * cs <= py < CanvasRenderer.offsetY r + (y + 1) * cs →
  CanvasRenderer.canvasToGrid rect canvasX canvasY game r = (x, y).
Proof.
  intros Hcs Hx Hy cs px py Hpx Hpy. unfold CanvasRenderer.canvasToGrid.
  assert ((canvasX - CanvasRenderer.rect_left rect - CanvasRenderer.offsetX r)
            / CanvasRenderer.cellSize r = x) as ->
    by (apply div_in_stretch; unfold cs, px in *; lia).
  assert ((canvasY - CanvasRenderer.rect_top rect - CanvasRenderer.offsetY r)
            / CanvasRenderer.cellSize r = y) as ->
    by (apply div_in_stretch; unfold cs, py in *; lia).
  f_equal; lia.
Qed.

Lemma canvasToGrid_of_cell_square_witness :
  (1 <= CanvasRenderer.cellSize sample_renderer
   ∧ 0 <= 2 < width sample_empty ∧ 0 <= 1 < height sample_empty
   ∧ CanvasRenderer.offsetX sample_renderer
       + 2 * CanvasRenderer.cellSize sample_renderer
     <= 387 - 10
     < CanvasRenderer.offsetX sample_renderer
       + (2 + 1) * CanvasRenderer.cellSize sample_renderer
   ∧ CanvasRenderer.offsetY sample_renderer
       + 1 * CanvasRenderer.cellSize sample_renderer
     <= 280 - 5
     < CanvasRenderer.offsetY sample_renderer
       + (1 + 1) * CanvasRenderer.cellSize sample_renderer)
  ∧ CanvasRenderer.canvasToGrid (CanvasRenderer.mkRect 10 5) 387 280
      sample_empty sample_renderer = (2, 1).
Proof.
  assert (1 <= CanvasRenderer.cellSize sample_renderer) as Hcs
    by (vm_compute; discriminate).
  assert (0 <= 2 < width sample_empty) as Hx
    by (vm_compute; split; discriminate || reflexivity).
  assert (0 <= 1 < height sample_empty) as Hy
    by (vm_compute; split; discriminate || reflexivity).
  assert (CanvasRenderer.offsetX sample_renderer
            + 2 * CanvasRenderer.cellSize sample_renderer
          <= 387 - 10
          < CanvasRenderer.offsetX sample_renderer
            + (2 + 1) * CanvasRenderer.cellSize sample_renderer) as Hpx
    by (vm_compute; split; discriminate || reflexivity).
  assert (CanvasRenderer.offsetY sample_renderer
            + 1 * CanvasRenderer.cellSize sample_renderer
          <= 280 - 5
          < CanvasRenderer.offsetY sample_renderer
            + (1 + 1) * CanvasRenderer.cellSize sample_renderer) as Hpy
    by (vm_compute; split; discriminate || reflexivity).
  split; [split; [exact Hcs | split; [exact Hx | split; [exact Hy | split; [exact Hpx | exact Hpy]]]]|].
  exact (canvasToGrid_of_cell_square (CanvasRenderer.mkRect 10 5) sample_empty
           sample_renderer 2 1 387 280 Hcs Hx Hy Hpx Hpy).
Defined.

(** X20.  A pointer beside the drawn grid is taken for the nearest border
    cell: left of the grid it gives column 0, right of it the last column,
    above it row 0 and below it the last row. *)
Theorem canvasToGrid_beside_grid
  (rect : CanvasRenderer.DOMRect) (game : GameOfLife) (r : CanvasRenderer.t)
  (canvasX canvasY : Z) :
  1 <= CanvasRenderer.cellSize r → 1 <= width game → 1 <= height game →
  let cs := CanvasRenderer.cellSize r in
  let px := canvasX - CanvasRenderer.rect_left rect in
  let py := canvasY - CanvasRenderer.rect_top rect in
  let cell := CanvasRenderer.canvasToGrid rect canvasX canvasY game r in
  (px < CanvasRenderer.offsetX r → cell.1 = 0)
  ∧ (CanvasRenderer.offsetX r + width game * cs <= px → cell.1 = width game - 1)
  ∧ (py < CanvasRenderer.offsetY r → cell.2 = 0)
  ∧ (CanvasRenderer.offsetY r + height game * cs <= py → cell.2 = height game - 1).
Proof.
  intros Hcs Hw Hh cs px py cell. unfold cell, CanvasRenderer.canvasToGrid.
  fold cs px py. simpl.
  split; [|split; [|split]]; intros Hp.
  - pose proof (div_below (px - CanvasRenderer.offsetX r) cs ltac:(lia) ltac:(lia)).
    replace (canvasX - CanvasRenderer.rect_left rect - CanvasRenderer.offsetX r)
      with (px - CanvasRenderer.offsetX r) by done. lia.
  - pose proof (div_beyond (px - CanvasRenderer.offsetX r) cs (width game)
                  ltac:(lia) ltac:(lia)).
    replace (canvasX - CanvasRenderer.rect_left rect - CanvasRenderer.offsetX r)
      with (px - CanvasRenderer.offsetX r) by done. lia.
  - pose proof (div_below (py - CanvasRenderer.offsetY r) cs ltac:(lia) ltac:(lia)).
    replace (canvasY - CanvasRenderer.rect_top rect - CanvasRenderer.offsetY r)
      with (py - CanvasRenderer.offsetY r) by done. lia.
  - pose proof (div_beyond (py - CanvasRenderer.offsetY r) cs (height game)
                  ltac:(lia) ltac:(lia)).
    replace (canvasY - CanvasRenderer.rect_top rect - CanvasRenderer.offsetY r)
      with (py - CanvasRenderer.offsetY r) by done. lia.
Qed.

Lemma canvasToGrid_beside_grid_witness :
  (1 <= CanvasRenderer.cellSize sample_renderer
   ∧ 1 <= width sample_empty ∧ 1 <= height sample_empty)
  ∧ let cs := CanvasRenderer.cellSize sample_renderer in
    let px := 3 - CanvasRenderer.rect_left (CanvasRenderer.mkRect 0 0) in
    let py := 599 - CanvasRenderer.rect_top (CanvasRenderer.mkRect 0 0) in
    let cell := CanvasRenderer.canvasToGrid (CanvasRenderer.mkRect 0 0) 3 599
                  sample_empty sample_renderer in
    (px < CanvasRenderer.offsetX sample_renderer → cell.1 = 0)
    ∧ (CanvasRenderer.offsetX sample_renderer + width sample_empty * cs <= px →
       cell.1 = width sample_empty - 1)
    ∧ (py < CanvasRenderer.offsetY sample_renderer → cell.2 = 0)
    ∧ (CanvasRenderer.offsetY sample_renderer + height sample_empty * cs <= py →
       cell.2 = height sample_empty - 1).
Proof.
  assert (1 <= CanvasRenderer.cellSize sample_renderer) as Hcs
    by (vm_compute; discriminate).
  assert (1 <= width sample_empty) as Hw by (vm_compute; discriminate).
  assert (1 <= height sample_empty) as Hh by (vm_compute; discriminate).
  split; [split; [exact Hcs | split; [exact Hw | exact Hh]]|].
  exact (canvasToGrid_beside_grid (CanvasRenderer.mkRect 0 0) sample_empty
           sample_renderer 3 599 Hcs Hw Hh).
Defined.

(** ** Layout *)

(** X21.  [calculateCellSize] centres the grid: the margin right of the grid
    is the left margin or one pixel more, and likewise below and above; and
    whenever the cell size that fits is at least 4, the grid lies within the
    surface (both margins are at least 0).  Only when the size is raised to
    the floor of 4 can the grid be larger than the surface. *)
Theorem calculateCellSize_centres
  (win : CanvasRenderer.Window) (game : GameOfLife) (r : CanvasRenderer.t) :
  1 <= width game → 1 <= height game →
  let surfaceWidth := CanvasRenderer.availableWidth win r in
  let surfaceHeight := CanvasRenderer.availableHeight win r in
  let r' := CanvasRenderer.calculateCellSize win game r in
  let gridWidth := width game * CanvasRenderer.cellSize r' in
  let gridHeight := height game * CanvasRenderer.cellSize r' in
  let left := CanvasRenderer.offsetX r' in
  let right := surfaceWidth - (CanvasRenderer.offsetX r' + gridWidth) in
  let top := CanvasRenderer.offsetY r' in
  let bottom := surfaceHeight - (CanvasRenderer.offsetY r' + gridHeight) in
  (left <= right <= left + 1 ∧ top <= bottom <= top + 1)
  ∧ (4 <= Z.min (Z.min (surfaceWidth / width game) (surfaceHeight / height game)) 20 →
     0 <= left ∧ 0 <= right ∧ 0 <= top ∧ 0 <= bottom).
Proof.
  intros Hw Hh surfaceWidth surfaceHeight r' gridWidth gridHeight
         left right top bottom.
  assert (left = (surfaceWidth - gridWidth) / 2) as Hleft.
  { unfold left, gridWidth, r', CanvasRenderer.calculateCellSize.
    by destruct (_ <? 4). }
  assert (top = (surfaceHeight - gridHeight) / 2) as Htop.
  { unfold top, gridHeight, r', CanvasRenderer.calculateCellSize.
    by destruct (_ <? 4). }
  pose proof (Z.div_mod (surfaceWidth - gridWidth) 2 ltac:(lia)) as Hdx.
  pose proof (Z.mod_pos_bound (surfaceWidth - gridWidth) 2 ltac:(lia)) as Hmx.
  pose proof (Z.div_mod (surfaceHeight - gridHeight) 2 ltac:(lia)) as Hdy.
  pose proof (Z.mod_pos_bound (surfaceHeight - gridHeight) 2 ltac:(lia)) as Hmy.
  split; [unfold right, bottom; lia|].
  intros Hfit.
  destruct (calculateCellSize_cases win game r) as [(Hc & _)|(_ & Hs & _)];
    [unfold CanvasRenderer.fittingCellSize in Hc;
     fold surfaceWidth surfaceHeight in Hc; lia|].
  fold r' in Hs. unfold CanvasRenderer.fittingCellSize in Hs.
  fold surfaceWidth surfaceHeight in Hs.
  pose proof (Z.mul_div_le surfaceWidth (width game) ltac:(lia)) as Hqx.
  pose proof (Z.mul_div_le surfaceHeight (height game) ltac:(lia)) as Hqy.
  assert (0 <= CanvasRenderer.cellSize r') as Hpos by lia.
  assert (gridWidth <= surfaceWidth) as Hgw.
  { unfold gridWidth.
    assert (width game * CanvasRenderer.cellSize r'
            <= width game * (surfaceWidth / width game))
      by (apply Z.mul_le_mono_nonneg_l; lia). lia. }
  assert (gridHeight <= surfaceHeight) as Hgh.
  { unfold gridHeight.
    assert (height game * CanvasRenderer.cellSize r'
            <= height game * (surfaceHeight / height game))
      by (apply Z.mul_le_mono_nonneg_l; lia). lia. }
  unfold right, bottom. lia.
Qed.

Lemma calculateCellSize_centres_witness :
  (1 <= width sample_empty ∧ 1 <= height sample_empty)
  ∧ let win := CanvasRenderer.mkWindow 801 600 in
    let r := CanvasRenderer.mkRenderer 10 true 0 0 None None in
    let surfaceWidth := CanvasRenderer.availableWidth win r in
    let surfaceHeight := CanvasRenderer.availableHeight win r in
    let r' := CanvasRenderer.calculateCellSize win sample_empty r in
    let gridWidth := width sample_empty * CanvasRenderer.cellSize r' in
    let gridHeight := height sample_empty * CanvasRenderer.cellSize r' in
    let left := CanvasRenderer.offsetX r' in
    let right := surfaceWidth - (CanvasRenderer.offsetX r' + gridWidth) in
    let top := CanvasRenderer.offsetY r' in
    let bottom := surfaceHeight - (CanvasRenderer.offsetY r' + gridHeight) in
    (left <= right <= left + 1 ∧ top <= bottom <= top + 1)
    ∧ (4 <= Z.min (Z.min (surfaceWidth / width sample_empty)
                         (surfaceHeight / height sample_empty)) 20 →
       0 <= left ∧ 0 <= right ∧ 0 <= top ∧ 0 <= bottom).
Proof.
  assert (1 <= width sample_empty) as Hw by (vm_compute; discriminate).
  assert (1 <= height sample_empty) as Hh by (vm_compute; discriminate).
  split; [split; [exact Hw | exact Hh]|].
  exact (calculateCellSize_centres (CanvasRenderer.mkWindow 801 600) sample_empty
           (CanvasRenderer.mkRenderer 10 true 0 0 None None) Hw Hh).
Defined.

(** X22.  [setupHighDPI], which [resize] and the constructor run, computes
    the layout from the viewport and the grid alone: whatever cell size,
    grid-line flag, offsets or logical size the renderer held before, a
    changed cell size from [updateSettings] included, the result is the
    same, with a cell size of min(floor(innerWidth / width),
    floor(innerHeight / height), 20) raised to at least 4. *)
Theorem setupHighDPI_from_viewport
  (win : CanvasRenderer.Window) (game : GameOfLife) (r1 r2 : CanvasRenderer.t) :
  1 <= width game → 1 <= height game →
  CanvasRenderer.setupHighDPI win game r1 = CanvasRenderer.setupHighDPI win game r2
  ∧ CanvasRenderer.cellSize (CanvasRenderer.setupHighDPI win game r1)
    = Z.max 4 (Z.min (Z.min (CanvasRenderer.innerWidth win / width game)
                            (CanvasRenderer.innerHeight win / height game)) 20)
  ∧ CanvasRenderer.new_CanvasRenderer win game
    = CanvasRenderer.setupHighDPI win game r1.
Proof.
  intros _ _.
  assert (∀ r, CanvasRenderer.setupHighDPI win game r
               = CanvasRenderer.setupHighDPI win game r1) as Hsame.
  { intros r. unfold CanvasRenderer.setupHighDPI, CanvasRenderer.calculateCellSize.
    rewrite !setupHighDPI_available.
    unfold CanvasRenderer.availableWidth, CanvasRenderer.availableHeight. simpl.
    done. }
  split; [by rewrite (Hsame r2)|]. split; [|apply Hsame].
  unfold CanvasRenderer.setupHighDPI.
  destruct (calculateCellSize_cases win game
              (CanvasRenderer.mkRenderer (CanvasRenderer.cellSize r1)
                 (CanvasRenderer.showGrid r1) 0 0
                 (Some (CanvasRenderer.innerWidth win))
                 (Some (CanvasRenderer.innerHeight win))))
    as [(Hc & -> & _)|(Hc & -> & _)];
    rewrite setupHighDPI_available in *; lia.
Qed.

Lemma setupHighDPI_from_viewport_witness :
  (1 <= width sample_empty ∧ 1 <= height sample_empty)
  ∧ let win := CanvasRenderer.mkWindow 320 200 in
    let r1 := CanvasRenderer.updateSettings (Some 50) (Some false) sample_renderer in
    let r2 := sample_renderer in
    CanvasRenderer.setupHighDPI win sample_empty r1
    = CanvasRenderer.setupHighDPI win sample_empty r2
    ∧ CanvasRenderer.cellSize (CanvasRenderer.setupHighDPI win sample_empty r1)
      = Z.max 4 (Z.min (Z.min (CanvasRenderer.innerWidth win / width sample_empty)
                              (CanvasRenderer.innerHeight win / height sample_empty))
                       20)
    ∧ CanvasRenderer.new_CanvasRenderer win sample_empty
      = CanvasRenderer.setupHighDPI win sample_empty r1.
Proof.
  assert (1 <= width sample_empty) as Hw by (vm_compute; discriminate).
  assert (1 <= height sample_empty) as Hh by (vm_compute; discriminate).
  split; [split; [exact Hw | exact Hh]|].
  exact (setupHighDPI_from_viewport (CanvasRenderer.mkWindow 320 200) sample_empty
           (CanvasRenderer.updateSettings (Some 50) (Some false) sample_renderer)
           sample_renderer Hw Hh).
Defined.

(** * The GameControls.controls *)

Section Controls.
Implicit Types (a : GameControls.App) (c : GameControls.t) (e : GameControls.Event).

Lemma consistent_updateButtonStates c :
  50 <= GameControls.animationSpeed c <= 2000 → GameControls.consistent (GameControls.updateButtonStates c).
Proof. intros Hs. by split. Qed.

Lemma animate_cases currentTime handle a :
  GameControls.animate currentTime handle a = a ∧ GameControls.isRunning (GameControls.controls a) = false
  ∨ (GameControls.isRunning (GameControls.controls a) = true
     ∧ Qle_bool (inject_Z (GameControls.animationSpeed (GameControls.controls a)))
                (currentTime - GameControls.lastStepTime (GameControls.controls a)) = true
     ∧ GameControls.animate currentTime handle a
       = GameControls.mkApp (GameControls.mkControls true (Some handle) (GameControls.animationSpeed (GameControls.controls a))
                           currentTime true false true)
               (step (GameControls.game a)) (GameControls.renderer a))
  ∨ (GameControls.isRunning (GameControls.controls a) = true
     ∧ Qle_bool (inject_Z (GameControls.animationSpeed (GameControls.controls a)))
                (currentTime - GameControls.lastStepTime (GameControls.controls a)) = false
     ∧ GameControls.animate currentTime handle a
       = GameControls.mkApp (GameControls.mkControls true (Some handle) (GameControls.animationSpeed (GameControls.controls a))
                           (GameControls.lastStepTime (GameControls.controls a))
                           (GameControls.playDisabled (GameControls.controls a)) (GameControls.pauseDisabled (GameControls.controls a))
                           (GameControls.stepDisabled (GameControls.controls a)))
               (GameControls.game a) (GameControls.renderer a)).
Proof.
  unfold GameControls.animate. destruct (GameControls.isRunning (GameControls.controls a)) eqn:Hrun; simpl; [|by left].
  right. destruct (Qle_bool _ _) eqn:Hdue; [left | right]; simpl;
    rewrite ?Hrun; done.
Qed.

Lemma pause_cases a :
  GameControls.pause a = a ∧ GameControls.isRunning (GameControls.controls a) = false
  ∨ (GameControls.isRunning (GameControls.controls a) = true
     ∧ GameControls.pause a = GameControls.mkApp (GameControls.mkControls false None (GameControls.animationSpeed (GameControls.controls a))
                                   (GameControls.lastStepTime (GameControls.controls a)) false true false)
                       (GameControls.game a) (GameControls.renderer a)).
Proof.
  unfold GameControls.pause. destruct (GameControls.isRunning (GameControls.controls a)) eqn:Hrun; simpl; [|by left].
  right. split; [done|]. by destruct (GameControls.animationId (GameControls.controls a)).
Qed.

(** Every event leaves the GameControls.controls GameControls.consistent, the engine well formed and
    the dimensions of the grid as they are. *)
Lemma dispatch_keeps e a :
  GameControls.consistent (GameControls.controls a) → wf (GameControls.game a) →
  GameControls.consistent (GameControls.controls (GameControls.dispatch e a)) ∧ wf (GameControls.game (GameControls.dispatch e a))
  ∧ width (GameControls.game (GameControls.dispatch e a)) = width (GameControls.game a)
  ∧ height (GameControls.game (GameControls.dispatch e a)) = height (GameControls.game a).
Proof.
  intros Hc Hwf. pose proof Hc as (Hs & Hp & Hq & Hst).
  assert (∀ g, wf g → width g = width (GameControls.game a) → height g = height (GameControls.game a) →
            let a' := GameControls.updateUIWithAnimation (GameControls.with_game g a) in
            GameControls.consistent (GameControls.controls a') ∧ wf (GameControls.game a')
            ∧ width (GameControls.game a') = width (GameControls.game a)
            ∧ height (GameControls.game a') = height (GameControls.game a)) as Hgame.
  { intros g Hg Hw Hh. simpl. split; [|done]. by apply consistent_updateButtonStates. }
  assert (let a' := GameControls.pause a in
          GameControls.consistent (GameControls.controls a') ∧ wf (GameControls.game a')
          ∧ width (GameControls.game a') = width (GameControls.game a)
          ∧ height (GameControls.game a') = height (GameControls.game a)) as Hpause.
  { destruct (pause_cases a) as [[-> _]|[_ ->]]; [done|]. simpl.
    split; [|done]. by split. }
  assert (∀ t h, let a' := GameControls.animate t h a in
          GameControls.consistent (GameControls.controls a') ∧ wf (GameControls.game a')
          ∧ width (GameControls.game a') = width (GameControls.game a)
          ∧ height (GameControls.game a') = height (GameControls.game a)) as Hanimate.
  { intros t h. destruct (animate_cases t h a) as [[-> _]|[(Hr & _ & ->)|(Hr & _ & ->)]];
      [done| |].
    - simpl. destruct (step_dims (GameControls.game a) Hwf) as (Hw & Hh & _).
      split; [by split|]. split; [by apply wf_step|done].
    - simpl. split; [|done]. unfold GameControls.consistent. simpl. by rewrite Hp, Hq, Hst, Hr. }
  assert (∀ h, let a' := GameControls.play h a in
          GameControls.consistent (GameControls.controls a') ∧ wf (GameControls.game a')
          ∧ width (GameControls.game a') = width (GameControls.game a)
          ∧ height (GameControls.game a') = height (GameControls.game a)) as Hplay.
  { intros h. unfold GameControls.play. destruct (GameControls.isRunning (GameControls.controls a)) eqn:Hrun; [done|].
    match goal with |- context [GameControls.animate 0 h ?b] => set (a1 := b) end.
    destruct (animate_cases 0 h a1) as [[_ Hr]|[(Hr & _ & ->)|(Hr & _ & ->)]];
      [done| |]; simpl.
    - destruct (step_dims (GameControls.game a) Hwf) as (Hw & Hh & _).
      split; [by split|]. split; [by apply wf_step|done].
    - split; [|done]. by split. }
  assert (∀ v, GameControls.consistent (GameControls.handleSpeedChange v (GameControls.controls a))) as Hspeed.
  { intros v. unfold GameControls.consistent. simpl. repeat split; (done || lia). }
  assert (let a' := GameControls.step a in
          GameControls.consistent (GameControls.controls a') ∧ wf (GameControls.game a')
          ∧ width (GameControls.game a') = width (GameControls.game a)
          ∧ height (GameControls.game a') = height (GameControls.game a)) as Hstep.
  { destruct (step_dims (GameControls.game a) Hwf) as (Hw & Hh & _).
    apply Hgame; [by apply wf_step | done | done]. }
  destruct e as [h| | | | |p|v|rect x y|rect touches|tag code cur h|t h| |coin|p|win];
    cbn [GameControls.dispatch].
  - apply Hplay.
  - apply Hpause.
  - apply Hstep.
  - apply Hpause.
  - apply Hpause.
  - apply Hpause.
  - split; [apply Hspeed | done].
  - unfold GameControls.handleCanvasClick, GameControls.toggleCellWithFeedback.
    match goal with |- context [toggleCell ?x ?y (GameControls.game a)] =>
      destruct (toggleCell_dims (GameControls.game a) x y) as (Hw & Hh & _) end.
    apply Hgame; [by apply wf_toggleCell | done | done].
  - unfold GameControls.handleCanvasTouch. destruct touches as [|touch [|]]; try done.
    unfold GameControls.toggleCellWithFeedback.
    match goal with |- context [toggleCell ?x ?y (GameControls.game a)] =>
      destruct (toggleCell_dims (GameControls.game a) x y) as (Hw & Hh & _) end.
    apply Hgame; [by apply wf_toggleCell | done | done].
  - unfold GameControls.handleKeyboard.
    destruct (String.eqb tag "INPUT"); [done|].
    destruct (String.eqb code "Space");
      [destruct (GameControls.isRunning (GameControls.controls a)); [apply Hpause | apply Hplay]|].
    destruct (String.eqb code "KeyS");
      [destruct (negb (GameControls.isRunning (GameControls.controls a))); [apply Hstep | done]|].
    destruct (String.eqb code "KeyC"); [apply Hpause|].
    destruct (String.eqb code "KeyR"); [apply Hpause|].
    destruct (String.eqb code "ArrowUp"); [split; [apply Hspeed | done]|].
    destruct (String.eqb code "ArrowDown"); [split; [apply Hspeed | done]|].
    done.
  - apply Hanimate.
  - apply Hgame; [by apply wf_clear | done | done].
  - destruct (randomize_dims coin (GameControls.game a) Hwf) as [Hw Hh].
    apply Hgame; [by apply wf_randomize | done | done].
  - unfold GameControls.loadPatternFired.
    match goal with |- context [loadPattern p ?x ?y (GameControls.game a)] =>
      destruct (loadPattern_dims p x y (GameControls.game a)) as [Hw Hh];
      destruct (loadPattern_stamp p x y (GameControls.game a) Hwf) as [Hwf' _] end.
    by apply Hgame.
  - done.
Qed.

Lemma run_keeps es a :
  GameControls.consistent (GameControls.controls a) → wf (GameControls.game a) →
  GameControls.consistent (GameControls.controls (GameControls.run es a)) ∧ wf (GameControls.game (GameControls.run es a))
  ∧ width (GameControls.game (GameControls.run es a)) = width (GameControls.game a)
  ∧ height (GameControls.game (GameControls.run es a)) = height (GameControls.game a).
Proof.
  revert a. induction es as [|e es IH]; intros a Hc Hwf; [done|].
  change (GameControls.run (e :: es) a)
    with (GameControls.run es (GameControls.dispatch e a)).
  destruct (dispatch_keeps e a Hc Hwf) as (Hc' & Hwf' & Hw & Hh).
  destruct (IH (GameControls.dispatch e a) Hc' Hwf') as (? & ? & -> & ->). done.
Qed.

End Controls.

(** X23.  A click on the canvas toggles exactly one cell, and that cell lies
    in the grid wherever the click lands: the cell [canvasToGrid] gives is
    flipped, every other cell is as before, the population changes by one,
    and the renderer and the running state are untouched. *)
Theorem click_toggles_one_cell
  (rect : CanvasRenderer.DOMRect) (clientX clientY : Z) (a : GameControls.App) :
  wf (GameControls.game a) →
  1 <= width (GameControls.game a) → 1 <= height (GameControls.game a) →
  let g := GameControls.game a in
  let cell := CanvasRenderer.canvasToGrid rect clientX clientY g
                (GameControls.renderer a) in
  let a' := GameControls.handleCanvasClick rect clientX clientY a in
  let g' := GameControls.game a' in
  (0 <= cell.1 < width g ∧ 0 <= cell.2 < height g)
  ∧ getCell cell.1 cell.2 g' = negb (getCell cell.1 cell.2 g)
  ∧ (∀ x y, (x, y) ≠ cell → getCell x y g' = getCell x y g)
  ∧ getPopulation g' = getPopulation g + (if getCell cell.1 cell.2 g then -1 else 1)
  ∧ GameControls.renderer a' = GameControls.renderer a
  ∧ GameControls.isRunning (GameControls.controls a')
    = GameControls.isRunning (GameControls.controls a).
Proof.
  intros Hwf Hw Hh g cell a' g'.
  assert (0 <= cell.1 < width g ∧ 0 <= cell.2 < height g) as [Hx Hy].
  { unfold cell, CanvasRenderer.canvasToGrid, g in *. simpl. lia. }
  assert (inside g cell.1 cell.2) as Hin by done.
  assert (g' = toggleCell cell.1 cell.2 g) as -> by done.
  split; [done|]. split; [|split; [|split; [|done]]].
  - rewrite toggleCell_setCell, getCell_setCell by done. by rewrite decide_True.
  - intros x y Hne. rewrite toggleCell_setCell, getCell_setCell by done.
    rewrite decide_False; [done|]. intros (_ & -> & ->). by destruct cell.
  - rewrite toggleCell_setCell, getPopulation_setCell by done.
    destruct (getCell cell.1 cell.2 g); simpl; lia.
Qed.

Lemma click_toggles_one_cell_witness :
  (wf (GameControls.game sample_app)
   ∧ 1 <= width (GameControls.game sample_app)
   ∧ 1 <= height (GameControls.game sample_app))
  ∧ let g := GameControls.game sample_app in
    let cell := CanvasRenderer.canvasToGrid (CanvasRenderer.mkRect 0 0) 5 9999 g
                  (GameControls.renderer sample_app) in
    let a' := GameControls.handleCanvasClick (CanvasRenderer.mkRect 0 0) 5 9999
                sample_app in
    let g' := GameControls.game a' in
    (0 <= cell.1 < width g ∧ 0 <= cell.2 < height g)
    ∧ getCell cell.1 cell.2 g' = negb (getCell cell.1 cell.2 g)
    ∧ (∀ x y, (x, y) ≠ cell → getCell x y g' = getCell x y g)
    ∧ getPopulation g'
      = getPopulation g + (if getCell cell.1 cell.2 g then -1 else 1)
    ∧ GameControls.renderer a' = GameControls.renderer sample_app
    ∧ GameControls.isRunning (GameControls.controls a')
      = GameControls.isRunning (GameControls.controls sample_app).
Proof.
  assert (wf (GameControls.game sample_app)) as Hwf
    by (apply (bool_decide_unpack _); vm_compute; exact I).
  assert (1 <= width (GameControls.game sample_app)) as Hw
    by (vm_compute; discriminate).
  assert (1 <= height (GameControls.game sample_app)) as Hh
    by (vm_compute; discriminate).
  split; [split; [exact Hwf | split; [exact Hw | exact Hh]]|].
  exact (click_toggles_one_cell (CanvasRenderer.mkRect 0 0) 5 9999 sample_app
           Hwf Hw Hh).
Defined.

(** X24.  A second click at the same place undoes the first: the engine is
    back in the very state it had before the two clicks. *)
Theorem click_twice_restores
  (rect : CanvasRenderer.DOMRect) (clientX clientY : Z) (a : GameControls.App) :
  wf (GameControls.game a) →
  GameControls.game
    (GameControls.handleCanvasClick rect clientX clientY
       (GameControls.handleCanvasClick rect clientX clientY a))
  = GameControls.game a.
Proof.
  intros Hwf.
  set (g := GameControls.game a). set (r := GameControls.renderer a).
  set (c := CanvasRenderer.canvasToGrid rect clientX clientY g r).
  set (a1 := GameControls.handleCanvasClick rect clientX clientY a).
  assert (GameControls.game a1 = toggleCell c.1 c.2 g) as Hg1 by done.
  assert (GameControls.renderer a1 = r) as Hr1 by done.
  assert (GameControls.game (GameControls.handleCanvasClick rect clientX clientY a1)
          = toggleCell
              (CanvasRenderer.canvasToGrid rect clientX clientY
                 (GameControls.game a1) (GameControls.renderer a1)).1
              (CanvasRenderer.canvasToGrid rect clientX clientY
                 (GameControls.game a1) (GameControls.renderer a1)).2
              (GameControls.game a1)) as -> by done.
  rewrite Hr1, Hg1.
  assert (CanvasRenderer.canvasToGrid rect clientX clientY (toggleCell c.1 c.2 g) r
          = c) as ->.
  { pose proof (toggleCell_dims g c.1 c.2) as (Hw & Hh & _).
    unfold CanvasRenderer.canvasToGrid. rewrite Hw, Hh. reflexivity. }
  by apply toggleCell_twice.
Qed.

Lemma click_twice_restores_witness :
  wf (GameControls.game sample_app)
  ∧ GameControls.game
      (GameControls.handleCanvasClick (CanvasRenderer.mkRect 0 0) 400 300
         (GameControls.handleCanvasClick (CanvasRenderer.mkRect 0 0) 400 300
            sample_app))
    = GameControls.game sample_app.
Proof.
  assert (wf (GameControls.game sample_app)) as Hwf
    by (apply (bool_decide_unpack _); vm_compute; exact I).
  split; [exact Hwf|].
  exact (click_twice_restores (CanvasRenderer.mkRect 0 0) 400 300 sample_app Hwf).
Defined.

(** X25.  Whatever events reach the controls after their construction
    (buttons, keys, slider, clicks, touches, animation frames, timers, in
    any number and order), the delay between generations stays within 50
    and 2000 ms, the play and step buttons are disabled exactly while the
    animation runs and the pause button exactly while it does not, and the
    engine keeps its dimensions and its two buffers of width * height
    cells. *)
Theorem controls_stay_consistent
  (p q s : bool) (g : GameOfLife) (r : CanvasRenderer.t)
  (es : list GameControls.Event) :
  wf g →
  let a := GameControls.run es (GameControls.new_GameControls p q s g r) in
  let c := GameControls.controls a in
  50 <= GameControls.animationSpeed c <= 2000
  ∧ GameControls.playDisabled c = GameControls.isRunning c
  ∧ GameControls.pauseDisabled c = negb (GameControls.isRunning c)
  ∧ GameControls.stepDisabled c = GameControls.isRunning c
  ∧ wf (GameControls.game a)
  ∧ width (GameControls.game a) = width g
  ∧ height (GameControls.game a) = height g.
Proof.
  intros Hwf a c.
  assert (GameControls.consistent
            (GameControls.controls (GameControls.new_GameControls p q s g r)))
    as Hc0 by (unfold GameControls.consistent; simpl; repeat split; lia).
  destruct (run_keeps es _ Hc0 Hwf) as ((Hs & Hp & Hq & Hst) & Hwf' & Hw & Hh).
  done.
Qed.

Lemma controls_stay_consistent_witness :
  wf sample_blinker
  ∧ let a := GameControls.run
               [GameControls.EPlay 1; GameControls.EFrame 100 2;
                GameControls.ESpeed 5000; GameControls.EKey "BODY" "KeyC" 5000 3;
                GameControls.EClearFired]
               (GameControls.new_GameControls false false false
                  sample_blinker sample_renderer) in
    let c := GameControls.controls a in
    50 <= GameControls.animationSpeed c <= 2000
    ∧ GameControls.playDisabled c = GameControls.isRunning c
    ∧ GameControls.pauseDisabled c = negb (GameControls.isRunning c)
    ∧ GameControls.stepDisabled c = GameControls.isRunning c
    ∧ wf (GameControls.game a)
    ∧ width (GameControls.game a) = width sample_blinker
    ∧ height (GameControls.game a) = height sample_blinker.
Proof.
  assert (wf sample_blinker) as Hwf
    by (apply (bool_decide_unpack _); vm_compute; exact I).
  split; [exact Hwf|].
  exact (controls_stay_consistent false false false sample_blinker sample_renderer
           _ Hwf).
Defined.

Section Animation.
Implicit Types (a : GameControls.App) (frames : list (Q * positive)).

Lemma deliver_paused frames a :
  GameControls.isRunning (GameControls.controls a) = false →
  GameControls.deliver frames a = a.
Proof.
  intros Hrun. unfold GameControls.deliver.
  induction frames as [|[t h] frames IH]; [done|].
  change (GameControls.run (map _ ((t, h) :: frames)) a)
    with (GameControls.run (map (λ f, GameControls.EFrame f.1 f.2) frames)
            (GameControls.animate t h a)).
  destruct (animate_cases t h a) as [[-> _]|[(Hr & _)|(Hr & _)]];
    [done | congruence | congruence].
Qed.

Lemma deliver_throttled frames a :
  wf (GameControls.game a) →
  let a' := GameControls.deliver frames a in
  wf (GameControls.game a')
  ∧ GameControls.animationSpeed (GameControls.controls a')
    = GameControls.animationSpeed (GameControls.controls a)
  ∧ generation (GameControls.game a) <= generation (GameControls.game a')
  ∧ (inject_Z (GameControls.animationSpeed (GameControls.controls a))
     * inject_Z (generation (GameControls.game a')
                 - generation (GameControls.game a))
     <= GameControls.lastStepTime (GameControls.controls a')
        - GameControls.lastStepTime (GameControls.controls a))%Q.
Proof.
  unfold GameControls.deliver. revert a. induction frames as [|[t h] frames IH]; intros a Hwf.
  - simpl. split; [done|]. split; [done|]. split; [lia|].
    rewrite Z.sub_diag. change (inject_Z 0) with 0%Q. lra.
  - change (GameControls.run (map _ ((t, h) :: frames)) a)
      with (GameControls.run (map (λ f, GameControls.EFrame f.1 f.2) frames)
              (GameControls.animate t h a)).
    destruct (animate_cases t h a) as [[-> _]|[(Hr & Hdue & ->)|(Hr & Hdue & ->)]].
    + by apply IH.
    + match goal with |- context [GameControls.run _ ?b] => set (a1 := b) end.
      destruct (step_dims (GameControls.game a) Hwf) as (_ & _ & Hg).
      destruct (IH a1 (wf_step _ Hwf)) as (Hwf' & Hs & Hgen & Hbound).
      change (GameControls.game a1) with (step (GameControls.game a)) in Hgen, Hbound.
      change (GameControls.lastStepTime (GameControls.controls a1)) with t in Hbound.
      change (GameControls.animationSpeed (GameControls.controls a1))
        with (GameControls.animationSpeed (GameControls.controls a)) in Hs, Hbound.
      rewrite Hg in Hgen, Hbound. apply Qle_bool_iff in Hdue.
      split; [done|]. split; [done|]. split; [lia|].
      set (g' := generation (GameControls.game (GameControls.run _ a1))) in *.
      replace (g' - generation (GameControls.game a))
        with ((g' - (generation (GameControls.game a) + 1)) + 1) by lia.
      rewrite inject_Z_plus. change (inject_Z 1) with 1%Q. lra.
    + match goal with |- context [GameControls.run _ ?b] => set (a1 := b) end.
      destruct (IH a1 Hwf) as (Hwf' & Hs & Hgen & Hbound). done.
Qed.

End Animation.

(** X26.  The animation never runs faster than the delay allows: over any
    sequence of animation frames, the delay times the number of generations
    the engine has advanced is at most the time by which [lastStepTime] has
    moved on, and the generation counter never goes back. *)
Theorem animation_is_throttled
  (frames : list (Q * positive)) (a : GameControls.App) :
  wf (GameControls.game a) →
  let a' := GameControls.deliver frames a in
  generation (GameControls.game a) <= generation (GameControls.game a')
  ∧ (inject_Z (GameControls.animationSpeed (GameControls.controls a))
     * inject_Z (generation (GameControls.game a')
                 - generation (GameControls.game a))
     <= GameControls.lastStepTime (GameControls.controls a')
        - GameControls.lastStepTime (GameControls.controls a))%Q.
Proof.
  intros Hwf a'. by destruct (deliver_throttled frames a Hwf) as (_ & _ & ? & ?).
Qed.

Lemma animation_is_throttled_witness :
  wf (GameControls.game (GameControls.play 1 sample_app))
  ∧ let a := GameControls.play 1 sample_app in
    let a' := GameControls.deliver
                [(16 # 1, 2%positive); (60 # 1, 3%positive);
                 (77 # 1, 4%positive); (120 # 1, 5%positive)]%Q a in
    generation (GameControls.game a) <= generation (GameControls.game a')
    ∧ (inject_Z (GameControls.animationSpeed (GameControls.controls a))
       * inject_Z (generation (GameControls.game a')
                   - generation (GameControls.game a))
       <= GameControls.lastStepTime (GameControls.controls a')
          - GameControls.lastStepTime (GameControls.controls a))%Q.
Proof.
  assert (wf (GameControls.game (GameControls.play 1 sample_app))) as Hwf
    by (apply (bool_decide_unpack _); vm_compute; exact I).
  split; [exact Hwf|].
  exact (animation_is_throttled _ (GameControls.play 1 sample_app) Hwf).
Defined.

(** X27.  [play] starts the animation but never advances the engine
    itself: with a delay above 0 and a [lastStepTime] that is not negative,
    as they always are, the engine after [play] is the engine before it,
    and the controls are running with a frame requested. *)
Theorem play_does_not_step (handle : positive) (a : GameControls.App) :
  0 < GameControls.animationSpeed (GameControls.controls a) →
  (0 <= GameControls.lastStepTime (GameControls.controls a))%Q →
  GameControls.game (GameControls.play handle a) = GameControls.game a
  ∧ GameControls.isRunning (GameControls.controls (GameControls.play handle a))
    = true
  ∧ (GameControls.isRunning (GameControls.controls a) = false →
     GameControls.animationId (GameControls.controls (GameControls.play handle a))
     = Some handle).
Proof.
  intros Hs Hl. unfold GameControls.play.
  destruct (GameControls.isRunning (GameControls.controls a)) eqn:Hrun; [done|].
  match goal with |- context [GameControls.animate 0 handle ?b] => set (a1 := b) end.
  destruct (animate_cases 0 handle a1) as [[_ Hr]|[(_ & Hdue & _)|(_ & _ & ->)]];
    [done| |done].
  apply Qle_bool_iff in Hdue. simpl in Hdue.
  assert (0 < inject_Z (GameControls.animationSpeed (GameControls.controls a)))%Q
    by (change 0%Q with (inject_Z 0); by rewrite <- Zlt_Qlt).
  lra.
Qed.

Lemma play_does_not_step_witness :
  (0 < GameControls.animationSpeed (GameControls.controls sample_app)
   ∧ (0 <= GameControls.lastStepTime (GameControls.controls sample_app))%Q)
  ∧ GameControls.game (GameControls.play 1 sample_app)
    = GameControls.game sample_app
  ∧ GameControls.isRunning
      (GameControls.controls (GameControls.play 1 sample_app)) = true
  ∧ (GameControls.isRunning (GameControls.controls sample_app) = false →
     GameControls.animationId
       (GameControls.controls (GameControls.play 1 sample_app)) = Some 1%positive).
Proof.
  assert (0 < GameControls.animationSpeed (GameControls.controls sample_app))
    as Hs by (vm_compute; reflexivity).
  assert (0 <= GameControls.lastStepTime (GameControls.controls sample_app))%Q
    as Hl by (vm_compute; discriminate).
  split; [split; [exact Hs | exact Hl]|].
  exact (play_does_not_step 1 sample_app Hs Hl).
Defined.

(** X28.  After [pause] animation frames are inert: whatever frames still
    arrive, in whatever state the controls were, the application stays
    exactly as [pause] left it, not running, with the engine [pause] found. *)
Theorem frames_after_pause_are_inert
  (frames : list (Q * positive)) (a : GameControls.App) :
  GameControls.deliver frames (GameControls.pause a) = GameControls.pause a
  ∧ GameControls.isRunning (GameControls.controls (GameControls.pause a)) = false
  ∧ GameControls.animationId (GameControls.controls (GameControls.pause a))
    = (if GameControls.isRunning (GameControls.controls a) then None
       else GameControls.animationId (GameControls.controls a))
  ∧ GameControls.game (GameControls.pause a) = GameControls.game a.
Proof.
  assert (GameControls.isRunning (GameControls.controls (GameControls.pause a))
          = false) as Hrun
    by (destruct (pause_cases a) as [[-> ?]|[_ ->]]; done).
  split; [by apply deliver_paused|]. split; [done|].
  destruct (pause_cases a) as [[-> ->]|[-> ->]]; done.
Qed.

(** X29.  The pattern buttons place every template wholly inside the grid:
    on a grid at least 4 cells wide and 4 cells high, what the timer of
    [loadPattern] loads at (floor(width / 2) - 2, floor(height / 2) - 2) is
    the whole template, no cell of it being dropped at a border, at
    generation 0. *)
Theorem loadPattern_button_unclipped
  (name : string) (data : list (list Z)) (a : GameControls.App) :
  wf (GameControls.game a) →
  4 <= width (GameControls.game a) → 4 <= height (GameControls.game a) →
  patterns !! name = Some data →
  let g := GameControls.game a in
  let g' := GameControls.game (GameControls.loadPatternFired name a) in
  (∀ x y, getCell x y g'
          = templateAt data (x - (width g / 2 - 2)) (y - (height g / 2 - 2)))
  ∧ getGeneration g' = 0.
Proof.
  intros Hwf Hw Hh Hdata g g'.
  assert (g' = loadPattern name (width g / 2 - 2) (height g / 2 - 2) g) as ->
    by done.
  destruct (loadPattern_spec g name data (width g / 2 - 2) (height g / 2 - 2)
              Hwf Hdata) as (_ & _ & _ & Hg & Hcells).
  split; [|done]. intros x y. apply Bool.eq_true_iff_eq. rewrite Hcells.
  split; [tauto|]. intros Htrue. split; [|done].
  destruct (template_cells name data Hdata) as (cells & Hname & Htpl).
  assert (boxed 0 3 cells) as Hbox.
  { destruct Hname as [[_ ->]|[[_ ->]|[[_ ->]|[_ ->]]]];
      apply (bool_decide_unpack _); vm_compute; exact I. }
  rewrite Htpl, <- pattern_at_origin in Htrue.
  apply (fits_inside g cells (width g / 2 - 2) (height g / 2 - 2)); [|done].
  pose proof (Z.div_mod (width g) 2 ltac:(lia)) as Hdx.
  pose proof (Z.mod_pos_bound (width g) 2 ltac:(lia)) as Hmx.
  pose proof (Z.div_mod (height g) 2 ltac:(lia)) as Hdy.
  pose proof (Z.mod_pos_bound (height g) 2 ltac:(lia)) as Hmy.
  apply (boxed_fits g cells 0 3); [done| | | |]; unfold g in *; lia.
Qed.

Lemma loadPattern_button_unclipped_witness :
  (wf (GameControls.game sample_app)
   ∧ 4 <= width (GameControls.game sample_app)
   ∧ 4 <= height (GameControls.game sample_app)
   ∧ patterns !! "beacon"
     = Some [[1; 1; 0; 0]; [1; 1; 0; 0]; [0; 0; 1; 1]; [0; 0; 1; 1]])
  ∧ let g := GameControls.game sample_app in
    let g' := GameControls.game (GameControls.loadPatternFired "beacon" sample_app) in
    (∀ x y, getCell x y g'
            = templateAt [[1; 1; 0; 0]; [1; 1; 0; 0]; [0; 0; 1; 1]; [0; 0; 1; 1]]
                (x - (width g / 2 - 2)) (y - (height g / 2 - 2)))
    ∧ getGeneration g' = 0.
Proof.
  assert (wf (GameControls.game sample_app)) as Hwf
    by (apply (bool_decide_unpack _); vm_compute; exact I).
  assert (4 <= width (GameControls.game sample_app)) as Hw
    by (vm_compute; discriminate).
  assert (4 <= height (GameControls.game sample_app)) as Hh
    by (vm_compute; discriminate).
  assert (patterns !! "beacon"
          = Some [[1; 1; 0; 0]; [1; 1; 0; 0]; [0; 0; 1; 1]; [0; 0; 1; 1]])
    as Hdata by reflexivity.
  split; [split; [exact Hwf | split; [exact Hw | split; [exact Hh | exact Hdata]]]|].
  exact (loadPattern_button_unclipped "beacon" _ sample_app Hwf Hw Hh Hdata).
Defined.

(** X30.  While the animation is not running, moving the pointer over the
    canvas always highlights one cell of the grid, also when the pointer is
    beside the grid; the highlight is the square of that cell, and when the
    pointer is over the drawn grid the square highlighted is the one under
    the pointer.  While the animation runs nothing is highlighted. *)
Theorem hover_highlights_cell_under_pointer
  (rect : CanvasRenderer.DOMRect) (clientX clientY : Z) (a : GameControls.App) :
  1 <= CanvasRenderer.cellSize (GameControls.renderer a) →
  1 <= width (GameControls.game a) → 1 <= height (GameControls.game a) →
  let g := GameControls.game a in
  let r := GameControls.renderer a in
  let cs := CanvasRenderer.cellSize r in
  let px := clientX - CanvasRenderer.rect_left rect in
  let py := clientY - CanvasRenderer.rect_top rect in
  (GameControls.isRunning (GameControls.controls a) = true →
   handleCanvasHover rect clientX clientY a = None)
  ∧ (GameControls.isRunning (GameControls.controls a) = false →
     ∃ h x y, handleCanvasHover rect clientX clientY a = Some h
       ∧ (0 <= x < width g ∧ 0 <= y < height g)
       ∧ highlightBox h
         = (CanvasRenderer.offsetX r + x * cs, CanvasRenderer.offsetY r + y * cs,
            cs, cs)
       ∧ (CanvasRenderer.offsetX r <= px < CanvasRenderer.offsetX r + width g * cs →
          CanvasRenderer.offsetX r + x * cs <= px
          < CanvasRenderer.offsetX r + x * cs + cs)
       ∧ (CanvasRenderer.offsetY r <= py < CanvasRenderer.offsetY r + height g * cs →
          CanvasRenderer.offsetY r + y * cs <= py
          < CanvasRenderer.offsetY r + y * cs + cs)).
Proof.
  intros Hcs Hw Hh g r cs px py. fold g in Hw, Hh. fold r in Hcs. fold cs in Hcs.
  unfold handleCanvasHover. fold g r.
  split; [by intros ->|]. intros ->.
  destruct (CanvasRenderer.canvasToGrid rect clientX clientY g r) as [x y] eqn:Hc.
  assert (x = Z.max 0 (Z.min ((px - CanvasRenderer.offsetX r) / cs) (width g - 1))
          ∧ y = Z.max 0 (Z.min ((py - CanvasRenderer.offsetY r) / cs) (height g - 1)))
    as [Hx Hy] by (unfold CanvasRenderer.canvasToGrid in Hc; by injection Hc as <- <-).
  assert (inside g x y) as Hin by (unfold inside; lia).
  simpl. unfold highlightCell. rewrite guard_outside, bool_decide_eq_true_2 by done.
  simpl. fold cs.
  assert (∃ h, (if cs >=? 4
                then Some (RoundRect (CanvasRenderer.offsetX r + x * cs)
                                     (CanvasRenderer.offsetY r + y * cs) cs cs
                                     (Qmin 2 (inject_Z cs / 4)))
                else Some (PlainRect (CanvasRenderer.offsetX r + x * cs)
                                     (CanvasRenderer.offsetY r + y * cs) cs cs))
               = Some h
               ∧ highlightBox h
                 = (CanvasRenderer.offsetX r + x * cs,
                    CanvasRenderer.offsetY r + y * cs, cs, cs))
    as (h & -> & Hbox) by (destruct (cs >=? 4); eauto).
  exists h, x, y. split; [done|]. split; [done|]. split; [done|].
  split; intros Hp.
  - pose proof (Z.div_mod (px - CanvasRenderer.offsetX r) cs ltac:(lia)) as Hd.
    pose proof (Z.mod_pos_bound (px - CanvasRenderer.offsetX r) cs ltac:(lia)) as Hm.
    assert (0 <= (px - CanvasRenderer.offsetX r) / cs)
      by (apply Z.div_pos; lia).
    assert ((px - CanvasRenderer.offsetX r) / cs < width g)
      by (apply Z.div_lt_upper_bound; lia).
    assert (x = (px - CanvasRenderer.offsetX r) / cs) as Hq by lia.
    rewrite Hq. lia.
  - pose proof (Z.div_mod (py - CanvasRenderer.offsetY r) cs ltac:(lia)) as Hd.
    pose proof (Z.mod_pos_bound (py - CanvasRenderer.offsetY r) cs ltac:(lia)) as Hm.
    assert (0 <= (py - CanvasRenderer.offsetY r) / cs)
      by (apply Z.div_pos; lia).
    assert ((py - CanvasRenderer.offsetY r) / cs < height g)
      by (apply Z.div_lt_upper_bound; lia).
    assert (y = (py - CanvasRenderer.offsetY r) / cs) as Hq by lia.
    rewrite Hq. lia.
Qed.

Lemma hover_highlights_cell_under_pointer_witness :
  (1 <= CanvasRenderer.cellSize (GameControls.renderer sample_app)
   ∧ 1 <= width (GameControls.game sample_app)
   ∧ 1 <= height (GameControls.game sample_app))
  ∧ let g := GameControls.game sample_app in
    let r := GameControls.renderer sample_app in
    let cs := CanvasRenderer.cellSize r in
    let px := 400 - CanvasRenderer.rect_left (CanvasRenderer.mkRect 0 0) in
    let py := 300 - CanvasRenderer.rect_top (CanvasRenderer.mkRect 0 0) in
    (GameControls.isRunning (GameControls.controls sample_app) = true →
     handleCanvasHover (CanvasRenderer.mkRect 0 0) 400 300 sample_app = None)
    ∧ (GameControls.isRunning (GameControls.controls sample_app) = false →
       ∃ h x y,
         handleCanvasHover (CanvasRenderer.mkRect 0 0) 400 300 sample_app = Some h
         ∧ (0 <= x < width g ∧ 0 <= y < height g)
         ∧ highlightBox h
           = (CanvasRenderer.offsetX r + x * cs, CanvasRenderer.offsetY r + y * cs,
              cs, cs)
         ∧ (CanvasRenderer.offsetX r <= px < CanvasRenderer.offsetX r + width g * cs →
            CanvasRenderer.offsetX r + x * cs <= px
            < CanvasRenderer.offsetX r + x * cs + cs)
         ∧ (CanvasRenderer.offsetY r <= py
            < CanvasRenderer.offsetY r + height g * cs →
            CanvasRenderer.offsetY r + y * cs <= py
            < CanvasRenderer.offsetY r + y * cs + cs)).
Proof.
  assert (1 <= CanvasRenderer.cellSize (GameControls.renderer sample_app)) as Hcs
    by (vm_compute; discriminate).
  assert (1 <= width (GameControls.game sample_app)) as Hw
    by (vm_compute; discriminate).
  assert (1 <= height (GameControls.game sample_app)) as Hh
    by (vm_compute; discriminate).
  split; [split; [exact Hcs | split; [exact Hw | exact Hh]]|].
  exact (hover_highlights_cell_under_pointer (CanvasRenderer.mkRect 0 0) 400 300
           sample_app Hcs Hw Hh).
Defined.
